(** * doc-agent-mlt: the retrieval-augmented generation pipeline

    A shallow embedding of [app/processors/vector_processor.py],
    [app/processors/content_generator.py], [app/processors/chunk_processor.py],
    [app/utils/helper.py] and the parts of [app/config.py] they read,
    followed by the properties of the specification that concern them.

    Conventions.
    - A Python [str] is a list of Unicode code points ([N]).
    - A Python [float] is a rational ([Q]); nothing below depends on rounding.
    - A function that can raise returns an [outcome]; stateful code runs in
      the state-and-exception monad [M].
    - Third-party code (the embedding model, pgvector, the text splitter,
      hashlib, the LLM endpoint, the clock, the file system) is a field of
      an environment record; theorems quantify over every environment. *)

From Stdlib Require Import Ascii String.
From Stdlib Require Import List ZArith QArith Lia Bool Sorted Permutation Arith.
Import ListNotations.
Local Open Scope list_scope.

Set Implicit Arguments.
Set Warnings "-register-all".

(* ===================================================================== *)
(** * Python values used by the code *)
(* ===================================================================== *)

Module PyStr.

Definition char := N.
Definition str := list char.

(** A literal, written as a Rocq string. *)
Definition lit (s : string) : str := map N_of_ascii (list_ascii_of_string s).
Arguments lit s%_string.

Definition eqb (a b : str) : bool :=
  if list_eq_dec N.eq_dec a b then true else false.

(** [str.isspace] for one code point (the Unicode White_Space property
    together with the four ASCII separators U+001C..U+001F). *)
Definition isspace (c : char) : bool :=
  ((9 <=? c) && (c <=? 13) || (28 <=? c) && (c <=? 32)
   || (c =? 133) || (c =? 160) || (c =? 5760)
   || (8192 <=? c) && (c <=? 8202)
   || (c =? 8232) || (c =? 8233) || (c =? 8239) || (c =? 8287)
   || (c =? 12288))%N.

Fixpoint lstrip (s : str) : str :=
  match s with
  | c :: s' => if isspace c then lstrip s' else s
  | [] => []
  end.

Definition rstrip (s : str) : str := rev (lstrip (rev s)).

(** [s.strip()] *)
Definition strip (s : str) : str := rstrip (lstrip s).

(** [len(s)] *)
Definition len (s : str) : Z := Z.of_nat (length s).

(** [s[:k]] for any integer [k] (a negative [k] counts from the end). *)
Definition slice_to (A : Type) (s : list A) (k : Z) : list A :=
  if (0 <=? k)%Z then firstn (Z.to_nat k) s
  else firstn (Z.to_nat (Z.of_nat (length s) + k)) s.

(** [sep.join(parts)] *)
Fixpoint join (sep : str) (parts : list str) : str :=
  match parts with
  | [] => []
  | [p] => p
  | p :: ps => p ++ sep ++ join sep ps
  end.

Fixpoint starts_with (p s : str) : bool :=
  match p, s with
  | [], _ => true
  | a :: p', b :: s' => (a =? b)%N && starts_with p' s'
  | _ :: _, [] => false
  end.

(** [p in s] *)
Fixpoint contains (p s : str) : bool :=
  starts_with p s ||
  match s with
  | [] => false
  | _ :: s' => contains p s'
  end.

(** [s.lower()], exact on U+0000..U+00FF; code points above are left as
    they are (no such code point lowers to an ASCII letter other than
    [k] and [i], which the code never searches for). *)
Definition lower_char (c : char) : char :=
  (if (65 <=? c) && (c <=? 90) then c + 32
   else if (192 <=? c) && (c <=? 222) && negb (c =? 215) then c + 32
   else c)%N.

Definition lower (s : str) : str := map lower_char s.

(** [s.split()]: the maximal runs of non-space characters. *)
Fixpoint split_ws_aux (cur : str) (s : str) : list str :=
  match s with
  | [] => match cur with [] => [] | _ => [rev cur] end
  | c :: s' =>
      if isspace c
      then match cur with
           | [] => split_ws_aux [] s'
           | _ => rev cur :: split_ws_aux [] s'
           end
      else split_ws_aux (c :: cur) s'
  end.

Definition split_ws (s : str) : list str := split_ws_aux [] s.

End PyStr.

Import PyStr.

(** A [dict] with [str] keys: Python keeps the keys in insertion order, and
    [SimpleCache] evicts by that order, so the model is an association list
    without duplicate keys. *)
Module PyDict.

Definition dict (V : Type) := list (str * V).

Fixpoint get (V : Type) (d : dict V) (k : str) : option V :=
  match d with
  | [] => None
  | (k', v) :: d' => if PyStr.eqb k' k then Some v else get d' k
  end.

(** [d[k] = v]: an existing key keeps its place, a new one goes last. *)
Fixpoint set (V : Type) (d : dict V) (k : str) (v : V) : dict V :=
  match d with
  | [] => [(k, v)]
  | (k', v') :: d' =>
      if PyStr.eqb k' k then (k', v) :: d' else (k', v') :: set d' k v
  end.

Definition mem (V : Type) (d : dict V) (k : str) : bool :=
  match get d k with Some _ => true | None => false end.

Definition size (V : Type) (d : dict V) : Z := Z.of_nat (length d).

End PyDict.

(* ===================================================================== *)
(** * Exceptions and state *)
(* ===================================================================== *)

(** An exception is represented by [str(e)], the only thing the code reads. *)
Definition exn := str.

Inductive outcome (A : Type) : Type :=
| Ok (a : A)
| Raise (e : exn).
Arguments Ok {A} a.
Arguments Raise {A} e.

Definition M (S A : Type) : Type := S -> outcome A * S.

Definition ret {S A} (a : A) : M S A := fun s => (Ok a, s).

Definition raise {S A} (e : exn) : M S A := fun s => (Raise e, s).

Definition bind {S A B} (m : M S A) (k : A -> M S B) : M S B :=
  fun s => match m s with
           | (Ok a, s') => k a s'
           | (Raise e, s') => (Raise e, s')
           end.

(** [try: body except Exception as e: handler(e)]; what [body] did to the
    state before raising stays done. *)
Definition try_except {S A} (body : M S A) (handler : exn -> M S A) : M S A :=
  fun s => match body s with
           | (Ok a, s') => (Ok a, s')
           | (Raise e, s') => handler e s'
           end.

Definition get_state {S} : M S S := fun s => (Ok s, s).
Definition put_state {S} (s : S) : M S unit := fun _ => (Ok tt, s).
Definition modify {S} (f : S -> S) : M S unit := fun s => (Ok tt, f s).

Declare Scope py_scope.
Delimit Scope py_scope with py.
Notation "x <- m ;; k" := (bind m (fun x => k))
  (at level 100, m at next level, right associativity) : py_scope.
Notation "m ;;; k" := (bind m (fun _ => k))
  (at level 100, right associativity) : py_scope.
Local Open Scope py_scope.

Definition is_ok {A} (o : outcome A) : bool :=
  match o with Ok _ => true | Raise _ => false end.

(* ===================================================================== *)
(** * [app/config.py]: the settings the pipeline reads *)
(* ===================================================================== *)

Module settings.

Module vector.
Definition max_cache_size : Z := 5000.
Definition max_generation_cache_size : Z := 1000.
Definition min_context_chars : Z := 100.
Definition context_separator : str := [10; 10]%N.
End vector.

Module generation.
Definition max_questions_per_request : Z := 30.
Definition max_flashcards_per_request : Z := 30.
Definition questions_per_chunk : Z := 15.
Definition flashcards_per_chunk : Z := 15.
End generation.

Module chunk.
Definition small_doc_threshold : Z := 2000.
Definition medium_doc_threshold : Z := 8000.
Definition large_doc_threshold : Z := 20000.
Definition small_doc_chunk_size : Z := 800.
Definition medium_doc_chunk_size : Z := 1500.
Definition large_doc_chunk_size : Z := 2500.
Definition xlarge_doc_chunk_size : Z := 3500.
Definition small_doc_chunk_overlap : Z := 100.
Definition medium_doc_chunk_overlap : Z := 150.
Definition large_doc_chunk_overlap : Z := 200.
Definition xlarge_doc_chunk_overlap : Z := 300.
Definition chars_per_token_estimate : Z := 6.
End chunk.

Module rag.
Definition embedding_batch_size : Z := 128.
Definition retrieval_top_k : Z := 8.
Definition similarity_threshold : Q := 1 # 2.
Definition max_context_length : Z := 3000.
Definition generation_timeout : Z := 20.
End rag.

End settings.

(* ===================================================================== *)
(** * The world the pipeline runs in *)
(* ===================================================================== *)

(** An embedding: a list of floats. *)
Definition vector := list Q.

(** [extra_metadata] of a chunk row. *)
Record chunk_metadata := {
  chunk_length : Z;
  meta_word_count : Z;
  content_hash : str
}.

(** A row of the table [document_chunks] ([app/models/document.py]). *)
Record DocumentChunk := {
  id : str;
  document_id : str;
  chunk_index : Z;
  content : str;
  word_count : Z;
  embedding : option vector;
  extra_metadata : option chunk_metadata;
  created_at : option Z
}.

(** One chat message: role and content. *)
Definition message := (str * str)%type.

(** What the process did to the outside, oldest first. *)
Inductive event :=
| EvEncode (texts : list str)
| EvSplit (chunk_size chunk_overlap : Z) (text : str)
| EvDbSelect
| EvDbInsert (rows : list DocumentChunk)
| EvDbCommit
| EvDbRollback
| EvLlmCall (messages : list message)
| EvSleep (delay : Q)
| EvFileAppend (text : str)
(** not an effect: [generate_json_items] was entered, asked for
    [target_count] items; it calls [generate_content] once *)
| EvGenerateItems (prompt : str) (target_count : Z).

(** The third-party code and the outside world. Every answer may depend
    on [n], the number of events that happened before it was asked. *)
Record Env := {
(** [hashlib.md5(s.encode('utf-8')).hexdigest()] *)
md5_hexdigest : str -> str;
(** [SentenceTransformer.encode(texts, ...).tolist()] *)
model_encode : nat -> list str -> outcome (list vector);
(** pgvector's [a <=> b] *)
cosine_distance : vector -> vector -> Q;
(** [RecursiveCharacterTextSplitter(chunk_size, chunk_overlap, ...).split_text] *)
split_text : Z -> Z -> str -> list str;
(** [str(uuid.uuid4())] *)
uuid4 : nat -> nat -> str;
(** the column default [current_date_time] *)
current_date_time : nat -> Z;
(** a database statement fails with this error *)
db_fault : nat -> option exn;
(** [client.chat.completions.create(...).choices[0].message.content] *)
llm_chat : nat -> list message -> outcome (option str);
(** [time.time() % 1] *)
clock_fraction : nat -> Q;
(** appending to the response log fails with this error *)
fs_fault : nat -> option exn;
(** [template.format(topic=, context=, target_count=)] *)
str_format : str -> str -> str -> Z -> outcome str;
(** [str.isalnum] for a code point above U+007F *)
unicode_isalnum : char -> bool
}.

(** The process state: the two module-level singletons and the database. *)
Record World := {
(** [vector_processor.embedding_cache.cache] *)
embedding_cache : PyDict.dict vector;
(** [content_generator.cache] *)
generation_cache : PyDict.dict str;
(** committed rows of [document_chunks] *)
document_chunks : list DocumentChunk;
(** rows written by the session and not yet committed *)
pending_chunks : list DocumentChunk;
trace : list event
}.

Definition set_embedding_cache (c : PyDict.dict vector) (w : World) : World :=
  {| embedding_cache := c; generation_cache := generation_cache w;
     document_chunks := document_chunks w; pending_chunks := pending_chunks w;
     trace := trace w |}.

Definition set_generation_cache (c : PyDict.dict str) (w : World) : World :=
  {| embedding_cache := embedding_cache w; generation_cache := c;
     document_chunks := document_chunks w; pending_chunks := pending_chunks w;
     trace := trace w |}.

Definition set_tables (committed pending : list DocumentChunk) (w : World) : World :=
  {| embedding_cache := embedding_cache w; generation_cache := generation_cache w;
     document_chunks := committed; pending_chunks := pending;
     trace := trace w |}.

Definition log_event (e : event) (w : World) : World :=
  {| embedding_cache := embedding_cache w; generation_cache := generation_cache w;
     document_chunks := document_chunks w; pending_chunks := pending_chunks w;
     trace := trace w ++ [e] |}.

Definition emit (e : event) : M World unit := modify (log_event e).

(** The index the environment is asked at. *)
Definition now : M World nat := fun w => (Ok (length (trace w)), w).

Definition lift_outcome {A} (o : outcome A) : M World A := fun w => (o, w).

(* ===================================================================== *)
(** * [app/processors/vector_processor.py] *)
(* ===================================================================== *)

(** [class SimpleCache], on the dictionary it wraps. *)
Module SimpleCache.

Definition get (cache : PyDict.dict vector) (key : str) : option vector :=
  PyDict.get cache key.

(** [next(iter(cache))] raises [StopIteration] on an empty dictionary. *)
Definition set (max_size : Z) (cache : PyDict.dict vector) (key : str)
    (value : vector) : outcome (PyDict.dict vector) :=
  if (max_size <=? PyDict.size cache)%Z then
    match cache with
    | [] => Raise (lit "StopIteration")
    | _ :: rest => Ok (PyDict.set rest key value)
    end
  else Ok (PyDict.set cache key value).

Definition clear (cache : PyDict.dict vector) : PyDict.dict vector := [].

End SimpleCache.

(** [list.sort(key=lambda x: x[0])]: a stable sort on the first component. *)
Fixpoint insert_by_key (A : Type) (x : nat * A) (l : list (nat * A)) : list (nat * A) :=
  match l with
  | [] => [x]
  | y :: l' => if (fst x <=? fst y)%nat then x :: y :: l' else y :: insert_by_key x l'
  end.

Fixpoint sort_by_key (A : Type) (l : list (nat * A)) : list (nat * A) :=
  match l with
  | [] => []
  | x :: l' => insert_by_key x (sort_by_key l')
  end.

(** [enumerate(l)] *)
Definition enumerate (A : Type) (l : list A) : list (nat * A) :=
  combine (seq 0 (length l)) l.

Section VectorProcessor.

Variable env : Env.

Definition _hash_content (content : str) : str := md5_hexdigest env content.

(** The cache lookup loop of [create_embeddings]: the three lists it fills. *)
Fixpoint lookup_loop (cache : PyDict.dict vector) (items : list (nat * str))
    (embeddings : list (nat * vector)) (texts_to_embed : list str)
    (text_indices : list nat)
  : list (nat * vector) * list str * list nat :=
  match items with
  | [] => (embeddings, texts_to_embed, text_indices)
  | (i, text) :: rest =>
      let cache_key := _hash_content text in
      match SimpleCache.get cache cache_key with
      | Some cached =>
          lookup_loop cache rest (embeddings ++ [(i, cached)]) texts_to_embed text_indices
      | None =>
          lookup_loop cache rest embeddings (texts_to_embed ++ [text]) (text_indices ++ [i])
      end
  end.

(** The cache update loop over [zip(texts_to_embed, new_embeddings)]. *)
Fixpoint update_loop (pairs : list (str * vector)) : M World unit :=
  match pairs with
  | [] => ret tt
  | (text, emb) :: rest =>
      w <- get_state ;;
      cache' <- lift_outcome
        (SimpleCache.set settings.vector.max_cache_size (embedding_cache w)
           (_hash_content text) emb) ;;
      modify (set_embedding_cache cache') ;;;
      update_loop rest
  end.

Definition create_embeddings (texts : list str) : M World (list vector) :=
  try_except
    (match texts with
     | [] => ret []
     | _ =>
         w <- get_state ;;
         let '(embeddings, texts_to_embed, text_indices) :=
           lookup_loop (embedding_cache w) (enumerate texts) [] [] [] in
         embeddings <-
           match texts_to_embed with
           | [] => ret embeddings
           | _ =>
               n <- now ;;
               emit (EvEncode texts_to_embed) ;;;
               new_embeddings <- lift_outcome (model_encode env n texts_to_embed) ;;
               update_loop (combine texts_to_embed new_embeddings) ;;;
               ret (embeddings ++ combine text_indices new_embeddings)
           end ;;
         ret (map snd (sort_by_key embeddings))
     end)
    (fun e => raise e).

(** [ChunkProcessor.setup_text_splitter]: the [(chunk_size, chunk_overlap)]
    the splitter is built with. *)
Definition setup_text_splitter (document_length : Z) : Z * Z :=
  let estimated_chars := (document_length * settings.chunk.chars_per_token_estimate)%Z in
  if (estimated_chars <=? settings.chunk.small_doc_threshold)%Z then
    (settings.chunk.small_doc_chunk_size, settings.chunk.small_doc_chunk_overlap)
  else if (estimated_chars <=? settings.chunk.medium_doc_threshold)%Z then
    (settings.chunk.medium_doc_chunk_size, settings.chunk.medium_doc_chunk_overlap)
  else if (estimated_chars <=? settings.chunk.large_doc_threshold)%Z then
    (settings.chunk.large_doc_chunk_size, settings.chunk.large_doc_chunk_overlap)
  else
    (settings.chunk.xlarge_doc_chunk_size, settings.chunk.xlarge_doc_chunk_overlap).

(** ** The database session *)

(** A statement is sent; the database may answer with an error. *)
Definition db_statement (ev : event) : M World unit :=
  n <- now ;;
  emit ev ;;;
  match db_fault env n with
  | Some e => raise e
  | None => ret tt
  end.

(** What the session sees: committed rows and its own writes. *)
Definition visible_chunks (w : World) : list DocumentChunk :=
  document_chunks w ++ pending_chunks w.

Definition has_document_id (doc : str) (c : DocumentChunk) : bool :=
  PyStr.eqb (document_id c) doc.

(** [db.query(DocumentChunk).filter(DocumentChunk.document_id == doc).all()] *)
Definition query_chunks_all (doc : str) : M World (list DocumentChunk) :=
  db_statement EvDbSelect ;;;
  w <- get_state ;;
  ret (filter (has_document_id doc) (visible_chunks w)).

(** [....first()] *)
Definition query_chunks_first (doc : str) : M World (option DocumentChunk) :=
  db_statement EvDbSelect ;;;
  w <- get_state ;;
  ret (hd_error (filter (has_document_id doc) (visible_chunks w))).

(** A mapping whose [created_at] is [None] gets the column default. *)
Definition stored_row (t : Z) (c : DocumentChunk) : DocumentChunk :=
  {| id := id c; document_id := document_id c; chunk_index := chunk_index c;
     content := content c; word_count := word_count c;
     embedding := embedding c; extra_metadata := extra_metadata c;
     created_at := match created_at c with Some t' => Some t' | None => Some t end |}.

(** [db.bulk_insert_mappings(DocumentChunk, [...])] *)
Definition bulk_insert_mappings (rows : list DocumentChunk) : M World unit :=
  n <- now ;;
  db_statement (EvDbInsert rows) ;;;
  modify (fun w => set_tables (document_chunks w)
                     (pending_chunks w ++ map (stored_row (current_date_time env n)) rows) w).

(** [db.commit()] *)
Definition commit : M World unit :=
  db_statement EvDbCommit ;;;
  modify (fun w => set_tables (document_chunks w ++ pending_chunks w) [] w).

(** [db.rollback()] *)
Definition rollback : M World unit :=
  emit EvDbRollback ;;;
  modify (fun w => set_tables (document_chunks w) [] w).

(** ** [chunk_and_embed_document] *)

Definition new_chunk (n : nat) (doc : str) (item : nat * (str * vector)) : DocumentChunk :=
  let '(i, (chunk_text, emb)) := item in
  {| id := uuid4 env n i;
     document_id := doc;
     chunk_index := Z.of_nat i;
     content := chunk_text;
     word_count := Z.of_nat (length (split_ws chunk_text));
     embedding := Some emb;
     extra_metadata :=
       Some {| chunk_length := len chunk_text;
               meta_word_count := Z.of_nat (length (split_ws chunk_text));
               content_hash := _hash_content chunk_text |};
     created_at := None |}.

Definition chunk_and_embed_document (doc : str) (text_content : str)
  : M World (list DocumentChunk) :=
  try_except
    (existing_chunks <- query_chunks_first doc ;;
     match existing_chunks with
     | Some _ => query_chunks_all doc
     | None =>
         let word_count := Z.of_nat (length (split_ws text_content)) in
         let '(chunk_size, chunk_overlap) := setup_text_splitter word_count in
         emit (EvSplit chunk_size chunk_overlap text_content) ;;;
         let chunks := split_text env chunk_size chunk_overlap text_content in
         match chunks with
         | [] => ret []
         | _ =>
             embeddings <- create_embeddings chunks ;;
             if negb (length embeddings =? length chunks)%nat
             then raise (lit "Embedding count doesn't match chunk count")
             else
               n <- now ;;
               let chunk_objects :=
                 map (new_chunk n doc) (enumerate (combine chunks embeddings)) in
               bulk_insert_mappings chunk_objects ;;;
               commit ;;;
               ret chunk_objects
         end
     end)
    (fun e => rollback ;;; raise e).

(** ** [similarity_search] *)

(** One row of the similarity query; the score is [NULL] for a row
    without embedding. *)
Definition scored_row := (DocumentChunk * option Q)%type.

Definition similarity_score_of (query_embedding : vector) (c : DocumentChunk) : option Q :=
  match embedding c with
  | Some v => Some (1 - cosine_distance env v query_embedding)
  | None => None
  end.

(** [ORDER BY similarity_score DESC] puts [NULL] first. *)
Definition score_geb (a b : option Q) : bool :=
  match a, b with
  | None, _ => true
  | Some _, None => false
  | Some x, Some y => Qle_bool y x
  end.

Fixpoint insert_desc (x : scored_row) (l : list scored_row) : list scored_row :=
  match l with
  | [] => [x]
  | y :: l' => if score_geb (snd x) (snd y) then x :: y :: l' else y :: insert_desc x l'
  end.

Fixpoint order_by_score_desc (l : list scored_row) : list scored_row :=
  match l with
  | [] => []
  | x :: l' => insert_desc x (order_by_score_desc l')
  end.

(** [document_id IN (...)], added only when [document_ids] is truthy. *)
Definition in_document_ids (document_ids : option (list str)) (c : DocumentChunk) : bool :=
  match document_ids with
  | None | Some [] => true
  | Some ids => existsb (PyStr.eqb (document_id c)) ids
  end.

(** [db.execute(text(similarity_query), params).fetchall()] *)
Definition execute_similarity_query (query_embedding : vector)
    (document_ids : option (list str)) (top_k : Z) : M World (list scored_row) :=
  db_statement EvDbSelect ;;;
  if (top_k <? 0)%Z then raise (lit "LIMIT must not be negative")
  else
    w <- get_state ;;
    let candidates := filter (in_document_ids document_ids) (visible_chunks w) in
    let scored := map (fun c => (c, similarity_score_of query_embedding c)) candidates in
    ret (firstn (Z.to_nat top_k) (order_by_score_desc scored)).

(** One entry of the list [similarity_search] returns. *)
Record search_result := {
  sr_id : str;
  sr_document_id : str;
  sr_chunk_index : Z;
  sr_content : str;
  sr_word_count : Z;
  sr_extra_metadata : option chunk_metadata;
  similarity_score : Q
}.

(** The loop over the fetched rows; comparing [None] with a float raises. *)
Fixpoint collect_results (results : list scored_row) (search_results : list search_result)
  : outcome (list search_result) :=
  match results with
  | [] => Ok search_results
  | (row, None) :: _ => Raise (lit "'>=' not supported between instances of 'NoneType' and 'float'")
  | (row, Some score) :: rest =>
      if Qle_bool settings.rag.similarity_threshold score
      then collect_results rest
             (search_results ++
                [{| sr_id := id row; sr_document_id := document_id row;
                    sr_chunk_index := chunk_index row; sr_content := content row;
                    sr_word_count := word_count row;
                    sr_extra_metadata := extra_metadata row;
                    similarity_score := score |}])
      else collect_results rest search_results
  end.

(** The [try] block of [similarity_search]. *)
Definition similarity_search_body (query : str) (document_ids : option (list str))
    (top_k : Z) : M World (list search_result) :=
  match strip query with
  | [] => ret []
  | _ =>
      embeddings <- create_embeddings [query] ;;
      match embeddings with
      | [] => raise (lit "list index out of range")
      | query_embedding :: _ =>
          results <- execute_similarity_query query_embedding document_ids top_k ;;
          lift_outcome (collect_results results [])
      end
  end.

Definition similarity_search (query : str) (document_ids : option (list str)) (top_k : Z)
  : M World (list search_result) :=
  try_except (similarity_search_body query document_ids top_k) (fun _ => ret []).

(** ** [get_relevant_context] *)

Fixpoint context_loop (max_context_length : Z) (search_results : list search_result)
    (context_parts : list str) (current_length : Z) : list str :=
  match search_results with
  | [] => context_parts
  | result :: rest =>
      let content := strip (sr_content result) in
      let content_length := len content in
      if (current_length + content_length <=? max_context_length)%Z then
        context_loop max_context_length rest (context_parts ++ [content])
          (current_length + content_length)
      else
        let remaining_space := (max_context_length - current_length)%Z in
        if (settings.vector.min_context_chars <? remaining_space)%Z
        then context_parts ++ [slice_to content (remaining_space - 3) ++ lit "..."]
        else context_parts
  end.

(** The [try] block of [get_relevant_context]. *)
Definition get_relevant_context_body (topic : str) (document_ids : option (list str))
    (max_context_length : option Z) : M World str :=
  let max_context_length :=
    match max_context_length with
    | None => settings.rag.max_context_length
    | Some m => m
    end in
  search_results <- similarity_search topic document_ids settings.rag.retrieval_top_k ;;
  match search_results with
  | [] => ret []
  | _ =>
      let context_parts := context_loop max_context_length search_results [] 0 in
      ret (join settings.vector.context_separator context_parts)
  end.

Definition get_relevant_context (topic : str) (document_ids : option (list str))
    (max_context_length : option Z) : M World str :=
  try_except (get_relevant_context_body topic document_ids max_context_length)
    (fun _ => ret []).

End VectorProcessor.

(* ===================================================================== *)
(** * [json.loads] *)
(* ===================================================================== *)

(** The values [json.loads] builds and its grammar, after the standard
    library's decoder (strict mode). An [int] is exact; a [float] keeps its
    lexeme; an object is a [dict] in insertion order. The interpreter's
    recursion limit and integer digit limit are not modelled. *)
Module Json.

Inductive json :=
| JNull
| JBool (b : bool)
| JInt (z : Z)
| JFloat (lexeme : str)
| JStr (s : str)
| JArr (items : list json)
| JObj (members : list (str * json)).

Definition is_ws (c : char) : bool :=
  ((c =? 32) || (c =? 9) || (c =? 10) || (c =? 13))%N.

Fixpoint skip_ws (s : str) : str :=
  match s with
  | c :: s' => if is_ws c then skip_ws s' else s
  | [] => []
  end.

Definition is_digit (c : char) : bool := ((48 <=? c) && (c <=? 57))%N.

Definition hex_value (c : char) : option N :=
  (if (48 <=? c) && (c <=? 57) then Some (c - 48)
   else if (97 <=? c) && (c <=? 102) then Some (c - 87)
   else if (65 <=? c) && (c <=? 70) then Some (c - 55)
   else None)%N.

Definition hex4 (a b c d : char) : option N :=
  match hex_value a, hex_value b, hex_value c, hex_value d with
  | Some x, Some y, Some z, Some w => Some (((x * 16 + y) * 16 + z) * 16 + w)%N
  | _, _, _, _ => None
  end.

Definition simple_escape (c : char) : option char :=
  (if c =? 34 then Some 34
   else if c =? 92 then Some 92
   else if c =? 47 then Some 47
   else if c =? 98 then Some 8
   else if c =? 102 then Some 12
   else if c =? 110 then Some 10
   else if c =? 114 then Some 13
   else if c =? 116 then Some 9
   else None)%N.

(** The characters of a string literal up to its closing quote; the flag
    marks a code unit written as [\uXXXX]. *)
Fixpoint scan_units (s : str) (acc : list (bool * N)) : option (list (bool * N) * str) :=
  match s with
  | [] => None
  | c :: s' =>
      if (c =? 34)%N then Some (rev acc, s')
      else if (c =? 92)%N then
        match s' with
        | [] => None
        | e :: s'' =>
            if (e =? 117)%N then
              match s'' with
              | h1 :: h2 :: h3 :: h4 :: rest =>
                  match hex4 h1 h2 h3 h4 with
                  | Some u => scan_units rest ((true, u) :: acc)
                  | None => None
                  end
              | _ => None
              end
            else
              match simple_escape e with
              | Some x => scan_units s'' ((false, x) :: acc)
              | None => None
              end
        end
      else if (c <? 32)%N then None
      else scan_units s' ((false, c) :: acc)
  end.

(** An escaped high surrogate directly followed by an escaped low one is
    one code point. *)
Fixpoint join_surrogates (units : list (bool * N)) : str :=
  match units with
  | [] => []
  | (esc, u) :: rest =>
      match rest with
      | (true, u2) :: rest' =>
          if (esc && (55296 <=? u) && (u <=? 56319) && (56320 <=? u2) && (u2 <=? 57343))%N
          then (65536 + (u - 55296) * 1024 + (u2 - 56320))%N :: join_surrogates rest'
          else u :: join_surrogates rest
      | _ => u :: join_surrogates rest
      end
  end.

(** [scanstring], called just after the opening quote. *)
Definition scanstring (s : str) : option (str * str) :=
  match scan_units s [] with
  | Some (units, rest) => Some (join_surrogates units, rest)
  | None => None
  end.

Fixpoint span_digits (s : str) : str * str :=
  match s with
  | c :: s' =>
      if is_digit c then let '(d, r) := span_digits s' in (c :: d, r) else ([], s)
  | [] => ([], [])
  end.

Definition digits_value (d : str) : Z :=
  fold_left (fun acc c => (acc * 10 + Z.of_N (c - 48))%Z) d 0%Z.

(** The integer part: an optional minus sign, then a single 0 or a run
    of digits that does not start with 0. *)
Definition match_integer (s : str) : option (str * str) :=
  let '(sign, s1) :=
    match s with
    | 45%N :: r => ([45%N], r)
    | _ => ([], s)
    end in
  match s1 with
  | c :: r =>
      if (c =? 48)%N then Some (sign ++ [c], r)
      else if is_digit c then let '(d, r') := span_digits s1 in Some (sign ++ d, r')
      else None
  | [] => None
  end.

(** The optional fraction: a dot and at least one digit. *)
Definition match_frac (s : str) : str * str :=
  match s with
  | 46%N :: r =>
      match span_digits r with
      | ([], _) => ([], s)
      | (d, r') => (46%N :: d, r')
      end
  | _ => ([], s)
  end.

(** The optional exponent: e or E, an optional sign, at least one digit. *)
Definition match_exp (s : str) : str * str :=
  match s with
  | e :: r =>
      if ((e =? 101) || (e =? 69))%N then
        let '(sign, r1) :=
          match r with
          | c :: r' => if ((c =? 45) || (c =? 43))%N then ([c], r') else ([], r)
          | [] => ([], r)
          end in
        match span_digits r1 with
        | ([], _) => ([], s)
        | (d, r') => (e :: sign ++ d, r')
        end
      else ([], s)
  | [] => ([], s)
  end.

Definition int_of_lexeme (l : str) : Z :=
  match l with
  | 45%N :: d => (- digits_value d)%Z
  | _ => digits_value l
  end.

Definition match_number (s : str) : option (json * str) :=
  match match_integer s with
  | None => None
  | Some (i, r) =>
      let '(f, r1) := match_frac r in
      let '(e, r2) := match_exp r1 in
      match f, e with
      | [], [] => Some (JInt (int_of_lexeme i), r2)
      | _, _ => Some (JFloat (i ++ f ++ e), r2)
      end
  end.

Definition match_word (w : str) (v : json) (s : str) : option (json * str) :=
  if starts_with w s then Some (v, skipn (length w) s) else None.

Definition first_some {A} (a b : option A) : option A :=
  match a with Some _ => a | None => b end.

Definition match_constant (s : str) : option (json * str) :=
  first_some (match_word (lit "null") JNull s)
 (first_some (match_word (lit "true") (JBool true) s)
 (first_some (match_word (lit "false") (JBool false) s)
 (first_some (match_number s)
 (first_some (match_word (lit "NaN") (JFloat (lit "NaN")) s)
 (first_some (match_word (lit "Infinity") (JFloat (lit "Infinity")) s)
             (match_word (lit "-Infinity") (JFloat (lit "-Infinity")) s)))))).

(** [dict(pairs)]: a repeated key keeps its first place and its last value. *)
Definition dict_of_pairs (pairs : list (str * json)) : list (str * json) :=
  fold_left (fun d kv => PyDict.set d (fst kv) (snd kv)) pairs [].

(** [scan_once], [JSONArray] and [JSONObject]. [parse_elements] starts at
    a value; [parse_members] starts just after the opening quote of a key.
    The accumulators are in reverse order. *)
Fixpoint scan_once (fuel : nat) (s : str) : option (json * str) :=
  match fuel with
  | O => None
  | S fuel' =>
      match s with
      | [] => None
      | c :: s' =>
          if (c =? 34)%N then
            match scanstring s' with
            | Some (x, r) => Some (JStr x, r)
            | None => None
            end
          else if (c =? 123)%N then
            match skip_ws s' with
            | [] => None
            | c1 :: r =>
                if (c1 =? 125)%N then Some (JObj [], r)
                else if (c1 =? 34)%N then parse_members fuel' r []
                else None
            end
          else if (c =? 91)%N then
            match skip_ws s' with
            | [] => parse_elements fuel' [] []
            | c1 :: r =>
                if (c1 =? 93)%N then Some (JArr [], r)
                else parse_elements fuel' (c1 :: r) []
            end
          else match_constant s
      end
  end
with parse_elements (fuel : nat) (s : str) (acc : list json) : option (json * str) :=
  match fuel with
  | O => None
  | S fuel' =>
      match scan_once fuel' s with
      | None => None
      | Some (v, r) =>
          match skip_ws r with
          | [] => None
          | c :: r' =>
              if (c =? 93)%N then Some (JArr (rev (v :: acc)), r')
              else if (c =? 44)%N then parse_elements fuel' (skip_ws r') (v :: acc)
              else None
          end
      end
  end
with parse_members (fuel : nat) (s : str) (acc : list (str * json)) : option (json * str) :=
  match fuel with
  | O => None
  | S fuel' =>
      match scanstring s with
      | None => None
      | Some (key, r) =>
          match skip_ws r with
          | [] => None
          | c :: r1 =>
              if (c =? 58)%N then
                match scan_once fuel' (skip_ws r1) with
                | None => None
                | Some (v, r2) =>
                    match skip_ws r2 with
                    | [] => None
                    | c2 :: r3 =>
                        if (c2 =? 125)%N
                        then Some (JObj (dict_of_pairs (rev ((key, v) :: acc))), r3)
                        else if (c2 =? 44)%N then
                          match skip_ws r3 with
                          | [] => None
                          | c3 :: r4 =>
                              if (c3 =? 34)%N
                              then parse_members fuel' r4 ((key, v) :: acc)
                              else None
                          end
                        else None
                    end
                end
              else None
          end
      end
  end.

(** [json.loads(s)]; [None] stands for [json.JSONDecodeError]. Every
    recursive call above follows at least one consumed character, so the
    fuel never runs out. *)
Definition loads (s : str) : option json :=
  match scan_once (2 * length s + 2) (skip_ws s) with
  | Some (v, r) =>
      match skip_ws r with
      | [] => Some v
      | _ => None
      end
  | None => None
  end.

End Json.

Import Json.

(* ===================================================================== *)
(** * [app/utils/helper.py]: [clean_json_response] *)
(* ===================================================================== *)

(** The regular expressions of [clean_json_response], each written as the
    scan it performs. The source line is given with each one. *)
Section Helper.

Variable env : Env.

(** [\w]: ASCII letters, digits and underscore; above U+007F whatever
    [str.isalnum] says. *)
Definition is_word (c : char) : bool :=
  (if c <? 128
   then (48 <=? c) && (c <=? 57) || (65 <=? c) && (c <=? 90)
        || (97 <=? c) && (c <=? 122) || (c =? 95)
   else unicode_isalnum env c)%N.

(** Line 16: every code fence marker, three backquotes with an optional
    [json] after them, is deleted. [skip] characters are still to drop. *)
Fixpoint remove_fences_from (skip : nat) (s : str) : str :=
  match s with
  | [] => []
  | c :: r =>
      match skip with
      | S k => remove_fences_from k r
      | O =>
          if starts_with (lit "```json") s then remove_fences_from 6 r
          else if starts_with (lit "```") s then remove_fences_from 2 r
          else c :: remove_fences_from 0 r
      end
  end.

Definition remove_fences (s : str) : str := remove_fences_from 0 s.

(** The suffix that starts at the first [x]; empty when there is none. *)
Fixpoint drop_until (x : char) (s : str) : str :=
  match s with
  | [] => []
  | c :: r => if (c =? x)%N then s else drop_until x r
  end.

(** Lines 31, 32 and 36: [re.findall] of an opening bracket, anything
    (greedy, newlines included), a closing bracket. The only possible
    match runs from the first opening to the last closing bracket. *)
Definition findall_span (opening closing : char) (text : str) : list str :=
  match drop_until opening text with
  | [] => []
  | o :: after =>
      match rev (drop_until closing (rev after)) with
      | [] => []
      | body => [o :: body]
      end
  end.

(** Line 50: the leading characters other than [[] and [{] are deleted. *)
Fixpoint drop_leading_junk (s : str) : str :=
  match s with
  | [] => []
  | c :: r => if ((c =? 91) || (c =? 123))%N then s else drop_leading_junk r
  end.

(** Line 51: the trailing characters other than [}] and []] are deleted. *)
Fixpoint drop_until_closing (s : str) : str :=
  match s with
  | [] => []
  | c :: r => if ((c =? 125) || (c =? 93))%N then s else drop_until_closing r
  end.

Definition drop_trailing_junk (s : str) : str := rev (drop_until_closing (rev s)).

(** Lines 54 and 75: a run of word characters directly followed by a
    colon is put in double quotes. [run] is the current run, reversed. *)
Fixpoint quote_keys_from (run : str) (s : str) : str :=
  match s with
  | [] => rev run
  | c :: r =>
      if is_word c then quote_keys_from (c :: run) r
      else
        match run with
        | [] => c :: quote_keys_from [] r
        | _ =>
            if (c =? 58)%N
            then 34%N :: rev run ++ 34%N :: c :: quote_keys_from [] r
            else rev run ++ c :: quote_keys_from [] r
        end
  end.

Definition quote_keys (s : str) : str := quote_keys_from [] s.

(** Lines 55 and 76: a single quote, the characters up to the next single
    quote, and that quote become the same characters in double quotes.
    [inside] holds, reversed, what follows an opening quote. *)
Fixpoint requote_from (inside : option str) (s : str) : str :=
  match s with
  | [] =>
      match inside with
      | None => []
      | Some acc => 39%N :: rev acc
      end
  | c :: r =>
      match inside with
      | None =>
          if (c =? 39)%N then requote_from (Some []) r else c :: requote_from None r
      | Some acc =>
          if (c =? 39)%N then 34%N :: rev acc ++ 34%N :: requote_from None r
          else requote_from (Some (c :: acc)) r
      end
  end.

Definition requote (s : str) : str := requote_from None s.

(** Lines 56 and 77: a comma followed by optional whitespace and a closing
    bracket is deleted. [pending] holds, reversed, the whitespace read
    after a comma. *)
Fixpoint drop_trailing_commas_from (pending : option str) (s : str) : str :=
  match s with
  | [] =>
      match pending with
      | None => []
      | Some ws => 44%N :: rev ws
      end
  | c :: r =>
      match pending with
      | Some ws =>
          if isspace c then drop_trailing_commas_from (Some (c :: ws)) r
          else if ((c =? 125) || (c =? 93))%N
          then rev ws ++ c :: drop_trailing_commas_from None r
          else 44%N :: rev ws ++
               (if (c =? 44)%N then drop_trailing_commas_from (Some []) r
                else c :: drop_trailing_commas_from None r)
      | None =>
          if (c =? 44)%N then drop_trailing_commas_from (Some []) r
          else c :: drop_trailing_commas_from None r
      end
  end.

Definition drop_trailing_commas (s : str) : str := drop_trailing_commas_from None s.

(** Line 57: two double quotes separated by whitespace that contains a
    line feed become two double quotes separated by one space. [pending]
    holds, reversed, the whitespace read after a double quote, and whether
    a line feed was among it. *)
Fixpoint join_broken_strings_from (pending : option (str * bool)) (s : str) : str :=
  match s with
  | [] =>
      match pending with
      | None => []
      | Some (ws, _) => 34%N :: rev ws
      end
  | c :: r =>
      match pending with
      | Some (ws, nl) =>
          if isspace c
          then join_broken_strings_from (Some (c :: ws, nl || (c =? 10)%N)) r
          else if (c =? 34)%N then
            if nl then 34%N :: 32%N :: 34%N :: join_broken_strings_from None r
            else 34%N :: rev ws ++ join_broken_strings_from (Some ([], false)) r
          else 34%N :: rev ws ++ c :: join_broken_strings_from None r
      | None =>
          if (c =? 34)%N then join_broken_strings_from (Some ([], false)) r
          else c :: join_broken_strings_from None r
      end
  end.

Definition join_broken_strings (s : str) : str := join_broken_strings_from None s.

(** Line 68, from just after an opening brace: the rest of an object
    whose braces nest at most one level deep, closing brace included.
    [inner] tells that a nested brace is open. *)
Fixpoint match_object (inner : bool) (s : str) : option str :=
  match s with
  | [] => None
  | c :: r =>
      if (c =? 125)%N then
        if inner then option_map (cons c) (match_object false r) else Some [c]
      else if (c =? 123)%N then
        if inner then None else option_map (cons c) (match_object true r)
      else option_map (cons c) (match_object inner r)
  end.

(** Line 68: [re.findall] of that pattern; a match is skipped over. *)
Fixpoint findall_objects_from (skip : nat) (s : str) : list str :=
  match s with
  | [] => []
  | c :: r =>
      match skip with
      | S k => findall_objects_from k r
      | O =>
          if (c =? 123)%N then
            match match_object false r with
            | Some m => (c :: m) :: findall_objects_from (length m) r
            | None => findall_objects_from 0 r
            end
          else findall_objects_from 0 r
      end
  end.

Definition findall_objects (s : str) : list str := findall_objects_from 0 s.

(** [return data] for a list, [return [data]] for a dict, and no
    [return] for anything else. *)
Definition returned_for (data : json) : option (list json) :=
  match data with
  | JArr items => Some items
  | JObj _ => Some [data]
  | _ => None
  end.

Definition loads_and_return (text : str) : option (list json) :=
  match loads text with
  | Some data => returned_for data
  | None => None
  end.

(** Strategy 2, the inner loop over the matches of one pattern. *)
Fixpoint try_matches (matches : list str) : option (list json) :=
  match matches with
  | [] => None
  | m :: rest =>
      match loads_and_return m with
      | Some items => Some items
      | None => try_matches rest
      end
  end.

Definition strategy2 (text : str) : option (list json) :=
  first_some (try_matches (findall_span 91%N 93%N text))
             (try_matches (findall_span 123%N 125%N text)).

(** Strategy 3, the text it leaves in [text]. *)
Definition strategy3_text (text : str) : str :=
  let text := drop_leading_junk text in
  let text := drop_trailing_junk text in
  let text := quote_keys text in
  let text := requote text in
  let text := drop_trailing_commas text in
  join_broken_strings text.

(** Strategy 4, the loop over the extracted objects. *)
Fixpoint collect_objects (objects : list str) (valid_objects : list json) : list json :=
  match objects with
  | [] => valid_objects
  | obj_str :: rest =>
      let fixed := strip obj_str in
      let fixed := quote_keys fixed in
      let fixed := requote fixed in
      let fixed := drop_trailing_commas fixed in
      match loads fixed with
      | Some obj => collect_objects rest (valid_objects ++ [obj])
      | None => collect_objects rest valid_objects
      end
  end.

Definition clean_json_response (response_text : str) : list json :=
  match strip response_text with
  | [] => []
  | _ =>
      let text := remove_fences response_text in
      let text := strip text in
      match loads_and_return text with
      | Some items => items
      | None =>
          match strategy2 text with
          | Some items => items
          | None =>
              let text := strategy3_text text in
              match loads_and_return text with
              | Some items => items
              | None => collect_objects (findall_objects text) []
              end
          end
      end
  end.

End Helper.

(* ===================================================================== *)
(** * [app/processors/content_generator.py] *)
(* ===================================================================== *)

Definition Qlt_bool (a b : Q) : bool := negb (Qle_bool b a).

Section ContentGenerator.

Variable env : Env.

(** ** Python truth values and [len] of decoded JSON *)

(** The digits of a float lexeme before its exponent. *)
Fixpoint mantissa (lexeme : str) : str :=
  match lexeme with
  | [] => []
  | c :: r => if ((c =? 101) || (c =? 69))%N then [] else c :: mantissa r
  end.

(** [float(lexeme) == 0.0], for a lexeme that does not underflow. *)
Definition float_is_zero (lexeme : str) : bool :=
  match lexeme with
  | 78%N :: _ | 73%N :: _ | 45%N :: 73%N :: _ => false
  | _ => forallb (fun c => negb (is_digit c) || (c =? 48)%N) (mantissa lexeme)
  end.

(** [bool(v)] *)
Definition truthy (v : json) : bool :=
  match v with
  | JNull => false
  | JBool b => b
  | JInt z => negb (z =? 0)%Z
  | JFloat l => negb (float_is_zero l)
  | JStr s => match s with [] => false | _ => true end
  | JArr l => match l with [] => false | _ => true end
  | JObj m => match m with [] => false | _ => true end
  end.

(** [bool(item.get(key))] *)
Definition truthy_opt (v : option json) : bool :=
  match v with
  | Some x => truthy x
  | None => false
  end.

(** [item.get(key)]; only a dict has the method. *)
Definition item_get (item : json) (key : str) : outcome (option json) :=
  match item with
  | JObj members => Ok (PyDict.get members key)
  | _ => Raise (lit "object has no attribute 'get'")
  end.

(** [len(v)] *)
Definition py_len (v : json) : outcome Z :=
  match v with
  | JStr s => Ok (len s)
  | JArr l => Ok (Z.of_nat (length l))
  | JObj m => Ok (Z.of_nat (length m))
  | _ => Raise (lit "object has no len()")
  end.

Definition bind_outcome {A B} (o : outcome A) (k : A -> outcome B) : outcome B :=
  match o with
  | Ok a => k a
  | Raise e => Raise e
  end.

(** The truth value of what [_validate_quiz_item] returns. *)
Definition _validate_quiz_item (item : json) : outcome bool :=
  bind_outcome (item_get item (lit "question")) (fun question =>
  if negb (truthy_opt question) then Ok false else
  bind_outcome (item_get item (lit "correct_answer")) (fun correct_answer =>
  if negb (truthy_opt correct_answer) then Ok false else
  bind_outcome (item_get item (lit "options")) (fun options =>
  if negb (truthy_opt options) then Ok false else
  bind_outcome (item_get item (lit "options")) (fun options' =>
  bind_outcome (match options' with
                | Some v => py_len v
                | None => Ok 0%Z
                end) (fun n =>
  Ok (2 <=? n)%Z))))).

(** The truth value of what [_validate_flashcard_item] returns. *)
Definition _validate_flashcard_item (item : json) : outcome bool :=
  bind_outcome (item_get item (lit "question")) (fun question =>
  if negb (truthy_opt question) then Ok false else
  bind_outcome (item_get item (lit "answer")) (fun answer =>
  Ok (truthy_opt answer))).

(** ** [generate_content] *)

Definition max_retries : nat := 3.
Definition base_delay : Q := 1.

(** ["429" in error_str or "rate" in error_str.lower()] *)
Definition is_rate_limit (error_str : str) : bool :=
  contains (lit "429") error_str || contains (lit "rate") (lower error_str).

Definition chat_messages (prompt content_type : str) : list message :=
  if PyStr.eqb content_type (lit "summary")
  then [(lit "user", prompt)]
  else [(lit "system",
         lit "You are an expert content creator. Respond with valid JSON only.");
        (lit "user", prompt)].

(** The body of the [try]; [None] is Python's [None]. *)
Definition attempt_body (prompt content_type : str) : M World (option str) :=
  let cache_key := _hash_content env prompt in
  w <- get_state ;;
  match PyDict.get (generation_cache w) cache_key with
  | Some cached => ret (Some cached)
  | None =>
      let messages := chat_messages prompt content_type in
      n <- now ;;
      emit (EvLlmCall messages) ;;;
      response <- lift_outcome (llm_chat env n messages) ;;
      match response with
      | Some r =>
          (if (negb (PyStr.eqb r []) && (50 <? len r)%Z)%bool then
             w' <- get_state ;;
             if (PyDict.size (generation_cache w') <? 1000)%Z
             then modify (set_generation_cache
                            (PyDict.set (generation_cache w') cache_key r))
             else ret tt
           else ret tt) ;;;
          ret response
      | None => ret response
      end
  end.

(** The [for attempt in range(max_retries + 1)] loop; [continue] is the
    recursive call, and falling out of the loop returns the empty string. *)
Fixpoint attempts_loop (attempts : list nat) (prompt content_type : str)
  : M World (option str) :=
  match attempts with
  | [] => ret (Some [])
  | attempt :: rest =>
      try_except (attempt_body prompt content_type)
        (fun e =>
           let error_str := e in
           if is_rate_limit error_str then
             if (attempt <? max_retries)%nat then
               n <- now ;;
               let delay := base_delay * inject_Z (2 ^ Z.of_nat attempt)
                            + clock_fraction env n in
               emit (EvSleep delay) ;;;
               attempts_loop rest prompt content_type
             else ret (Some [])
           else if (attempt <? max_retries)%nat then
             let delay := base_delay * (1 # 2) in
             emit (EvSleep delay) ;;;
             attempts_loop rest prompt content_type
           else ret (Some []))
  end.

Definition generate_content (prompt content_type : str) : M World (option str) :=
  attempts_loop (seq 0 (max_retries + 1)) prompt content_type.

(** ** [generate_json_items] *)

(** [[item for item in items if validator_func(item)]] *)
Fixpoint filter_valid (validator_func : json -> outcome bool) (items : list json)
  : outcome (list json) :=
  match items with
  | [] => Ok []
  | item :: rest =>
      bind_outcome (validator_func item) (fun keep =>
      bind_outcome (filter_valid validator_func rest) (fun rest' =>
      Ok (if keep then item :: rest' else rest')))
  end.

(** [with open("content_generator_response.txt", "a") as f: f.write(...)] *)
Definition append_response_log (prompt response : str) : M World unit :=
  n <- now ;;
  emit (EvFileAppend response) ;;;
  match fs_fault env n with
  | Some e => raise e
  | None => ret tt
  end.

Definition generate_json_items (prompt : str) (target_count : Z)
    (validator_func : option (json -> outcome bool)) : M World (list json) :=
  emit (EvGenerateItems prompt target_count) ;;;
  try_except
    (response <- generate_content prompt (lit "json") ;;
     match response with
     | None | Some [] => ret []
     | Some response =>
         match clean_json_response env response with
         | [] => ret []
         | items =>
             append_response_log prompt response ;;;
             items <- match validator_func with
                      | Some f => lift_outcome (filter_valid f items)
                      | None => ret items
                      end ;;
             ret (slice_to items target_count)
         end
     end)
    (fun _ => ret []).

(** ** [_generate_content_chunked] *)

Section Chunked.

Variables (prompt_template topic context : str) (target_count : Z).
Variable validator_func : option (json -> outcome bool).

(** The [for call_index in range(num_calls)] loop; [calls] iterations
    are left. *)
Fixpoint chunk_loop (calls : nat) (all_items : list json) (failed_calls : Z)
    (chunk_size : Z) : M World (list json) :=
  match calls with
  | O => ret all_items
  | S calls' =>
      let remaining := (target_count - Z.of_nat (length all_items))%Z in
      let current_chunk := Z.min chunk_size remaining in
      if (current_chunk <=? 0)%Z then ret all_items
      else
        prompt <- lift_outcome
          (str_format env prompt_template topic context current_chunk) ;;
        items <- generate_json_items prompt current_chunk validator_func ;;
        let '(all_items, failed_calls, chunk_size) :=
          match items with
          | _ :: _ => (all_items ++ items, failed_calls, chunk_size)
          | [] =>
              let failed_calls := (failed_calls + 1)%Z in
              if ((2 <=? failed_calls)%Z
                  && Qlt_bool (inject_Z (Z.of_nat (length all_items)))
                              (inject_Z target_count * (1 # 2)))%bool
              then (all_items, failed_calls, Z.max 1 (chunk_size / 2))
              else (all_items, failed_calls, chunk_size)
          end in
        if (target_count <=? Z.of_nat (length all_items))%Z then ret all_items
        else chunk_loop calls' all_items failed_calls chunk_size
  end.

Definition _generate_content_chunked (chunk_size : Z) (content_type : str)
  : M World (list json) :=
  if (chunk_size =? 0)%Z then raise (lit "integer division or modulo by zero")
  else
    let num_calls := ((target_count + chunk_size - 1) / chunk_size)%Z in
    all_items <- chunk_loop (Z.to_nat num_calls) [] 0%Z chunk_size ;;
    ret (slice_to all_items target_count).

End Chunked.

Definition generate_questions_chunked (prompt_template topic context : str)
    (target_count : Z) : M World (list json) :=
  _generate_content_chunked prompt_template topic context target_count
    (Some _validate_quiz_item) settings.generation.questions_per_chunk
    (lit "questions").

Definition generate_flashcards_chunked (prompt_template topic context : str)
    (target_count : Z) : M World (list json) :=
  _generate_content_chunked prompt_template topic context target_count
    (Some _validate_flashcard_item) settings.generation.flashcards_per_chunk
    (lit "flashcards").

End ContentGenerator.

(* ===================================================================== *)
(** * Vocabulary of the properties *)
(* ===================================================================== *)

(** Orders on position-tagged values. *)
Definition key_le (A : Type) (x y : nat * A) : Prop := (fst x <= fst y)%nat.
Definition key_lt (A : Type) (x y : nat * A) : Prop := (fst x < fst y)%nat.

Section Vocabulary.

Variable env : Env.

(** The texts of a batch that the cache does not hold. *)
Definition cache_misses (cache : PyDict.dict vector) (texts : list str) : list str :=
  filter (fun t => negb (PyDict.mem cache (_hash_content env t))) texts.

(** The output the specification asks of the Embedding Engine: walking the
    input in order, a cached text gets its cached vector and every other
    text gets the next vector the model returned. *)
Fixpoint merge_in_order (cache : PyDict.dict vector) (texts : list str)
    (news : list vector) : list vector :=
  match texts with
  | [] => []
  | t :: ts =>
      match SimpleCache.get cache (_hash_content env t) with
      | Some v => v :: merge_in_order cache ts news
      | None =>
          match news with
          | n :: ns => n :: merge_in_order cache ts ns
          | [] => merge_in_order cache ts []
          end
      end
  end.

(** The same walk with the input positions attached. *)
Fixpoint tagged_merge (cache : PyDict.dict vector) (k : nat) (texts : list str)
    (news : list vector) : list (nat * vector) :=
  match texts with
  | [] => []
  | t :: ts =>
      match SimpleCache.get cache (_hash_content env t) with
      | Some v => (k, v) :: tagged_merge cache (S k) ts news
      | None =>
          match news with
          | n :: ns => (k, n) :: tagged_merge cache (S k) ts ns
          | [] => tagged_merge cache (S k) ts []
          end
      end
  end.

(** The cached texts of a batch with their positions, counted from [k]. *)
Fixpoint hits_from (cache : PyDict.dict vector) (k : nat) (texts : list str)
  : list (nat * vector) :=
  match texts with
  | [] => []
  | t :: ts =>
      match SimpleCache.get cache (_hash_content env t) with
      | Some v => (k, v) :: hits_from cache (S k) ts
      | None => hits_from cache (S k) ts
      end
  end.

(** The positions of the texts that are not cached, counted from [k]. *)
Fixpoint miss_indices (cache : PyDict.dict vector) (k : nat) (texts : list str)
  : list nat :=
  match texts with
  | [] => []
  | t :: ts =>
      match SimpleCache.get cache (_hash_content env t) with
      | Some _ => miss_indices cache (S k) ts
      | None => k :: miss_indices cache (S k) ts
      end
  end.

End Vocabulary.

(** ** Ranking and context assembly *)

(** Descending order on the entries [similarity_search] returns. *)
Definition score_desc (a b : search_result) : Prop :=
  (similarity_score b <= similarity_score a)%Q.

(** Descending order on fetched rows, [NULL] first. *)
Definition rows_desc (a b : scored_row) : Prop := score_geb (snd a) (snd b) = true.

(** The stripped chunk texts, in ranked order. *)
Definition stripped_contents (results : list search_result) : list str :=
  map (fun r => strip (sr_content r)) results.

(** The characters a list of parts holds, separators not counted. *)
Definition total_length (parts : list str) : Z :=
  fold_right (fun p acc => (len p + acc)%Z) 0%Z parts.

(** The piece kept of a chunk that overflows a budget of which [used]
    characters are taken. *)
Definition truncated_part (max_context_length used : Z) (content : str) : str :=
  slice_to content (max_context_length - used - 3) ++ lit "...".

(** [max_context_length], or the configured default for [None]. *)
Definition effective_budget (max_context_length : option Z) : Z :=
  match max_context_length with
  | None => settings.rag.max_context_length
  | Some m => m
  end.

(** The Context Assembler in the words of the specification: a chunk that
    fits is added in full, and the first chunk that does not fit is
    truncated to the remaining budget and marked, whatever is left of the
    budget. *)
Fixpoint context_loop_as_specified (max_context_length : Z)
    (search_results : list search_result) (context_parts : list str)
    (current_length : Z) : list str :=
  match search_results with
  | [] => context_parts
  | result :: rest =>
      let content := strip (sr_content result) in
      if (current_length + len content <=? max_context_length)%Z then
        context_loop_as_specified max_context_length rest (context_parts ++ [content])
          (current_length + len content)
      else
        context_parts ++ [truncated_part max_context_length current_length content]
  end.

Definition get_relevant_context_as_specified (env : Env) (topic : str)
    (document_ids : option (list str)) (max_context_length : option Z) : M World str :=
  search_results <- similarity_search env topic document_ids settings.rag.retrieval_top_k ;;
  ret (join settings.vector.context_separator
         (context_loop_as_specified (effective_budget max_context_length)
            search_results [] 0)).

(** ** Sample environments and worlds *)

(** A well-behaved outside: hashing is the identity, the model embeds a
    text as its length, nothing fails, the LLM answers nothing. *)
Definition quiet_env : Env :=
  {| md5_hexdigest := fun s => s;
     model_encode := fun _ texts => Ok (map (fun t => [inject_Z (len t)]) texts);
     cosine_distance := fun a b =>
       match a, b with
       | x :: _, y :: _ =>
           if Qle_bool x y then (y - x) * (1 # 10) else (x - y) * (1 # 10)
       | _, _ => 1
       end;
     split_text := fun _ _ text => split_ws text;
     uuid4 := fun n i => lit "chunk-" ++ [N.of_nat (48 + i)];
     current_date_time := fun n => Z.of_nat n;
     db_fault := fun _ => None;
     llm_chat := fun _ _ => Ok None;
     clock_fraction := fun _ => 0;
     fs_fault := fun _ => None;
     str_format := fun template topic context target_count =>
       Ok (template ++ topic ++ context);
     unicode_isalnum := fun _ => false |}.

Definition empty_world : World :=
  {| embedding_cache := []; generation_cache := [];
     document_chunks := []; pending_chunks := []; trace := [] |}.

(** The embedding model is down. *)
Definition failing_model_env : Env :=
  {| md5_hexdigest := md5_hexdigest quiet_env;
     model_encode := fun _ _ => Raise (lit "CUDA out of memory");
     cosine_distance := cosine_distance quiet_env;
     split_text := split_text quiet_env;
     uuid4 := uuid4 quiet_env;
     current_date_time := current_date_time quiet_env;
     db_fault := db_fault quiet_env;
     llm_chat := llm_chat quiet_env;
     clock_fraction := clock_fraction quiet_env;
     fs_fault := fs_fault quiet_env;
     str_format := str_format quiet_env;
     unicode_isalnum := unicode_isalnum quiet_env |}.

(** The database is down. *)
Definition db_down_env : Env :=
  {| md5_hexdigest := md5_hexdigest quiet_env;
     model_encode := model_encode quiet_env;
     cosine_distance := cosine_distance quiet_env;
     split_text := split_text quiet_env;
     uuid4 := uuid4 quiet_env;
     current_date_time := current_date_time quiet_env;
     db_fault := fun _ => Some (lit "connection refused");
     llm_chat := llm_chat quiet_env;
     clock_fraction := clock_fraction quiet_env;
     fs_fault := fs_fault quiet_env;
     str_format := str_format quiet_env;
     unicode_isalnum := unicode_isalnum quiet_env |}.

(** A stored chunk of document [doc] holding [n] copies of [c], embedded
    as [[x]]. *)
Definition sample_chunk (i : nat) (c : char) (n : nat) (x : Q) : DocumentChunk :=
  {| id := lit "chunk-" ++ [N.of_nat (48 + i)];
     document_id := lit "doc";
     chunk_index := Z.of_nat i;
     content := repeat c n;
     word_count := 1;
     embedding := Some [x];
     extra_metadata := None;
     created_at := Some 0%Z |}.

Definition world_with_chunks (rows : list DocumentChunk) : World :=
  {| embedding_cache := []; generation_cache := [];
     document_chunks := rows; pending_chunks := []; trace := [] |}.

(** Two chunks about a five-letter topic: 2950 characters, then 100. *)
Definition two_chunk_world : World :=
  world_with_chunks [sample_chunk 0 97%N 2950 5; sample_chunk 1 98%N 100 6].

(** Eight chunks of 375 characters each. *)
Definition eight_chunk_world : World :=
  world_with_chunks
    (map (fun i => sample_chunk i (N.of_nat (97 + i)) 375 (5 + inject_Z (Z.of_nat i) * (1 # 10)))
         (seq 0 8)).

(** ** Chunk identity *)

(** Two chunk records that agree on everything but the time stamp the
    database fills in. *)
Definition same_chunk (a b : DocumentChunk) : Prop :=
  id a = id b /\ document_id a = document_id b /\ chunk_index a = chunk_index b
  /\ content a = content b /\ word_count a = word_count b
  /\ embedding a = embedding b /\ extra_metadata a = extra_metadata b.

(** The rows of a document that the session sees. *)
Definition chunks_of (doc : str) (w : World) : list DocumentChunk :=
  filter (has_document_id doc) (visible_chunks w).

(** ** Counting what generation did *)

(** The calls to the LLM endpoint in a stretch of the trace. *)
Fixpoint llm_calls (t : list event) : nat :=
  match t with
  | [] => 0
  | EvLlmCall _ :: t' => S (llm_calls t')
  | _ :: t' => llm_calls t'
  end.

(** The delays slept in a stretch of the trace, oldest first. *)
Fixpoint sleeps (t : list event) : list Q :=
  match t with
  | [] => []
  | EvSleep d :: t' => d :: sleeps t'
  | _ :: t' => sleeps t'
  end.

(** The item counts asked of [generate_json_items], call after call. *)
Fixpoint generate_calls (t : list event) : list Z :=
  match t with
  | [] => []
  | EvGenerateItems _ n :: t' => n :: generate_calls t'
  | _ :: t' => generate_calls t'
  end.

(** The delay before the next attempt: exponential backoff with jitter
    after a rate-limit-shaped error, half the base delay after any other. *)
Definition retry_delay (env : Env) (attempt n : nat) (error_str : str) : Q :=
  if is_rate_limit error_str
  then base_delay * inject_Z (2 ^ Z.of_nat attempt) + clock_fraction env n
  else base_delay * (1 # 2).

(** What [generate_content] may add to the trace: calls with the messages
    of its prompt, and retry delays of attempts that have a successor. *)
Definition generation_event (env : Env) (prompt content_type : str) (ev : event) : Prop :=
  match ev with
  | EvLlmCall messages => messages = chat_messages prompt content_type
  | EvSleep delay =>
      exists attempt n error_str,
        (attempt < max_retries)%nat /\ delay = retry_delay env attempt n error_str
  | _ => False
  end.

(** The LLM endpoint answers every request with the same error. *)
Definition failing_llm_env (error_str : str) : Env :=
  {| md5_hexdigest := md5_hexdigest quiet_env;
     model_encode := model_encode quiet_env;
     cosine_distance := cosine_distance quiet_env;
     split_text := split_text quiet_env;
     uuid4 := uuid4 quiet_env;
     current_date_time := current_date_time quiet_env;
     db_fault := db_fault quiet_env;
     llm_chat := fun _ _ => Raise error_str;
     clock_fraction := fun _ => 1 # 4;
     fs_fault := fs_fault quiet_env;
     str_format := str_format quiet_env;
     unicode_isalnum := unicode_isalnum quiet_env |}.

(** The LLM endpoint answers every request with the same text. *)
Definition constant_llm_env (response : str) : Env :=
  {| md5_hexdigest := md5_hexdigest quiet_env;
     model_encode := model_encode quiet_env;
     cosine_distance := cosine_distance quiet_env;
     split_text := split_text quiet_env;
     uuid4 := uuid4 quiet_env;
     current_date_time := current_date_time quiet_env;
     db_fault := db_fault quiet_env;
     llm_chat := fun _ _ => Ok (Some response);
     clock_fraction := clock_fraction quiet_env;
     fs_fault := fs_fault quiet_env;
     str_format := str_format quiet_env;
     unicode_isalnum := unicode_isalnum quiet_env |}.

(** ** Sample LLM answers *)

(** A double quote, and a text in double quotes. *)
Definition dq : str := [34%N].
Definition quoted (s : string) : str := dq ++ lit s ++ dq.
Arguments quoted s%_string.

(** One flashcard object. *)
Definition flashcard_json (question answer : string) : str :=
  lit "{" ++ quoted "question" ++ lit ": " ++ quoted question ++ lit ", "
  ++ quoted "answer" ++ lit ": " ++ quoted answer ++ lit "}".

(** An array of three valid flashcards. *)
Definition three_flashcards_json : str :=
  lit "[" ++ flashcard_json "What is a chunk?" "A piece of text"
  ++ lit ", " ++ flashcard_json "What is an embedding?" "A vector"
  ++ lit ", " ++ flashcard_json "What is a context?" "Joined chunks"
  ++ lit "]".

(** A refusal, with nothing that looks like JSON in it. *)
Definition refusal_text : str := lit "I cannot help with that.".

(** The number of calls the loop allows itself. *)
Definition num_calls (target_count chunk_size : Z) : Z :=
  (target_count + chunk_size - 1) / chunk_size.

(** ** Shapes of LLM answers *)

(** A text of whitespace only. *)
Definition all_space (s : str) : Prop := Forall (fun c => isspace c = true) s.

(** The marker of a code fence. *)
Definition fence : str := lit "```".

(** The value of a flashcard object. *)
Definition flashcard_value (question answer : string) : json :=
  JObj [(lit "question", JStr (lit question)); (lit "answer", JStr (lit answer))].
Arguments flashcard_value (question answer)%_string.

(** An array in a code fence, with line feeds where an LLM puts them. *)
Definition fenced_flashcards : str :=
  lit "```json" ++ [10%N] ++ three_flashcards_json ++ [10%N] ++ lit "```" ++ [10%N].

(** An array with single-quoted strings and trailing commas. *)
Definition single_quoted_flashcard : str :=
  lit "[{'question': 'What?', 'answer': 'X',},]".

(** Free text around an object. *)
Definition wrapped_flashcard : str :=
  lit "Here is the result: " ++ flashcard_json "What?" "X" ++ lit " Thanks!".

(** A quiz object; it holds an array. *)
Definition quiz_item_json : str :=
  lit "{" ++ quoted "question" ++ lit ": " ++ quoted "Q" ++ lit ", "
  ++ quoted "options" ++ lit ": [" ++ quoted "A" ++ lit ", " ++ quoted "B" ++ lit "]}".

(** Free text around that object. *)
Definition wrapped_quiz_item : str := lit "Here you go: " ++ quiz_item_json.

(** The value of that object. *)
Definition quiz_item_value : json :=
  JObj [(lit "question", JStr (lit "Q"));
        (lit "options", JArr [JStr (lit "A"); JStr (lit "B")])].

(** A question or an answer that needs no escaping and that the repairs
    of Strategy 3 leave alone: no control character, no quote, no
    backslash, no colon, no closing bracket, no backquote. *)
Definition plain_char (c : char) : bool :=
  ((32 <=? c) && negb ((c =? 34) || (c =? 39) || (c =? 58) || (c =? 92)
                       || (c =? 93) || (c =? 96) || (c =? 125)))%N.

Definition plain (s : str) : Prop := Forall (fun c => plain_char c = true) s.

Definition plain_card (qa : str * str) : Prop := plain (fst qa) /\ plain (snd qa).

(** A flashcard the way a careless model writes it: single quotes, a
    comma after the last member and a comma after the object. *)
Definition single_quoted_card (qa : str * str) : str :=
  lit "{'question': '" ++ fst qa ++ lit "', 'answer': '" ++ snd qa ++ lit "',},".

Definition single_quoted_array (cards : list (str * str)) : str :=
  lit "[" ++ concat (map single_quoted_card cards) ++ lit "]".

(** The value of a flashcard. *)
Definition flashcard_of (qa : str * str) : json :=
  JObj [(lit "question", JStr (fst qa)); (lit "answer", JStr (snd qa))].

(** The card once its quotes are double ones. *)
Definition requoted_card (qa : str * str) : str :=
  lit "{" ++ quoted "question" ++ lit ": " ++ dq ++ fst qa ++ dq ++ lit ", "
  ++ quoted "answer" ++ lit ": " ++ dq ++ snd qa ++ dq ++ lit ",},".

(** The card once its commas are repaired, and the array of such cards. *)
Definition repaired_card (qa : str * str) : str :=
  lit "{" ++ quoted "question" ++ lit ": " ++ dq ++ fst qa ++ dq ++ lit ", "
  ++ quoted "answer" ++ lit ": " ++ dq ++ snd qa ++ dq ++ lit "}".

Fixpoint repaired_tail (cards : list (str * str)) : str :=
  match cards with
  | [] => lit "]"
  | qa :: rest => lit "," ++ repaired_card qa ++ repaired_tail rest
  end.

Definition repaired_array (cards : list (str * str)) : str :=
  lit "[" ++
  match cards with
  | [] => lit "]"
  | qa :: rest => repaired_card qa ++ repaired_tail rest
  end.

(** What a pending comma leaves when no closing bracket follows it. *)
Definition pending_comma (pending : option str) : str :=
  match pending with
  | None => []
  | Some ws => 44%N :: rev ws
  end.

(** An array whose one string holds a fence marker. *)
Definition fence_in_string : str := lit "[" ++ dq ++ lit "a```b" ++ dq ++ lit "]".

(** A single-quoted card whose question holds a colon after a word. *)
Definition single_quoted_colon : str :=
  single_quoted_array [(lit "Q: what?", lit "X")].

(** ** The embedding cache *)

(** The cache once the pairs of texts and vectors are stored in it, as
    long as nothing is evicted. *)
Definition cache_after (env : Env) (cache : PyDict.dict vector)
    (pairs : list (str * vector)) : PyDict.dict vector :=
  fold_left (fun c p => PyDict.set c (_hash_content env (fst p)) (snd p)) pairs cache.

(** ** Search results and the rows they come from *)

(** The entry [similarity_search] builds from a row and its score. *)
Definition result_of_row (r : search_result) (row : DocumentChunk) (score : Q) : Prop :=
  sr_id r = id row /\ sr_document_id r = document_id row
  /\ sr_chunk_index r = chunk_index row /\ sr_content r = content row
  /\ sr_word_count r = word_count row /\ sr_extra_metadata r = extra_metadata row
  /\ similarity_score r = score.

(** ** Items the question service can store *)

(** A quiz item as [_generate_questions] reads it: a dict with a question,
    a correct answer and options that are true in the sense of Python, the
    options having a length of at least two. *)
Definition usable_quiz_item (item : json) : Prop :=
  exists members question correct_answer options n,
    item = JObj members
    /\ PyDict.get members (lit "question") = Some question
    /\ truthy question = true
    /\ PyDict.get members (lit "correct_answer") = Some correct_answer
    /\ truthy correct_answer = true
    /\ PyDict.get members (lit "options") = Some options
    /\ truthy options = true
    /\ py_len options = Ok n /\ (2 <= n)%Z.

(** A flashcard as [_generate_flashcards] reads it. *)
Definition usable_flashcard_item (item : json) : Prop :=
  exists members question answer,
    item = JObj members
    /\ PyDict.get members (lit "question") = Some question
    /\ truthy question = true
    /\ PyDict.get members (lit "answer") = Some answer
    /\ truthy answer = true.

(* ===================================================================== *)
(** * Cache maintenance: [get_cache_stats], [cleanup_cache], [clear_cache] *)
(* ===================================================================== *)

(** [settings.rag.embedding_model_name], the model of the module-level
    [vector_processor]. *)
Definition embedding_model_name : str :=
  lit "sentence-transformers/paraphrase-multilingual-MiniLM-L12-v2".

(** The dict [get_cache_stats] returns. *)
Record cache_stats := {
  cache_size : Z;
  max_cache_size : Z;
  model_name : str
}.

(** [VectorProcessor.get_cache_stats] *)
Definition get_cache_stats : M World cache_stats :=
  w <- get_state ;;
  ret {| cache_size := PyDict.size (embedding_cache w);
         max_cache_size := settings.vector.max_cache_size;
         model_name := embedding_model_name |}.

(** [VectorProcessor.cleanup_cache] *)
Definition cleanup_cache : M World Z :=
  w <- get_state ;;
  let cache_size := PyDict.size (embedding_cache w) in
  modify (fun w => set_embedding_cache (SimpleCache.clear (embedding_cache w)) w) ;;;
  ret cache_size.

(** [ContentGenerator.clear_cache] *)
Definition clear_cache : M World Z :=
  w <- get_state ;;
  let cache_size := PyDict.size (generation_cache w) in
  modify (set_generation_cache []) ;;;
  ret cache_size.

(* ===================================================================== *)
(** * Properties *)
(* ===================================================================== *)

(** ** Strings and dictionaries *)

Lemma str_eqb_eq (a b : str) : PyStr.eqb a b = true <-> a = b.
Proof.
  unfold PyStr.eqb. destruct (list_eq_dec N.eq_dec a b); split; congruence.
Qed.

Lemma str_eqb_refl (a : str) : PyStr.eqb a a = true.
Proof. now apply str_eqb_eq. Qed.

(** ** The stable sort on positions *)

Section SortByKey.

Variable A : Type.

Lemma insert_by_key_perm (x : nat * A) l :
  Permutation (insert_by_key x l) (x :: l).
Proof.
  induction l as [|y l IH]; simpl.
  - apply Permutation_refl.
  - destruct (fst x <=? fst y)%nat.
    + apply Permutation_refl.
    + eapply Permutation_trans; [apply perm_skip, IH | apply perm_swap].
Qed.

Lemma sort_by_key_perm (l : list (nat * A)) : Permutation (sort_by_key l) l.
Proof.
  induction l as [|x l IH]; simpl.
  - apply Permutation_refl.
  - eapply Permutation_trans; [apply insert_by_key_perm | apply perm_skip, IH].
Qed.

Lemma insert_by_key_sorted (x : nat * A) l :
  StronglySorted (@key_le A) l -> StronglySorted (@key_le A) (insert_by_key x l).
Proof.
  induction 1 as [|y l Hs IH Hall]; simpl.
  - constructor; constructor.
  - destruct (fst x <=? fst y)%nat eqn:E.
    + apply Nat.leb_le in E. constructor.
      * constructor; assumption.
      * constructor; [exact E|].
        eapply Forall_impl; [|exact Hall].
        intros z Hz. unfold key_le in *. lia.
    + apply Nat.leb_gt in E. constructor; [exact IH|].
      eapply Permutation_Forall.
      * apply Permutation_sym, insert_by_key_perm.
      * constructor; [unfold key_le; lia | exact Hall].
Qed.

Lemma sort_by_key_sorted (l : list (nat * A)) : StronglySorted (@key_le A) (sort_by_key l).
Proof.
  induction l as [|x l IH]; simpl.
  - constructor.
  - apply insert_by_key_sorted, IH.
Qed.

(** A list sorted on pairwise distinct positions is the only sorted
    arrangement of its elements. *)
Lemma sorted_arrangement_unique (l1 l2 : list (nat * A)) :
  StronglySorted (@key_le A) l1 -> StronglySorted (@key_lt A) l2 -> Permutation l1 l2 ->
  l1 = l2.
Proof.
  intros H1. revert l2. induction H1 as [|a l1 Hs1 IH Ha]; intros l2 H2 HP.
  - apply Permutation_nil in HP. now subst.
  - destruct H2 as [|b l2 Hs2 Hb].
    + apply Permutation_sym, Permutation_nil in HP. discriminate.
    + assert (a = b) as ->.
      { assert (In a (b :: l2)) as Hina
          by (eapply Permutation_in; [exact HP | now left]).
        assert (In b (a :: l1)) as Hinb
          by (eapply Permutation_in; [apply Permutation_sym; exact HP | now left]).
        destruct Hina as [<-|Hina]; [reflexivity|].
        destruct Hinb as [->|Hinb]; [reflexivity|].
        rewrite Forall_forall in Ha, Hb.
        specialize (Ha _ Hinb). specialize (Hb _ Hina).
        unfold key_le, key_lt in *. lia. }
      f_equal. apply IH; [exact Hs2|].
      eapply Permutation_cons_inv; exact HP.
Qed.

Lemma sort_by_key_unique (l l' : list (nat * A)) :
  StronglySorted (@key_lt A) l' -> Permutation l l' -> sort_by_key l = l'.
Proof.
  intros Hs HP. apply sorted_arrangement_unique.
  - apply sort_by_key_sorted.
  - exact Hs.
  - eapply Permutation_trans; [apply sort_by_key_perm | exact HP].
Qed.

End SortByKey.

(** ** [create_embeddings] *)

Section CreateEmbeddings.

Variable env : Env.

Lemma combine_nil_r (A B : Type) (l : list A) : combine l (@nil B) = [].
Proof. now destruct l. Qed.

Lemma lookup_loop_spec cache texts : forall k embeddings texts_to_embed text_indices,
  lookup_loop env cache (combine (seq k (length texts)) texts)
    embeddings texts_to_embed text_indices
  = (embeddings ++ hits_from env cache k texts,
     texts_to_embed ++ cache_misses env cache texts,
     text_indices ++ miss_indices env cache k texts).
Proof.
  induction texts as [|t ts IH]; intros k E T I; simpl.
  - now rewrite !app_nil_r.
  - unfold cache_misses, PyDict.mem, SimpleCache.get in *. simpl.
    destruct (PyDict.get cache (_hash_content env t)) eqn:Hget; simpl.
    + rewrite IH. now rewrite <- app_assoc.
    + rewrite IH. now rewrite <- !app_assoc.
Qed.

Lemma miss_indices_length cache texts : forall k,
  length (miss_indices env cache k texts) = length (cache_misses env cache texts).
Proof.
  induction texts as [|t ts IH]; intros k; simpl; [reflexivity|].
  unfold cache_misses, PyDict.mem, SimpleCache.get in *. simpl.
  destruct (PyDict.get cache (_hash_content env t)); simpl; now rewrite IH.
Qed.

Lemma tagged_merge_perm cache texts : forall k news,
  Permutation (hits_from env cache k texts ++ combine (miss_indices env cache k texts) news)
              (tagged_merge env cache k texts news).
Proof.
  induction texts as [|t ts IH]; intros k news; simpl.
  - apply Permutation_refl.
  - destruct (SimpleCache.get cache (_hash_content env t)); simpl.
    + apply perm_skip, IH.
    + destruct news as [|n ns].
      * specialize (IH (S k) []). now rewrite combine_nil_r in IH.
      * apply Permutation_sym. eapply Permutation_trans.
        -- apply perm_skip, Permutation_sym, IH.
        -- apply Permutation_middle.
Qed.

Lemma tagged_merge_keys cache texts : forall k news,
  Forall (fun p => (k <= fst p)%nat) (tagged_merge env cache k texts news).
Proof.
  induction texts as [|t ts IH]; intros k news; simpl; [constructor|].
  assert (forall ns, Forall (fun p : nat * vector => (k <= fst p)%nat)
                       (tagged_merge env cache (S k) ts ns)) as Hrest.
  { intros ns. eapply Forall_impl; [|apply IH]. simpl. intros; lia. }
  destruct (SimpleCache.get cache (_hash_content env t)).
  - constructor; [simpl; lia | apply Hrest].
  - destruct news; [apply Hrest | constructor; [simpl; lia | apply Hrest]].
Qed.

Lemma tagged_merge_sorted cache texts : forall k news,
  StronglySorted (@key_lt vector) (tagged_merge env cache k texts news).
Proof.
  induction texts as [|t ts IH]; intros k news; simpl; [constructor|].
  assert (forall v ns, StronglySorted (@key_lt vector)
                         ((k, v) :: tagged_merge env cache (S k) ts ns)) as Hcons.
  { intros v ns. constructor; [apply IH|].
    eapply Forall_impl; [|apply tagged_merge_keys]. unfold key_lt. simpl. intros; lia. }
  destruct (SimpleCache.get cache (_hash_content env t)).
  - apply Hcons.
  - destruct news; [apply IH | apply Hcons].
Qed.

Lemma tagged_merge_values cache texts : forall k news,
  map snd (tagged_merge env cache k texts news) = merge_in_order env cache texts news.
Proof.
  induction texts as [|t ts IH]; intros k news; simpl; [reflexivity|].
  destruct (SimpleCache.get cache (_hash_content env t)); simpl.
  - now rewrite IH.
  - destruct news; simpl; now rewrite IH.
Qed.

(** The sort puts the hits and the new vectors back at their positions. *)
Lemma sorted_embeddings cache texts news :
  map snd (sort_by_key (hits_from env cache 0 texts
                        ++ combine (miss_indices env cache 0 texts) news))
  = merge_in_order env cache texts news.
Proof.
  rewrite (sort_by_key_unique (tagged_merge_sorted cache texts 0 news)
                              (tagged_merge_perm cache texts 0 news)).
  apply tagged_merge_values.
Qed.

Lemma cache_misses_cons cache t ts :
  cache_misses env cache (t :: ts)
  = match SimpleCache.get cache (_hash_content env t) with
    | Some _ => cache_misses env cache ts
    | None => t :: cache_misses env cache ts
    end.
Proof.
  unfold cache_misses, PyDict.mem, SimpleCache.get. simpl.
  now destruct (PyDict.get cache (_hash_content env t)).
Qed.

Lemma merge_in_order_length cache texts : forall news,
  length news = length (cache_misses env cache texts) ->
  length (merge_in_order env cache texts news) = length texts.
Proof.
  induction texts as [|t ts IH]; intros news Hlen; simpl; [reflexivity|].
  rewrite cache_misses_cons in Hlen.
  destruct (SimpleCache.get cache (_hash_content env t)); simpl in *.
  - now rewrite IH.
  - destruct news as [|n ns]; [discriminate|]. simpl in *.
    rewrite IH; [reflexivity|]. now injection Hlen.
Qed.

(** A full cache is never empty, so [SimpleCache.set] does not raise. *)
Lemma SimpleCache_set_ok cache key value :
  exists cache', SimpleCache.set settings.vector.max_cache_size cache key value = Ok cache'.
Proof.
  unfold SimpleCache.set.
  destruct (settings.vector.max_cache_size <=? PyDict.size cache)%Z eqn:E; [|eauto].
  destruct cache; [|eauto].
  apply Z.leb_le in E. unfold settings.vector.max_cache_size, PyDict.size in E.
  simpl in E. lia.
Qed.

(** The cache update loop only touches the cache. *)
Lemma update_loop_ok pairs : forall w,
  exists cache',
    update_loop env pairs w = (Ok tt, set_embedding_cache cache' w).
Proof.
  induction pairs as [|[text emb] rest IH]; intros w; simpl.
  - exists (embedding_cache w). unfold ret. now destruct w.
  - unfold bind, get_state, lift_outcome, modify.
    destruct (SimpleCache_set_ok (embedding_cache w) (_hash_content env text) emb)
      as [c Hc].
    rewrite Hc.
    destruct (IH (set_embedding_cache c w)) as [c' Hc'].
    rewrite Hc'. exists c'. reflexivity.
Qed.

Lemma merge_in_order_nth cache texts : forall news i t,
  length news = length (cache_misses env cache texts) ->
  nth_error texts i = Some t ->
  nth_error (merge_in_order env cache texts news) i
  = match SimpleCache.get cache (_hash_content env t) with
    | Some v => Some v
    | None => nth_error news (length (cache_misses env cache (firstn i texts)))
    end.
Proof.
  induction texts as [|t0 ts IH]; intros news i t Hlen Hi.
  - destruct i; discriminate.
  - rewrite cache_misses_cons in Hlen.
    destruct i as [|i]; simpl in Hi.
    + injection Hi as ->. simpl.
      destruct (SimpleCache.get cache (_hash_content env t)) eqn:E; [reflexivity|].
      destruct news; [discriminate | reflexivity].
    + simpl firstn. rewrite cache_misses_cons. simpl.
      destruct (SimpleCache.get cache (_hash_content env t0)) eqn:E0; simpl.
      * now apply IH.
      * destruct news as [|n ns]; [discriminate|]. simpl.
        apply IH; [now injection Hlen | exact Hi].
Qed.

Lemma create_embeddings_run (w : World) texts news :
  (cache_misses env (embedding_cache w) texts <> [] ->
   model_encode env (length (trace w)) (cache_misses env (embedding_cache w) texts)
   = Ok news) ->
  length news = length (cache_misses env (embedding_cache w) texts) ->
  exists cache',
    create_embeddings env texts w
    = (Ok (merge_in_order env (embedding_cache w) texts news),
       match cache_misses env (embedding_cache w) texts with
       | [] => w
       | misses => set_embedding_cache cache' (log_event (EvEncode misses) w)
       end).
Proof.
  intros Henc Hlen. unfold create_embeddings, try_except.
  destruct texts as [|t ts] eqn:Et.
  - exists []. reflexivity.
  - rewrite <- Et in *. clear Et.
    unfold bind at 1. unfold get_state at 1. unfold enumerate.
    rewrite lookup_loop_spec. simpl app.
    destruct (cache_misses env (embedding_cache w) texts) as [|m ms] eqn:Em.
    + exists []. simpl in Hlen. destruct news; [|discriminate].
      unfold bind, ret. simpl.
      pose proof (sorted_embeddings (embedding_cache w) texts []) as Hs.
      rewrite combine_nil_r, app_nil_r in Hs. rewrite Hs. reflexivity.
    + assert (Hne : m :: ms <> []) by discriminate.
      specialize (Henc Hne).
      destruct (update_loop_ok (combine (m :: ms) news)
                  (log_event (EvEncode (m :: ms)) w)) as [c Hc].
      exists c.
      unfold bind, now, emit, modify, lift_outcome, ret.
      rewrite Henc. rewrite Hc.
      rewrite (sorted_embeddings (embedding_cache w) texts news).
      reflexivity.
Qed.

End CreateEmbeddings.



(** ** [similarity_search] *)

Lemma score_geb_total a b : score_geb a b = true \/ score_geb b a = true.
Proof.
  destruct a as [x|], b as [y|]; simpl; auto.
  destruct (Qle_bool y x) eqn:E; [auto|]. right.
  apply Qle_bool_iff. destruct (Qlt_le_dec x y) as [H|H].
  - now apply Qlt_le_weak.
  - apply Qle_bool_iff in H. congruence.
Qed.

Lemma score_geb_trans a b c :
  score_geb a b = true -> score_geb b c = true -> score_geb a c = true.
Proof.
  destruct a as [x|], b as [y|], c as [z|]; simpl; try congruence.
  rewrite !Qle_bool_iff. intros H1 H2. eapply Qle_trans; eassumption.
Qed.

Lemma insert_desc_perm x l : Permutation (insert_desc x l) (x :: l).
Proof.
  induction l as [|y l IH]; simpl.
  - apply Permutation_refl.
  - destruct (score_geb (snd x) (snd y)).
    + apply Permutation_refl.
    + eapply Permutation_trans; [apply perm_skip, IH | apply perm_swap].
Qed.

Lemma insert_desc_sorted x l :
  StronglySorted rows_desc l -> StronglySorted rows_desc (insert_desc x l).
Proof.
  induction 1 as [|y l Hs IH Hall]; simpl.
  - constructor; constructor.
  - destruct (score_geb (snd x) (snd y)) eqn:E.
    + constructor; [constructor; assumption|].
      constructor; [exact E|].
      eapply Forall_impl; [|exact Hall].
      intros z Hz. unfold rows_desc in *. eapply score_geb_trans; eassumption.
    + constructor; [exact IH|].
      eapply Permutation_Forall; [apply Permutation_sym, insert_desc_perm|].
      constructor; [|exact Hall].
      unfold rows_desc. destruct (score_geb_total (snd x) (snd y)); congruence.
Qed.

(** [ORDER BY similarity_score DESC] returns the rows in descending order. *)
Lemma order_by_score_desc_sorted l : StronglySorted rows_desc (order_by_score_desc l).
Proof.
  induction l as [|x l IH]; simpl; [constructor | now apply insert_desc_sorted].
Qed.

Lemma order_by_score_desc_perm l : Permutation (order_by_score_desc l) l.
Proof.
  induction l as [|x l IH]; simpl; [apply Permutation_refl|].
  eapply Permutation_trans; [apply insert_desc_perm | apply perm_skip, IH].
Qed.

Lemma firstn_In (A : Type) (l : list A) : forall n x, In x (firstn n l) -> In x l.
Proof.
  induction l as [|a l IH]; intros [|n] x H; simpl in *; try contradiction.
  destruct H as [->|H]; [now left | right; eapply IH; exact H].
Qed.

Lemma StronglySorted_firstn (A : Type) (R : A -> A -> Prop) (l : list A) : forall n,
  StronglySorted R l -> StronglySorted R (firstn n l).
Proof.
  intros n H. revert n. induction H as [|a l Hs IH Ha]; intros [|n]; simpl;
    try constructor.
  - apply IH.
  - rewrite Forall_forall in *. intros x Hx. apply Ha.
    eapply firstn_In; exact Hx.
Qed.

(** What the filtering loop keeps: its output extends the accumulator by
    entries at or above the threshold, each taken from a fetched row, in the
    order of the rows. *)
Lemma collect_results_spec rows : forall acc res,
  StronglySorted rows_desc rows ->
  collect_results rows acc = Ok res ->
  exists kept,
    res = acc ++ kept
    /\ (length kept <= length rows)%nat
    /\ Forall (fun r => (settings.rag.similarity_threshold <= similarity_score r)%Q) kept
    /\ Forall (fun r => exists row, In row rows /\ snd row = Some (similarity_score r)) kept
    /\ StronglySorted score_desc kept.
Proof.
  induction rows as [|[row [score|]] rows IH]; intros acc res Hs Hres; simpl in Hres.
  - injection Hres as <-. exists []. rewrite app_nil_r.
    repeat split; auto; constructor.
  - inversion Hs as [|? ? Hs' Hall]; subst.
    destruct (Qle_bool settings.rag.similarity_threshold score) eqn:E.
    + destruct (IH _ _ Hs' Hres) as (kept & -> & Hlen & Hthr & Hsrc & Hsorted).
      eexists (_ :: kept). rewrite <- app_assoc. simpl.
      split; [reflexivity|]. split; [simpl; lia|]. split.
      * constructor; [simpl; now apply Qle_bool_iff | exact Hthr].
      * split.
        -- constructor.
           ++ exists (row, Some score). split; [now left | reflexivity].
           ++ eapply Forall_impl; [|exact Hsrc].
              intros r (row' & Hin & Hrow'). exists row'. split; [now right | exact Hrow'].
        -- constructor; [exact Hsorted|].
           rewrite Forall_forall in *. intros r Hr.
           destruct (Hsrc r Hr) as (row' & Hin & Hrow').
           specialize (Hall _ Hin). unfold rows_desc in Hall. simpl in Hall.
           rewrite Hrow' in Hall. simpl in Hall.
           unfold score_desc. simpl. now apply Qle_bool_iff.
    + destruct (IH _ _ Hs' Hres) as (kept & -> & Hlen & Hthr & Hsrc & Hsorted).
      exists kept. split; [reflexivity|]. split; [simpl; lia|].
      split; [exact Hthr|]. split; [|exact Hsorted].
      eapply Forall_impl; [|exact Hsrc].
      intros r (row' & Hin & Hrow'). exists row'. split; [now right | exact Hrow'].
  - discriminate.
Qed.

Section SimilaritySearch.

Variable env : Env.

(** Either the search returns nothing, or it returns what the filtering
    loop kept of at most [top_k] rows in descending order. *)
Lemma similarity_search_cases query document_ids top_k w :
  exists res w',
    similarity_search env query document_ids top_k w = (Ok res, w')
    /\ (res = [] \/
        exists rows,
          StronglySorted rows_desc rows
          /\ (length rows <= Z.to_nat top_k)%nat
          /\ collect_results rows [] = Ok res).
Proof.
  unfold similarity_search, try_except, similarity_search_body.
  destruct (strip query) as [|c q'] eqn:Eq.
  - exists [], w. split; [reflexivity | now left].
  - unfold bind at 1.
    destruct (create_embeddings env [query] w) as [[embs|e] w1].
    2: { exists [], w1. split; [reflexivity | now left]. }
    destruct embs as [|qe embs'].
    { exists [], w1. split; [reflexivity | now left]. }
    unfold execute_similarity_query, db_statement, bind, now, emit, modify,
      get_state, lift_outcome, ret, raise.
    destruct (db_fault env (length (trace w1))) as [e|].
    { eexists [], _. split; [reflexivity | now left]. }
    destruct (top_k <? 0)%Z.
    { eexists [], _. split; [reflexivity | now left]. }
    match goal with
    | |- context [collect_results ?r []] => set (rows := r)
    end.
    destruct (collect_results rows []) as [res|e] eqn:Ec.
    + eexists res, _. split; [reflexivity|]. right. exists rows.
      split; [|split; [|exact Ec]].
      * apply StronglySorted_firstn, order_by_score_desc_sorted.
      * subst rows. rewrite length_firstn. lia.
    + eexists [], _. split; [reflexivity | now left].
Qed.

End SimilaritySearch.

(** The search returns normally, with at most [top_k] results. *)
Lemma similarity_search_returns
    (env : Env) (query : str) (document_ids : option (list str)) (top_k : Z)
    (w : World) :
  exists res w',
    similarity_search env query document_ids top_k w = (Ok res, w')
    /\ (length res <= Z.to_nat top_k)%nat.
Proof.
  destruct (similarity_search_cases env query document_ids top_k w)
    as (res & w' & Hrun & Hcases).
  exists res, w'. split; [exact Hrun|].
  destruct Hcases as [-> | (rows & Hsorted & Hlen & Hcollect)].
  - simpl. lia.
  - destruct (collect_results_spec [] Hsorted Hcollect) as (kept & -> & Hk & _).
    simpl. lia.
Qed.

(** ** [get_relevant_context] *)

Lemma total_length_app a b : total_length (a ++ b) = (total_length a + total_length b)%Z.
Proof.
  induction a as [|p a IH]; simpl; [reflexivity|]. rewrite IH. lia.
Qed.

Lemma total_length_nonneg parts : (0 <= total_length parts)%Z.
Proof.
  induction parts as [|p parts IH]; simpl; [lia|]. unfold len. lia.
Qed.

Lemma len_app (a b : str) : len (a ++ b) = (len a + len b)%Z.
Proof. unfold len. rewrite length_app. lia. Qed.

(** Joining adds one separator between neighbours and nothing else. *)
Lemma len_join sep parts :
  len (join sep parts)
  = (total_length parts + len sep * Z.max 0 (Z.of_nat (length parts) - 1))%Z.
Proof.
  induction parts as [|p parts IH]; [unfold len; simpl; lia|].
  destruct parts as [|p' parts].
  - simpl. unfold len. simpl. lia.
  - change (join sep (p :: p' :: parts)) with (p ++ sep ++ join sep (p' :: parts)).
    rewrite !len_app, IH.
    change (total_length (p :: p' :: parts))
      with (len p + total_length (p' :: parts))%Z.
    change (length (p :: p' :: parts)) with (S (length (p' :: parts))).
    change (length (p' :: parts)) with (S (length parts)).
    rewrite !Z.max_r by lia. rewrite !Nat2Z.inj_succ. ring.
Qed.

Lemma len_slice_to (s : str) k : (0 <= k)%Z -> (len (slice_to s k) <= k)%Z.
Proof.
  intros Hk. unfold slice_to, len.
  destruct (0 <=? k)%Z eqn:E; [|apply Z.leb_gt in E; lia].
  rewrite length_firstn. lia.
Qed.

Section ContextLoop.

Variable M : Z.

(** The parts never hold more characters than the budget. *)
Lemma context_loop_total results : forall parts cur,
  total_length parts = cur -> (cur <= M)%Z ->
  (total_length (context_loop M results parts cur) <= M)%Z.
Proof.
  induction results as [|r results IH]; intros parts cur Hparts Hcur; simpl.
  - lia.
  - destruct (cur + len (strip (sr_content r)) <=? M)%Z eqn:Efit.
    + apply Z.leb_le in Efit. apply IH; [|exact Efit].
      rewrite total_length_app. simpl. lia.
    + destruct (settings.vector.min_context_chars <? M - cur)%Z eqn:Eroom.
      * apply Z.ltb_lt in Eroom. unfold settings.vector.min_context_chars in Eroom.
        rewrite total_length_app. simpl. rewrite len_app.
        pose proof (@len_slice_to (strip (sr_content r)) (M - cur - 3)) as Hs.
        change (len (lit "...")) with 3%Z. lia.
      * lia.
Qed.

(** Every search result contributes at most one part. *)
Lemma context_loop_count results : forall parts cur,
  (length (context_loop M results parts cur) <= length parts + length results)%nat.
Proof.
  induction results as [|r results IH]; intros parts cur; simpl.
  - lia.
  - destruct (cur + len (strip (sr_content r)) <=? M)%Z.
    + specialize (IH (parts ++ [strip (sr_content r)])
                    (cur + len (strip (sr_content r)))%Z).
      rewrite length_app in IH. simpl in IH. lia.
    + destruct (settings.vector.min_context_chars <? M - cur)%Z.
      * rewrite length_app. simpl. lia.
      * lia.
Qed.

(** Chunks are taken in full while they fit; the first one that does not
    fit ends the loop, truncated if more than [min_context_chars] of the
    budget are left and dropped otherwise. *)
Lemma context_loop_overflow pre c post : forall parts cur,
  (cur + total_length (stripped_contents pre) <= M)%Z ->
  (M < cur + total_length (stripped_contents pre) + len (strip (sr_content c)))%Z ->
  context_loop M (pre ++ c :: post) parts cur
  = parts ++ stripped_contents pre ++
    (if (settings.vector.min_context_chars
         <? M - (cur + total_length (stripped_contents pre)))%Z
     then [truncated_part M (cur + total_length (stripped_contents pre))
             (strip (sr_content c))]
     else []).
Proof.
  induction pre as [|p pre IH]; intros parts cur Hfit Hover; simpl in *.
  - rewrite Z.add_0_r in *.
    destruct (cur + len (strip (sr_content c)) <=? M)%Z eqn:E;
      [apply Z.leb_le in E; lia|].
    unfold truncated_part.
    destruct (settings.vector.min_context_chars <? M - cur)%Z;
      [reflexivity | now rewrite app_nil_r].
  - pose proof (total_length_nonneg (stripped_contents pre)) as Hnn.
    destruct (cur + len (strip (sr_content p)) <=? M)%Z eqn:E;
      [|apply Z.leb_gt in E; lia].
    rewrite IH by lia. rewrite <- app_assoc. simpl.
    now rewrite !Z.add_assoc.
Qed.

(** When everything fits, everything is taken. *)
Lemma context_loop_all_fit results : forall parts cur,
  (cur + total_length (stripped_contents results) <= M)%Z ->
  context_loop M results parts cur = parts ++ stripped_contents results.
Proof.
  induction results as [|r results IH]; intros parts cur Hfit; simpl in *.
  - now rewrite app_nil_r.
  - pose proof (total_length_nonneg (stripped_contents results)) as Hnn.
    destruct (cur + len (strip (sr_content r)) <=? M)%Z eqn:E;
      [|apply Z.leb_gt in E; lia].
    rewrite IH by lia. now rewrite <- app_assoc.
Qed.

End ContextLoop.

Section GetRelevantContext.

Variable env : Env.

(** [get_relevant_context] joins what the loop keeps of the search
    results; its own [except] branch is never taken. *)
Lemma get_relevant_context_run topic document_ids max_context_length w :
  exists results w',
    similarity_search env topic document_ids settings.rag.retrieval_top_k w
    = (Ok results, w')
    /\ (length results <= 8)%nat
    /\ get_relevant_context_body env topic document_ids max_context_length w
       = (Ok (join settings.vector.context_separator
                (context_loop (effective_budget max_context_length) results [] 0)), w')
    /\ get_relevant_context env topic document_ids max_context_length w
       = (Ok (join settings.vector.context_separator
                (context_loop (effective_budget max_context_length) results [] 0)), w').
Proof.
  destruct (similarity_search_returns env topic document_ids
              settings.rag.retrieval_top_k w) as (results & w' & Hrun & Hlen).
  exists results, w'. split; [exact Hrun|]. split; [exact Hlen|].
  unfold get_relevant_context, try_except, get_relevant_context_body, bind.
  rewrite Hrun. destruct results; split; reflexivity.
Qed.

End GetRelevantContext.

(** C4. For every query, document id restriction and [top_k], every result
    [similarity_search] returns has a similarity score at or above the
    configured threshold, the results are in descending order of score, and
    there are at most [top_k] of them (possibly none). *)
Theorem similarity_search_threshold_and_order
    (env : Env) (query : str) (document_ids : option (list str)) (top_k : Z)
    (w : World) :
  exists res w',
    similarity_search env query document_ids top_k w = (Ok res, w')
    /\ Forall (fun r => (settings.rag.similarity_threshold <= similarity_score r)%Q) res
    /\ StronglySorted score_desc res
    /\ (length res <= Z.to_nat top_k)%nat.
Proof.
  destruct (similarity_search_cases env query document_ids top_k w)
    as (res & w' & Hrun & Hcases).
  exists res, w'. split; [exact Hrun|].
  destruct Hcases as [-> | (rows & Hsorted & Hlen & Hcollect)].
  - repeat split; try constructor. simpl. lia.
  - destruct (collect_results_spec [] Hsorted Hcollect)
      as (kept & -> & Hk & Hthr & _ & Hdesc).
    simpl. repeat split; try assumption. lia.
Qed.

(** The property is not vacuous: eight stored chunks, all above the
    threshold, come back in descending order. *)
Example similarity_search_returns_ranked_chunks :
  match fst (similarity_search quiet_env (lit "topic") None 8 eight_chunk_world) with
  | Ok res => map sr_chunk_index res = [0; 1; 2; 3; 4; 5; 6; 7]%Z
  | Raise _ => False
  end.
Proof. vm_compute. reflexivity. Qed.

(** C1, as amended. The context is empty when the search finds nothing.
    Otherwise the stripped chunks are joined in ranked order while they fit
    the budget; the first chunk that does not fit ends the accumulation,
    and it is kept, cut to the remaining budget and marked, only when more
    than [min_context_chars] characters of the budget are left. The chunk
    texts never exceed a non-negative budget; the separators come on top,
    two characters between neighbours, fourteen at most. *)
Theorem get_relevant_context_budget
    (env : Env) (topic : str) (document_ids : option (list str))
    (max_context_length : option Z) (w : World) :
  exists results w' context,
    similarity_search env topic document_ids settings.rag.retrieval_top_k w
    = (Ok results, w')
    /\ get_relevant_context env topic document_ids max_context_length w
       = (Ok context, w')
    /\ (results = [] -> context = [])
    /\ ((0 <= effective_budget max_context_length)%Z ->
        (len context <= effective_budget max_context_length
                        + 2 * Z.max 0 (Z.of_nat (length results) - 1))%Z
        /\ (len context <= effective_budget max_context_length + 14)%Z)
    /\ (forall pre c post,
          results = pre ++ c :: post ->
          (total_length (stripped_contents pre) <= effective_budget max_context_length)%Z ->
          (effective_budget max_context_length
           < total_length (stripped_contents pre) + len (strip (sr_content c)))%Z ->
          context
          = join settings.vector.context_separator
              (stripped_contents pre ++
               (if (settings.vector.min_context_chars
                    <? effective_budget max_context_length
                       - total_length (stripped_contents pre))%Z
                then [truncated_part (effective_budget max_context_length)
                        (total_length (stripped_contents pre)) (strip (sr_content c))]
                else [])))
    /\ ((total_length (stripped_contents results) <= effective_budget max_context_length)%Z ->
        context = join settings.vector.context_separator (stripped_contents results)).
Proof.
  destruct (get_relevant_context_run env topic document_ids max_context_length w)
    as (results & w' & Hsearch & Hlen & _ & Hrun).
  set (M := effective_budget max_context_length) in *.
  exists results, w', (join settings.vector.context_separator (context_loop M results [] 0)).
  split; [exact Hsearch|]. split; [exact Hrun|]. split; [|split; [|split]].
  - intros ->. reflexivity.
  - intros HM.
    pose proof (@context_loop_total M results [] 0%Z eq_refl HM) as Htotal.
    pose proof (context_loop_count M results [] 0%Z) as Hcount. simpl in Hcount.
    rewrite len_join. change (len settings.vector.context_separator) with 2%Z.
    lia.
  - intros pre c post -> Hfit Hover.
    rewrite (@context_loop_overflow M pre c post [] 0%Z) by (simpl; lia).
    reflexivity.
  - intros Hfit. rewrite context_loop_all_fit by (simpl; lia). reflexivity.
Qed.

(** The default budget of 3000 characters is respected up to the
    separators by the two-chunk world. *)
Lemma get_relevant_context_budget_witness :
  exists context w',
    get_relevant_context quiet_env (lit "topic") None None two_chunk_world
    = (Ok context, w')
    /\ (len context <= 3014)%Z.
Proof.
  destruct (@get_relevant_context_budget quiet_env (lit "topic") None None two_chunk_world)
    as (results & w' & context & _ & Hrun & _ & Hbound & _).
  exists context, w'. split; [exact Hrun|].
  apply Hbound. discriminate.
Defined.

(** C1 as stated fails: with the default budget of 3000 characters, a first
    chunk of 2950 characters leaves 50, the second chunk of 100 characters
    does not fit, and it is dropped, not truncated and marked. *)
Lemma context_overflow_chunk_is_dropped :
  fst (get_relevant_context quiet_env (lit "topic") None None two_chunk_world)
  = Ok (repeat 97%N 2950)
  /\ fst (get_relevant_context_as_specified quiet_env (lit "topic") None None
            two_chunk_world)
     = Ok (repeat 97%N 2950 ++ settings.vector.context_separator
           ++ repeat 98%N 47 ++ lit "...")
  /\ fst (get_relevant_context quiet_env (lit "topic") None None two_chunk_world)
     <> fst (get_relevant_context_as_specified quiet_env (lit "topic") None None
               two_chunk_world).
Proof.
  split; [vm_compute; reflexivity|]. split; [vm_compute; reflexivity|].
  intros H.
  apply (f_equal (fun o => match o with Ok s => length s | Raise _ => 0%nat end)) in H.
  vm_compute in H. discriminate.
Qed.

(** The separator overhead is reached: eight chunks of 375 characters fill
    the budget of 3000 exactly and the context has 3014 characters. *)
Example context_separator_overhead :
  match fst (get_relevant_context quiet_env (lit "topic") None None eight_chunk_world) with
  | Ok context => len context = 3014%Z
  | Raise _ => False
  end.
Proof. vm_compute. reflexivity. Qed.

(** ** Failures inside the retrieval path *)

Section RetrievalFailures.

Variable env : Env.

Lemma create_embeddings_model_failure query w e :
  SimpleCache.get (embedding_cache w) (_hash_content env query) = None ->
  model_encode env (length (trace w)) [query] = Raise e ->
  create_embeddings env [query] w = (Raise e, log_event (EvEncode [query]) w).
Proof.
  intros Hmiss Hmodel.
  unfold create_embeddings, try_except, bind, get_state, enumerate. simpl.
  rewrite Hmiss. simpl.
  unfold bind, now, emit, modify, lift_outcome, raise.
  rewrite Hmodel. reflexivity.
Qed.

Lemma similarity_search_model_failure query document_ids top_k w e :
  strip query <> [] ->
  SimpleCache.get (embedding_cache w) (_hash_content env query) = None ->
  model_encode env (length (trace w)) [query] = Raise e ->
  similarity_search env query document_ids top_k w
  = (Ok [], log_event (EvEncode [query]) w).
Proof.
  intros Hq Hmiss Hmodel.
  unfold similarity_search, try_except, similarity_search_body.
  destruct (strip query); [contradiction|].
  unfold bind. rewrite (create_embeddings_model_failure _ _ Hmiss Hmodel).
  reflexivity.
Qed.

Lemma similarity_search_db_failure query document_ids top_k w e embs w1 :
  strip query <> [] ->
  create_embeddings env [query] w = (Ok embs, w1) ->
  db_fault env (length (trace w1)) = Some e ->
  exists w', similarity_search env query document_ids top_k w = (Ok [], w').
Proof.
  intros Hq Hemb Hdb.
  unfold similarity_search, try_except, similarity_search_body.
  destruct (strip query); [contradiction|].
  unfold bind at 1. rewrite Hemb.
  destruct embs as [|qe embs']; [eexists; reflexivity|].
  unfold execute_similarity_query, db_statement, bind, now, emit, modify, raise.
  rewrite Hdb. eexists; reflexivity.
Qed.

End RetrievalFailures.

(** C10. [similarity_search] never raises: whatever its [try] block raises
    is turned into the empty list, in particular a failure of the embedding
    model and an error of the database. [get_relevant_context] never raises
    either, and it returns the empty string whenever the search returned
    the empty list, so a failed retrieval and an unsuccessful one look the
    same to the caller. *)
Theorem retrieval_failures_are_swallowed
    (env : Env) (query : str) (document_ids : option (list str)) (top_k : Z)
    (max_context_length : option Z) (w : World) :
  (exists res w', similarity_search env query document_ids top_k w = (Ok res, w'))
  /\ (forall e w1,
        similarity_search_body env query document_ids top_k w = (Raise e, w1) ->
        similarity_search env query document_ids top_k w = (Ok [], w1))
  /\ (forall e,
        strip query <> [] ->
        SimpleCache.get (embedding_cache w) (_hash_content env query) = None ->
        model_encode env (length (trace w)) [query] = Raise e ->
        similarity_search env query document_ids top_k w
        = (Ok [], log_event (EvEncode [query]) w))
  /\ (forall e embs w1,
        strip query <> [] ->
        create_embeddings env [query] w = (Ok embs, w1) ->
        db_fault env (length (trace w1)) = Some e ->
        exists w', similarity_search env query document_ids top_k w = (Ok [], w'))
  /\ (exists context w',
        get_relevant_context env query document_ids max_context_length w
        = (Ok context, w'))
  /\ (forall e w1,
        get_relevant_context_body env query document_ids max_context_length w
        = (Raise e, w1) ->
        get_relevant_context env query document_ids max_context_length w = (Ok [], w1))
  /\ (forall w1,
        similarity_search env query document_ids settings.rag.retrieval_top_k w
        = (Ok [], w1) ->
        get_relevant_context env query document_ids max_context_length w = (Ok [], w1)).
Proof.
  split; [|split; [|split; [|split; [|split; [|split]]]]].
  - destruct (similarity_search_returns env query document_ids top_k w)
      as (res & w' & Hrun & _). eauto.
  - intros e w1 H. unfold similarity_search, try_except. now rewrite H.
  - intros e. apply similarity_search_model_failure.
  - intros e embs w1. apply similarity_search_db_failure.
  - destruct (get_relevant_context_run env query document_ids max_context_length w)
      as (results & w' & _ & _ & _ & Hrun). eauto.
  - intros e w1 H. unfold get_relevant_context, try_except. now rewrite H.
  - intros w1 H.
    unfold get_relevant_context, try_except, get_relevant_context_body, bind.
    now rewrite H.
Qed.

(** With chunks stored that match the topic, a model that is down and a
    database that is down both end in the empty context. *)
Lemma retrieval_failures_are_swallowed_witness :
  similarity_search failing_model_env (lit "topic") None 8 two_chunk_world
  = (Ok [], log_event (EvEncode [lit "topic"]) two_chunk_world)
  /\ (exists w', similarity_search db_down_env (lit "topic") None 8 two_chunk_world
                 = (Ok [], w'))
  /\ fst (get_relevant_context failing_model_env (lit "topic") None None two_chunk_world)
     = Ok []
  /\ fst (get_relevant_context quiet_env (lit "topic") None None empty_world) = Ok [].
Proof.
  destruct (@retrieval_failures_are_swallowed failing_model_env (lit "topic") None 8 None
              two_chunk_world) as (_ & _ & Hmodel & _ & _ & _ & Hctx).
  destruct (@retrieval_failures_are_swallowed db_down_env (lit "topic") None 8 None
              two_chunk_world) as (_ & _ & _ & Hdb & _).
  assert (Hm : similarity_search failing_model_env (lit "topic") None 8 two_chunk_world
               = (Ok [], log_event (EvEncode [lit "topic"]) two_chunk_world)).
  { apply (Hmodel (lit "CUDA out of memory")); [discriminate | reflexivity | reflexivity]. }
  split; [exact Hm|]. split.
  - apply (Hdb (lit "connection refused") [[5]]
             (set_embedding_cache [(lit "topic", [5])]
                (log_event (EvEncode [lit "topic"]) two_chunk_world)));
      [discriminate | reflexivity | reflexivity].
  - split.
    + rewrite (Hctx _ Hm). reflexivity.
    + vm_compute. reflexivity.
Defined.

(** ** [chunk_and_embed_document] *)

Section ChunkAndEmbed.

Variable env : Env.

(** Embedding touches the cache and the trace, never the tables. *)
Lemma create_embeddings_tables texts w r w' :
  create_embeddings env texts w = (r, w') ->
  document_chunks w' = document_chunks w /\ pending_chunks w' = pending_chunks w.
Proof.
  unfold create_embeddings, try_except. destruct texts as [|t ts].
  - intros H. injection H as _ <-. auto.
  - unfold bind at 1. unfold get_state at 1.
    destruct (lookup_loop env (embedding_cache w) (enumerate (t :: ts)) [] [] [])
      as [[embeddings to_embed] indices].
    destruct to_embed as [|m ms].
    + intros H. injection H as _ <-. auto.
    + unfold bind, now, emit, modify, lift_outcome, raise, ret.
      destruct (model_encode env (length (trace w)) (m :: ms)) as [news|e].
      * destruct (update_loop_ok env (combine (m :: ms) news)
                    (log_event (EvEncode (m :: ms)) w)) as [c Hc].
        rewrite Hc. intros H. injection H as _ <-. auto.
      * intros H. injection H as _ <-. auto.
Qed.

Lemma has_document_id_new_chunk n doc item t :
  has_document_id doc (stored_row t (new_chunk env n doc item)) = true.
Proof.
  destruct item as [i [chunk_text emb]]. unfold has_document_id. simpl.
  apply str_eqb_refl.
Qed.

Lemma filter_all_true (A : Type) (f : A -> bool) (l : list A) :
  Forall (fun x => f x = true) l -> filter f l = l.
Proof.
  induction 1 as [|x l Hx Hl IH]; simpl; [reflexivity|]. now rewrite Hx, IH.
Qed.

Lemma same_chunk_refl c : same_chunk c c.
Proof. unfold same_chunk. repeat split. Qed.

Lemma same_chunk_stored t l : Forall2 same_chunk l (map (stored_row t) l).
Proof.
  induction l as [|c l IH]; simpl; constructor; [|exact IH].
  unfold same_chunk. simpl. repeat split.
Qed.

Lemma Forall2_same_chunk_refl l : Forall2 same_chunk l l.
Proof. induction l; constructor; [apply same_chunk_refl | assumption]. Qed.

(** *** One statement at a time *)

Lemma bind_ok (A B : Type) (m : M World A) (k : A -> M World B) w a w' :
  m w = (Ok a, w') -> bind m k w = k a w'.
Proof. unfold bind. now intros ->. Qed.

Lemma bind_raise (A B : Type) (m : M World A) (k : A -> M World B) w e w' :
  m w = (Raise e, w') -> bind m k w = (Raise e, w').
Proof. unfold bind. now intros ->. Qed.

Lemma trace_log_event ev w : length (trace (log_event ev w)) = S (length (trace w)).
Proof. simpl. rewrite length_app. simpl. lia. Qed.

Lemma chunks_of_log_event doc ev w : chunks_of doc (log_event ev w) = chunks_of doc w.
Proof. reflexivity. Qed.

Lemma db_statement_run ev w :
  db_statement env ev w
  = (match db_fault env (length (trace w)) with
     | Some e => Raise e
     | None => Ok tt
     end, log_event ev w).
Proof.
  unfold db_statement, bind, now, emit, modify, raise, ret.
  now destruct (db_fault env (length (trace w))).
Qed.

Lemma query_chunks_first_run doc w :
  query_chunks_first env doc w
  = (match db_fault env (length (trace w)) with
     | Some e => Raise e
     | None => Ok (hd_error (chunks_of doc w))
     end, log_event EvDbSelect w).
Proof.
  unfold query_chunks_first, bind. rewrite db_statement_run.
  now destruct (db_fault env (length (trace w))).
Qed.

Lemma query_chunks_all_run doc w :
  query_chunks_all env doc w
  = (match db_fault env (length (trace w)) with
     | Some e => Raise e
     | None => Ok (chunks_of doc w)
     end, log_event EvDbSelect w).
Proof.
  unfold query_chunks_all, bind. rewrite db_statement_run.
  now destruct (db_fault env (length (trace w))).
Qed.

Lemma bulk_insert_mappings_run rows w :
  bulk_insert_mappings env rows w
  = match db_fault env (length (trace w)) with
    | Some e => (Raise e, log_event (EvDbInsert rows) w)
    | None =>
        (Ok tt,
         set_tables (document_chunks w)
           (pending_chunks w
            ++ map (stored_row (current_date_time env (length (trace w)))) rows)
           (log_event (EvDbInsert rows) w))
    end.
Proof.
  unfold bulk_insert_mappings, bind, now, modify. rewrite db_statement_run.
  now destruct (db_fault env (length (trace w))).
Qed.

Lemma commit_run w :
  commit env w
  = match db_fault env (length (trace w)) with
    | Some e => (Raise e, log_event EvDbCommit w)
    | None =>
        (Ok tt,
         set_tables (document_chunks w ++ pending_chunks w) []
           (log_event EvDbCommit w))
    end.
Proof.
  unfold commit, bind, modify. rewrite db_statement_run.
  now destruct (db_fault env (length (trace w))).
Qed.

(** A handler that raises again lets only the results of the block out. *)
Lemma try_except_reraise (A : Type) (body : M World A) (cleanup : M World unit) w a w1 :
  try_except body (fun e => bind cleanup (fun _ => raise e)) w = (Ok a, w1) ->
  body w = (Ok a, w1).
Proof.
  unfold try_except, bind, raise.
  destruct (body w) as [[x|e] w']; [auto|].
  destruct (cleanup w') as [[[]|e'] w'']; discriminate.
Qed.

(** With chunks stored for the document and the database answering, the
    call reads them twice and does nothing else. *)
Lemma chunk_and_embed_existing doc text w :
  chunks_of doc w <> [] ->
  db_fault env (length (trace w)) = None ->
  db_fault env (S (length (trace w))) = None ->
  chunk_and_embed_document env doc text w
  = (Ok (chunks_of doc w), log_event EvDbSelect (log_event EvDbSelect w)).
Proof.
  intros Hex Hdb1 Hdb2.
  unfold chunk_and_embed_document, try_except.
  unfold bind at 1. rewrite query_chunks_first_run, Hdb1.
  destruct (chunks_of doc w) as [|c l] eqn:Ef; [contradiction|].
  cbn [hd_error].
  rewrite query_chunks_all_run, trace_log_event, Hdb2, chunks_of_log_event, Ef.
  reflexivity.
Qed.

(** What a successful call that returns chunks leaves in the database. *)
Lemma chunk_and_embed_result doc text w chunks w1 :
  chunk_and_embed_document env doc text w = (Ok chunks, w1) ->
  chunks <> [] ->
  Forall2 same_chunk chunks (chunks_of doc w1).
Proof.
  intros Hrun Hne. apply try_except_reraise in Hrun. revert Hrun.
  unfold bind at 1. rewrite query_chunks_first_run.
  destruct (db_fault env (length (trace w))) as [e|]; [discriminate|].
  destruct (chunks_of doc w) as [|x l] eqn:Ef; cbn [hd_error].
  - (* no chunks yet: the full pipeline ran *)
    destruct (setup_text_splitter (Z.of_nat (length (split_ws text))))
      as [chunk_size chunk_overlap].
    unfold bind at 1. unfold emit, modify.
    destruct (split_text env chunk_size chunk_overlap text) as [|ch chs] eqn:Esplit.
    { intros H. injection H as <- _. contradiction. }
    unfold bind at 1.
    destruct (create_embeddings env (ch :: chs) _) as [[embs|e] wa] eqn:Eemb;
      [|discriminate].
    destruct (negb (length embs =? length (ch :: chs))%nat); [discriminate|].
    apply create_embeddings_tables in Eemb. destruct Eemb as [Hd Hp].
    unfold bind at 1. unfold now at 1. unfold bind at 1.
    rewrite bulk_insert_mappings_run.
    destruct (db_fault env (length (trace wa))) as [e|]; [discriminate|].
    unfold bind at 1. rewrite commit_run.
    destruct (db_fault env _) as [e|]; [discriminate|].
    unfold ret. intros H. injection H as <- <-.
    unfold chunks_of, visible_chunks in *. simpl in *.
    rewrite Hd, Hp, app_nil_r. rewrite app_assoc, filter_app, Ef. simpl.
    rewrite filter_all_true.
    + apply same_chunk_stored.
    + apply Forall_forall. intros r Hr. apply in_map_iff in Hr.
      destruct Hr as (c0 & <- & Hc0). apply in_map_iff in Hc0.
      destruct Hc0 as (item & <- & _). apply has_document_id_new_chunk.
  - (* chunks exist: they are read and returned *)
    rewrite query_chunks_all_run.
    destruct (db_fault env _) as [e|]; [discriminate|].
    intros H. injection H as <- <-.
    rewrite !chunks_of_log_event, Ef. apply Forall2_same_chunk_refl.
Qed.

End ChunkAndEmbed.

(** C6. If chunks already exist for a document id, [chunk_and_embed_document]
    returns exactly those chunks and does nothing but read them: the world
    afterwards differs from the world before by two [SELECT]s in the trace
    (no split, no embedding call, no insertion; cache and tables are the
    same). Hence a second invocation after one that returned chunks, with
    whatever text, returns the rows the first one left in the database,
    which are the chunks the first one returned up to the time stamp of
    storage. The database is assumed to answer the two reads. *)
Theorem chunk_and_embed_document_idempotent (env : Env) (doc text : str) (w : World) :
  (chunks_of doc w <> [] ->
   db_fault env (length (trace w)) = None ->
   db_fault env (S (length (trace w))) = None ->
   chunk_and_embed_document env doc text w
   = (Ok (chunks_of doc w), log_event EvDbSelect (log_event EvDbSelect w)))
  /\ (forall chunks w1 text',
        chunk_and_embed_document env doc text w = (Ok chunks, w1) ->
        chunks <> [] ->
        db_fault env (length (trace w1)) = None ->
        db_fault env (S (length (trace w1))) = None ->
        exists rows,
          chunk_and_embed_document env doc text' w1
          = (Ok rows, log_event EvDbSelect (log_event EvDbSelect w1))
          /\ rows = chunks_of doc w1
          /\ Forall2 same_chunk chunks rows).
Proof.
  split.
  - apply chunk_and_embed_existing.
  - intros chunks w1 text' Hfirst Hne Hdb1 Hdb2.
    pose proof (chunk_and_embed_result env doc text w Hfirst Hne) as Hsame.
    assert (Hex : chunks_of doc w1 <> []).
    { intros E. rewrite E in Hsame. inversion Hsame. subst. contradiction. }
    exists (chunks_of doc w1). split; [|split; [reflexivity | exact Hsame]].
    now apply chunk_and_embed_existing.
Qed.

(** A two-word document is chunked into an empty database; the second call
    returns the two stored chunks and adds two reads to the trace. *)
Lemma chunk_and_embed_document_idempotent_witness :
  exists chunks w1 rows,
    chunk_and_embed_document quiet_env (lit "doc") (lit "hello world") empty_world
    = (Ok chunks, w1)
    /\ length chunks = 2%nat
    /\ chunk_and_embed_document quiet_env (lit "doc") (lit "other text") w1
       = (Ok rows, log_event EvDbSelect (log_event EvDbSelect w1))
    /\ Forall2 same_chunk chunks rows.
Proof.
  destruct (chunk_and_embed_document quiet_env (lit "doc") (lit "hello world")
              empty_world) as [o w1] eqn:Hfirst.
  assert (Ho : exists chunks, o = Ok chunks /\ length chunks = 2%nat).
  { apply (f_equal fst) in Hfirst. vm_compute in Hfirst. subst o.
    eexists. split; reflexivity. }
  destruct Ho as (chunks & -> & Hlen).
  destruct (@chunk_and_embed_document_idempotent quiet_env (lit "doc")
              (lit "hello world") empty_world) as [_ Hsecond].
  destruct (Hsecond chunks w1 (lit "other text") Hfirst) as (rows & Hrun & _ & Hsame).
  - intros ->. discriminate.
  - reflexivity.
  - reflexivity.
  - exists chunks, w1, rows. repeat split; assumption.
Defined.

(** ** [generate_content] *)

Lemma llm_calls_app a b : llm_calls (a ++ b) = (llm_calls a + llm_calls b)%nat.
Proof.
  induction a as [|ev a IH]; simpl; [reflexivity|].
  destruct ev; simpl; now rewrite IH.
Qed.

Lemma sleeps_app a b : sleeps (a ++ b) = sleeps a ++ sleeps b.
Proof.
  induction a as [|ev a IH]; simpl; [reflexivity|].
  destruct ev; simpl; now rewrite IH.
Qed.

Lemma generate_calls_app a b : generate_calls (a ++ b) = generate_calls a ++ generate_calls b.
Proof.
  induction a as [|ev a IH]; simpl; [reflexivity|].
  destruct ev; simpl; now rewrite IH.
Qed.

Section GenerateContent.

Variable env : Env.
Variables prompt content_type : str.

(** One attempt: a cache hit costs nothing; otherwise the LLM is called
    once, and only an answer can change the cache. *)
Lemma attempt_body_run w :
  match PyDict.get (generation_cache w) (_hash_content env prompt) with
  | Some cached => attempt_body env prompt content_type w = (Ok (Some cached), w)
  | None =>
      match llm_chat env (length (trace w)) (chat_messages prompt content_type) with
      | Raise e =>
          attempt_body env prompt content_type w
          = (Raise e, log_event (EvLlmCall (chat_messages prompt content_type)) w)
      | Ok response =>
          exists w',
            attempt_body env prompt content_type w = (Ok response, w')
            /\ trace w' = trace w ++ [EvLlmCall (chat_messages prompt content_type)]
      end
  end.
Proof.
  unfold attempt_body, bind, get_state.
  destruct (PyDict.get (generation_cache w) (_hash_content env prompt)); [reflexivity|].
  unfold now, emit, modify, lift_outcome.
  destruct (llm_chat env (length (trace w)) (chat_messages prompt content_type))
    as [[r|]|e]; [| eexists; split; reflexivity | reflexivity].
  destruct (negb (PyStr.eqb r []) && (50 <? len r)%Z)%bool.
  - destruct (PyDict.size (generation_cache
                 (log_event (EvLlmCall (chat_messages prompt content_type)) w)) <? 1000)%Z;
      eexists; split; reflexivity.
  - eexists; split; reflexivity.
Qed.

(** The retry loop returns normally; it calls the LLM at most once per
    attempt, and sleeps only between attempts. *)
Lemma attempts_loop_spec attempts : forall w,
  exists r w' added,
    attempts_loop env attempts prompt content_type w = (Ok r, w')
    /\ trace w' = trace w ++ added
    /\ (llm_calls added <= length attempts)%nat
    /\ Forall (generation_event env prompt content_type) added.
Proof.
  induction attempts as [|attempt rest IH]; intros w; simpl.
  - exists (Some []), w, []. rewrite app_nil_r.
    repeat split; simpl; try lia; constructor.
  - unfold try_except. pose proof (attempt_body_run w) as Hbody.
    destruct (PyDict.get (generation_cache w) (_hash_content env prompt)) as [cached|].
    { rewrite Hbody. exists (Some cached), w, []. rewrite app_nil_r.
      repeat split; simpl; try lia; constructor. }
    destruct (llm_chat env (length (trace w)) (chat_messages prompt content_type))
      as [response|e].
    { destruct Hbody as (w' & -> & Htrace).
      exists response, w', [EvLlmCall (chat_messages prompt content_type)].
      split; [reflexivity|]. split; [exact Htrace|]. split; [simpl; lia|].
      constructor; [reflexivity | constructor]. }
    rewrite Hbody. clear Hbody.
    set (w1 := log_event (EvLlmCall (chat_messages prompt content_type)) w).
    assert (Hstop : exists r w' added,
               (@ret World (option str) (Some [])) w1 = (Ok r, w')
               /\ trace w' = trace w ++ added
               /\ (llm_calls added <= S (length rest))%nat
               /\ Forall (generation_event env prompt content_type) added).
    { exists (Some []), w1, [EvLlmCall (chat_messages prompt content_type)].
      split; [reflexivity|]. split; [reflexivity|]. split; [simpl; lia|].
      constructor; [reflexivity | constructor]. }
    assert (Hretry : forall delay,
               (exists a n s, (a < max_retries)%nat /\ delay = retry_delay env a n s) ->
               exists r w' added,
                 bind (emit (EvSleep delay))
                   (fun _ => attempts_loop env rest prompt content_type) w1 = (Ok r, w')
                 /\ trace w' = trace w ++ added
                 /\ (llm_calls added <= S (length rest))%nat
                 /\ Forall (generation_event env prompt content_type) added).
    { intros delay Hdelay. unfold bind, emit, modify.
      destruct (IH (log_event (EvSleep delay) w1)) as (r & w' & added & Hrun & Htr & Hn & Hall).
      exists r, w', (EvLlmCall (chat_messages prompt content_type) :: EvSleep delay :: added).
      split; [exact Hrun|]. split.
      - rewrite Htr. subst w1. simpl. now rewrite <- !app_assoc.
      - split; [simpl; lia|].
        constructor; [reflexivity|]. constructor; [exact Hdelay | exact Hall]. }
    destruct (is_rate_limit e) eqn:Erate.
    + destruct (attempt <? max_retries)%nat eqn:Elt; [|exact Hstop].
      apply Nat.ltb_lt in Elt.
      unfold bind at 1. unfold now at 1.
      apply Hretry. exists attempt, (length (trace w1)), e. split; [exact Elt|].
      unfold retry_delay. now rewrite Erate.
    + destruct (attempt <? max_retries)%nat eqn:Elt; [|exact Hstop].
      apply Nat.ltb_lt in Elt.
      apply Hretry. exists attempt, 0%nat, e. split; [exact Elt|].
      unfold retry_delay. now rewrite Erate.
Qed.

(** When the cache does not hold the prompt and the LLM fails whenever it
    is asked, every remaining attempt is made, with a sleep between two
    attempts, and the result is the empty string. *)
Lemma attempts_loop_all_fail n : forall k w,
  (k + n = max_retries + 1)%nat -> (1 <= n)%nat ->
  PyDict.get (generation_cache w) (_hash_content env prompt) = None ->
  (forall i, exists e, llm_chat env i (chat_messages prompt content_type) = Raise e) ->
  exists w' added,
    attempts_loop env (seq k n) prompt content_type w = (Ok (Some []), w')
    /\ trace w' = trace w ++ added
    /\ generation_cache w' = generation_cache w
    /\ llm_calls added = n
    /\ length (sleeps added) = (n - 1)%nat.
Proof.
  induction n as [|n IH]; intros k w Hk Hn Hmiss Hfail; [lia|].
  simpl. unfold try_except. pose proof (attempt_body_run w) as Hbody.
  rewrite Hmiss in Hbody.
  destruct (Hfail (length (trace w))) as [e He]. rewrite He in Hbody.
  rewrite Hbody. clear Hbody.
  set (w1 := log_event (EvLlmCall (chat_messages prompt content_type)) w).
  unfold max_retries in Hk.
  destruct (k <? max_retries)%nat eqn:Elt.
  - apply Nat.ltb_lt in Elt. unfold max_retries in Elt.
    assert (Hretry : forall delay,
               exists w' added,
                 bind (emit (EvSleep delay))
                   (fun _ => attempts_loop env (seq (S k) n) prompt content_type) w1
                 = (Ok (Some []), w')
                 /\ trace w' = trace w ++ added
                 /\ generation_cache w' = generation_cache w
                 /\ llm_calls added = S n
                 /\ length (sleeps added) = (S n - 1)%nat).
    { intros delay. unfold bind, emit, modify.
      destruct (IH (S k) (log_event (EvSleep delay) w1))
        as (w' & added & Hrun & Htr & Hc & Hcalls & Hsl);
        [unfold max_retries; lia | lia | exact Hmiss | exact Hfail |].
      exists w', (EvLlmCall (chat_messages prompt content_type) :: EvSleep delay :: added).
      split; [exact Hrun|]. split.
      - rewrite Htr. subst w1. simpl. now rewrite <- !app_assoc.
      - split; [exact Hc|]. simpl. split; lia. }
    destruct (is_rate_limit e).
    + unfold bind at 1. unfold now at 1. apply Hretry.
    + apply Hretry.
  - apply Nat.ltb_ge in Elt. unfold max_retries in Elt.
    assert (n = 0)%nat as -> by lia.
    assert (Hstop : exists w' added,
               (@ret World (option str) (Some [])) w1 = (Ok (Some []), w')
               /\ trace w' = trace w ++ added
               /\ generation_cache w' = generation_cache w
               /\ llm_calls added = 1%nat
               /\ length (sleeps added) = (1 - 1)%nat).
    { exists w1, [EvLlmCall (chat_messages prompt content_type)].
      repeat split; reflexivity. }
    destruct (is_rate_limit e); exact Hstop.
Qed.

End GenerateContent.



(** The delays of that run, and those after an error of another shape. *)
Example generate_content_backoff :
  sleeps (trace (snd (generate_content
                        (failing_llm_env (lit "Error code: 429 - rate limit exceeded"))
                        (lit "prompt") (lit "json") empty_world)))
  = [1 * inject_Z (2 ^ 0) + (1 # 4); 1 * inject_Z (2 ^ 1) + (1 # 4);
     1 * inject_Z (2 ^ 2) + (1 # 4)]
  /\ sleeps (trace (snd (generate_content (failing_llm_env (lit "connection reset"))
                           (lit "prompt") (lit "json") empty_world)))
     = [1 * (1 # 2); 1 * (1 # 2); 1 * (1 # 2)].
Proof. split; reflexivity. Qed.

(** ** [generate_json_items] *)

Lemma slice_to_length (A : Type) (l : list A) k :
  (0 <= k)%Z -> (Z.of_nat (length (slice_to l k)) <= k)%Z.
Proof.
  intros Hk. unfold slice_to.
  destruct (0 <=? k)%Z eqn:E; [|apply Z.leb_gt in E; lia].
  rewrite length_firstn. lia.
Qed.

Lemma generation_events_no_generate_calls env prompt content_type added :
  Forall (generation_event env prompt content_type) added -> generate_calls added = [].
Proof.
  induction 1 as [|ev added Hev _ IH]; [reflexivity|].
  destruct ev; simpl in *; try contradiction; exact IH.
Qed.

Section GenerateJsonItems.

Variable env : Env.

(** A call to [generate_json_items] never raises, calls the Generation
    Client once, and returns no more items than it was asked for. *)
Lemma generate_json_items_spec prompt target_count validator_func w :
  exists items w' added,
    generate_json_items env prompt target_count validator_func w = (Ok items, w')
    /\ trace w' = trace w ++ EvGenerateItems prompt target_count :: added
    /\ generate_calls added = []
    /\ (llm_calls added <= 4)%nat
    /\ ((0 <= target_count)%Z -> (Z.of_nat (length items) <= target_count)%Z).
Proof.
  unfold generate_json_items. unfold bind at 1. unfold emit, modify.
  set (w0 := log_event (EvGenerateItems prompt target_count) w).
  destruct (attempts_loop_spec env prompt (lit "json") (seq 0 (max_retries + 1)) w0)
    as (r & w1 & added & Hrun & Htr & Hcalls & Hevents).
  change (attempts_loop env (seq 0 (max_retries + 1)) prompt (lit "json"))
    with (generate_content env prompt (lit "json")) in Hrun.
  pose proof (generation_events_no_generate_calls Hevents) as Hgen.
  assert (Htr1 : trace w1 = trace w ++ EvGenerateItems prompt target_count :: added).
  { rewrite Htr. subst w0. simpl. now rewrite <- app_assoc. }
  assert (Hempty : exists items w' added',
             (Ok (@nil json), w1) = (Ok items, w')
             /\ trace w' = trace w ++ EvGenerateItems prompt target_count :: added'
             /\ generate_calls added' = []
             /\ (llm_calls added' <= 4)%nat
             /\ ((0 <= target_count)%Z -> (Z.of_nat (length items) <= target_count)%Z)).
  { exists [], w1, added. repeat split; auto. }
  unfold try_except. unfold bind at 1. rewrite Hrun.
  destruct r as [[|c response]|]; [exact Hempty | | exact Hempty].
  destruct (clean_json_response env (c :: response)) as [|item items]; [exact Hempty|].
  unfold append_response_log, bind, now, emit, modify, raise, ret.
  set (w2 := log_event (EvFileAppend (c :: response)) w1).
  assert (Htr2 : trace w2 = trace w ++ EvGenerateItems prompt target_count
                              :: (added ++ [EvFileAppend (c :: response)])).
  { subst w2. simpl. rewrite Htr1. now rewrite <- app_assoc. }
  assert (Hgen2 : generate_calls (added ++ [EvFileAppend (c :: response)]) = []).
  { rewrite generate_calls_app, Hgen. reflexivity. }
  assert (Hcalls2 : (llm_calls (added ++ [EvFileAppend (c :: response)]) <= 4)%nat).
  { rewrite llm_calls_app. simpl. unfold max_retries in Hcalls. simpl in Hcalls. lia. }
  assert (Hout : forall l : list json, exists items' w' added',
             (Ok l, w2) = (Ok items', w')
             /\ trace w' = trace w ++ EvGenerateItems prompt target_count :: added'
             /\ generate_calls added' = []
             /\ (llm_calls added' <= 4)%nat
             /\ ((0 <= target_count)%Z ->
                 (Z.of_nat (length l) <= target_count)%Z ->
                 (Z.of_nat (length items') <= target_count)%Z)).
  { intros l. exists l, w2, (added ++ [EvFileAppend (c :: response)]).
    repeat split; auto. }
  assert (Hfail : exists items' w' added',
             (Ok (@nil json), w2) = (Ok items', w')
             /\ trace w' = trace w ++ EvGenerateItems prompt target_count :: added'
             /\ generate_calls added' = []
             /\ (llm_calls added' <= 4)%nat
             /\ ((0 <= target_count)%Z -> (Z.of_nat (length items') <= target_count)%Z)).
  { destruct (Hout []) as (i & w' & a & H1 & H2 & H3 & H4 & H5).
    exists i, w', a. repeat split; auto. }
  destruct (fs_fault env (length (trace w1))) as [e|]; [exact Hfail|].
  destruct validator_func as [f|].
  - unfold lift_outcome. destruct (filter_valid f (item :: items)) as [kept|e];
      [|exact Hfail].
    destruct (Hout (slice_to kept target_count)) as (i & w' & a & H1 & H2 & H3 & H4 & H5).
    exists i, w', a. repeat split; auto. intros Ht. apply H5; [exact Ht|].
    now apply slice_to_length.
  - destruct (Hout (slice_to (item :: items) target_count))
      as (i & w' & a & H1 & H2 & H3 & H4 & H5).
    exists i, w', a. repeat split; auto. intros Ht. apply H5; [exact Ht|].
    now apply slice_to_length.
Qed.

End GenerateJsonItems.

(** ** [_generate_content_chunked] *)

Section ChunkedLoop.

Variable env : Env.
Variables (prompt_template topic context : str) (target_count : Z).
Variable validator_func : option (json -> outcome bool).

(** The loop makes at most one call to [generate_json_items] per
    iteration, and it returns normally unless a prompt cannot be built. *)
Lemma chunk_loop_spec calls : forall all_items failed_calls chunk_size w,
  exists r w' added,
    chunk_loop env prompt_template topic context target_count validator_func
      calls all_items failed_calls chunk_size w = (r, w')
    /\ trace w' = trace w ++ added
    /\ (length (generate_calls added) <= calls)%nat
    /\ (llm_calls added <= 4 * length (generate_calls added))%nat
    /\ ((forall n, exists p, str_format env prompt_template topic context n = Ok p) ->
        exists items, r = Ok items).
Proof.
  induction calls as [|calls IH]; intros all_items failed_calls chunk_size w.
  - exists (Ok all_items), w, []. rewrite app_nil_r. simpl.
    repeat split; eauto.
  - simpl.
    destruct (Z.min chunk_size (target_count - Z.of_nat (length all_items)) <=? 0)%Z.
    { exists (Ok all_items), w, []. rewrite app_nil_r. simpl.
      repeat split; eauto. lia. }
    set (current_chunk := Z.min chunk_size (target_count - Z.of_nat (length all_items))).
    unfold bind at 1. unfold lift_outcome.
    destruct (str_format env prompt_template topic context current_chunk)
      as [prompt|e] eqn:Efmt.
    2: { exists (Raise e), w, []. rewrite app_nil_r. simpl.
         repeat split; eauto; try lia.
         intros Hfmt. destruct (Hfmt current_chunk) as [p Hp]. congruence. }
    unfold bind at 1.
    destruct (generate_json_items_spec env prompt current_chunk validator_func w)
      as (items & w1 & added1 & Hrun & Htr1 & Hgen1 & Hllm1 & _).
    rewrite Hrun.
    assert (Hnext : forall a f c, exists r w' added,
               (if (target_count <=? Z.of_nat (length a))%Z
                then ret a
                else chunk_loop env prompt_template topic context target_count
                       validator_func calls a f c) w1 = (r, w')
               /\ trace w' = trace w ++ added
               /\ (length (generate_calls added) <= S calls)%nat
               /\ (llm_calls added <= 4 * length (generate_calls added))%nat
               /\ ((forall n, exists p,
                      str_format env prompt_template topic context n = Ok p) ->
                   exists items, r = Ok items)).
    { intros a f c.
      assert (Hcount : forall added2,
                 (length (generate_calls added2) <= calls)%nat ->
                 (llm_calls added2 <= 4 * length (generate_calls added2))%nat ->
                 (length (generate_calls
                            (EvGenerateItems prompt current_chunk :: added1 ++ added2))
                  <= S calls)%nat
                 /\ (llm_calls (EvGenerateItems prompt current_chunk :: added1 ++ added2)
                     <= 4 * length (generate_calls
                                      (EvGenerateItems prompt current_chunk
                                       :: added1 ++ added2)))%nat).
      { intros added2 H1 H2. simpl.
        rewrite generate_calls_app, llm_calls_app, Hgen1. simpl. lia. }
      destruct (target_count <=? Z.of_nat (length a))%Z.
      - exists (Ok a), w1, (EvGenerateItems prompt current_chunk :: added1 ++ []).
        split; [reflexivity|]. split; [now rewrite app_nil_r|].
        destruct (Hcount [] (Nat.le_0_l _) (Nat.le_0_l _)) as [H1 H2].
        split; [exact H1|]. split; [exact H2|]. eauto.
      - destruct (IH a f c w1) as (r & w' & added2 & Hrun2 & Htr2 & Hgen2 & Hllm2 & Hok).
        exists r, w', (EvGenerateItems prompt current_chunk :: added1 ++ added2).
        split; [exact Hrun2|]. split.
        + rewrite Htr2, Htr1. rewrite <- app_assoc. reflexivity.
        + destruct (Hcount added2 Hgen2 Hllm2) as [H1 H2].
          split; [exact H1|]. split; [exact H2 | exact Hok]. }
    destruct items as [|item items].
    + destruct ((2 <=? failed_calls + 1)%Z
                && Qlt_bool (inject_Z (Z.of_nat (length all_items)))
                     (inject_Z target_count * (1 # 2)))%bool; apply Hnext.
    + apply Hnext.
Qed.

(** The whole function: the trace, the call budget, and the result. *)
Lemma _generate_content_chunked_spec chunk_size content_type w :
  chunk_size <> 0%Z ->
  exists r w' added,
    _generate_content_chunked env prompt_template topic context target_count
      validator_func chunk_size content_type w = (r, w')
    /\ trace w' = trace w ++ added
    /\ (length (generate_calls added) <= Z.to_nat (num_calls target_count chunk_size))%nat
    /\ (llm_calls added <= 4 * length (generate_calls added))%nat
    /\ (forall items, r = Ok items ->
        (0 <= target_count)%Z -> (Z.of_nat (length items) <= target_count)%Z)
    /\ ((forall n, exists p, str_format env prompt_template topic context n = Ok p) ->
        exists items, r = Ok items).
Proof.
  intros Hchunk. unfold _generate_content_chunked.
  destruct (chunk_size =? 0)%Z eqn:E; [apply Z.eqb_eq in E; contradiction|].
  fold (num_calls target_count chunk_size).
  destruct (chunk_loop_spec (Z.to_nat (num_calls target_count chunk_size)) [] 0%Z
              chunk_size w) as (r & w' & added & Hrun & Htr & Hgen & Hllm & Hok).
  unfold bind. rewrite Hrun. destruct r as [all_items|e].
  - exists (Ok (slice_to all_items target_count)), w', added.
    split; [reflexivity|]. split; [exact Htr|]. split; [exact Hgen|].
    split; [exact Hllm|]. split.
    + intros items Hitems Ht. injection Hitems as <-. now apply slice_to_length.
    + eauto.
  - exists (Raise e), w', added.
    split; [reflexivity|]. split; [exact Htr|]. split; [exact Hgen|].
    split; [exact Hllm|]. split.
    + discriminate.
    + intros Hfmt. destruct (Hok Hfmt) as [items Hitems]. discriminate.
Qed.

End ChunkedLoop.

(** C3. For every prompt template, topic, context and target count that
    is not negative, what [generate_questions_chunked] and
    [generate_flashcards_chunked] return has at most [target_count] items,
    whatever the LLM delivers; and they do return, provided the prompt
    template can be formatted. *)
Theorem chunked_generation_at_most_target
    (env : Env) (prompt_template topic context : str) (target_count : Z) (w : World)
    (Htarget : (0 <= target_count)%Z) :
  (forall items w',
     generate_questions_chunked env prompt_template topic context target_count w
     = (Ok items, w') ->
     (Z.of_nat (length items) <= target_count)%Z)
  /\ (forall items w',
        generate_flashcards_chunked env prompt_template topic context target_count w
        = (Ok items, w') ->
        (Z.of_nat (length items) <= target_count)%Z)
  /\ ((forall n, exists p, str_format env prompt_template topic context n = Ok p) ->
      (exists items w',
         generate_questions_chunked env prompt_template topic context target_count w
         = (Ok items, w'))
      /\ (exists items w',
            generate_flashcards_chunked env prompt_template topic context target_count w
            = (Ok items, w'))).
Proof.
  assert (Hq : settings.generation.questions_per_chunk <> 0%Z) by discriminate.
  assert (Hf : settings.generation.flashcards_per_chunk <> 0%Z) by discriminate.
  destruct (_generate_content_chunked_spec env prompt_template topic context target_count
              (Some _validate_quiz_item) (lit "questions") w Hq)
    as (rq & wq & aq & Hrunq & _ & _ & _ & Hlenq & Hokq).
  destruct (_generate_content_chunked_spec env prompt_template topic context target_count
              (Some _validate_flashcard_item) (lit "flashcards") w Hf)
    as (rf & wf & af & Hrunf & _ & _ & _ & Hlenf & Hokf).
  unfold generate_questions_chunked, generate_flashcards_chunked.
  rewrite Hrunq, Hrunf. split; [|split].
  - intros items w' H. injection H as -> _. now apply Hlenq.
  - intros items w' H. injection H as -> _. now apply Hlenf.
  - intros Hfmt. destruct (Hokq Hfmt) as [iq ->]. destruct (Hokf Hfmt) as [jf ->].
    split; eauto.
Qed.

(** Two flashcards are asked of an LLM that delivers three valid ones:
    two are returned. *)
Lemma chunked_generation_at_most_target_witness :
  length (clean_json_response (constant_llm_env three_flashcards_json)
            three_flashcards_json) = 3%nat
  /\ exists items w',
       generate_flashcards_chunked (constant_llm_env three_flashcards_json)
         (lit "template") (lit "topic") (lit "context") 2 empty_world = (Ok items, w')
       /\ (Z.of_nat (length items) <= 2)%Z
       /\ length items = 2%nat.
Proof.
  split; [vm_compute; reflexivity|].
  destruct (generate_flashcards_chunked (constant_llm_env three_flashcards_json)
              (lit "template") (lit "topic") (lit "context") 2 empty_world)
    as [o w'] eqn:Hrun.
  assert (Ho : exists items, o = Ok items /\ length items = 2%nat).
  { apply (f_equal fst) in Hrun. vm_compute in Hrun. subst o.
    eexists. split; reflexivity. }
  destruct Ho as (items & -> & Hlen).
  exists items, w'. split; [reflexivity|]. split; [|exact Hlen].
  destruct (@chunked_generation_at_most_target (constant_llm_env three_flashcards_json)
              (lit "template") (lit "topic") (lit "context") 2 empty_world)
    as (_ & Hflash & _); [lia|].
  exact (Hflash items w' Hrun).
Defined.

(** Fewer items than asked for is an outcome: an LLM that refuses yields
    none of five. *)
Example chunked_generation_under_delivery :
  fst (generate_questions_chunked (constant_llm_env refusal_text)
         (lit "template") (lit "topic") (lit "context") 5 empty_world) = Ok [].
Proof. vm_compute. reflexivity. Qed.

(** C9. For a target count and a chunk size of at least one, the chunked
    generation loop calls [generate_json_items], and through it the
    Generation Client, at most [num_calls] times, where [num_calls] is the
    ceiling of [target_count / chunk_size] for the chunk size the loop
    starts with; halving the chunk size on the way does not change the
    budget. The function is total, so the loop ends within that budget; the
    LLM is called at most four times per call of the Generation Client. *)
Theorem chunked_generation_call_budget
    (env : Env) (prompt_template topic context : str) (target_count : Z)
    (validator_func : option (json -> outcome bool)) (chunk_size : Z)
    (content_type : str) (w : World)
    (Htarget : (1 <= target_count)%Z) (Hchunk : (1 <= chunk_size)%Z) :
  exists r w' added,
    _generate_content_chunked env prompt_template topic context target_count
      validator_func chunk_size content_type w = (r, w')
    /\ trace w' = trace w ++ added
    /\ (Z.of_nat (length (generate_calls added)) <= num_calls target_count chunk_size)%Z
    /\ ((num_calls target_count chunk_size - 1) * chunk_size < target_count
        <= num_calls target_count chunk_size * chunk_size)%Z
    /\ (llm_calls added <= 4 * length (generate_calls added))%nat.
Proof.
  destruct (_generate_content_chunked_spec env prompt_template topic context target_count
              validator_func content_type w (chunk_size := chunk_size))
    as (r & w' & added & Hrun & Htr & Hgen & Hllm & _); [lia|].
  assert (Hceil : ((num_calls target_count chunk_size - 1) * chunk_size < target_count
                   <= num_calls target_count chunk_size * chunk_size)%Z).
  { unfold num_calls.
    pose proof (Z.div_mod (target_count + chunk_size - 1) chunk_size ltac:(lia)) as Hdm.
    pose proof (Z.mod_pos_bound (target_count + chunk_size - 1) chunk_size ltac:(lia)) as Hb.
    nia. }
  exists r, w', added.
  split; [exact Hrun|]. split; [exact Htr|]. split; [|split; [exact Hceil | exact Hllm]].
  assert (0 <= num_calls target_count chunk_size)%Z by nia. lia.
Qed.

(** A target of 20 with chunks of 15 allows two calls, and an LLM that
    answers nothing useful gets exactly those two. *)
Lemma chunked_generation_call_budget_witness :
  exists r w' added,
    _generate_content_chunked (constant_llm_env refusal_text)
      (lit "template") (lit "topic") (lit "context") 20
      (Some _validate_quiz_item) 15 (lit "questions") empty_world = (r, w')
    /\ trace w' = trace empty_world ++ added
    /\ (Z.of_nat (length (generate_calls added)) <= 2)%Z.
Proof.
  destruct (@chunked_generation_call_budget (constant_llm_env refusal_text)
              (lit "template") (lit "topic") (lit "context") 20
              (Some _validate_quiz_item) 15 (lit "questions") empty_world)
    as (r & w' & added & Hrun & Htr & Hcalls & _); [lia | lia |].
  exists r, w', added. repeat split; assumption.
Defined.

(** ** The adaptive chunk size *)

(** [len(all_items) < target_count * 0.5], on integers. *)
Lemma half_target_check n t :
  Qlt_bool (inject_Z (Z.of_nat n)) (inject_Z t * (1 # 2)) = (2 * Z.of_nat n <? t)%Z.
Proof.
  unfold Qlt_bool, Qle_bool. cbn [inject_Z Qmult Qnum Qden Pos.mul].
  match goal with
  | |- negb (?a <=? ?b)%Z = _ =>
      destruct (Z.leb_spec a b); destruct (Z.ltb_spec (2 * Z.of_nat n) t);
      cbn [negb]; try reflexivity; lia
  end.
Qed.

Section Halving.

Variable env : Env.
Variables (prompt_template topic context : str) (target_count : Z).
Variable validator_func : option (json -> outcome bool).

(** One iteration whose call yields no valid item. *)
Lemma chunk_loop_step_failed calls all_items failed_calls chunk_size prompt w w1 :
  (0 < Z.min chunk_size (target_count - Z.of_nat (length all_items)))%Z ->
  str_format env prompt_template topic context
    (Z.min chunk_size (target_count - Z.of_nat (length all_items))) = Ok prompt ->
  generate_json_items env prompt
    (Z.min chunk_size (target_count - Z.of_nat (length all_items)))
    validator_func w = (Ok [], w1) ->
  chunk_loop env prompt_template topic context target_count validator_func
    (S calls) all_items failed_calls chunk_size w
  = chunk_loop env prompt_template topic context target_count validator_func
      calls all_items (failed_calls + 1)
      (if ((2 <=? failed_calls + 1) && (2 * Z.of_nat (length all_items) <? target_count))%Z
       then Z.max 1 (chunk_size / 2) else chunk_size) w1.
Proof.
  intros Hpos Hfmt Hcall. cbn [chunk_loop].
  destruct (Z.leb_spec (Z.min chunk_size (target_count - Z.of_nat (length all_items))) 0);
    [lia|].
  unfold bind at 1. unfold lift_outcome. rewrite Hfmt.
  unfold bind at 1. rewrite Hcall. rewrite half_target_check.
  destruct ((2 <=? failed_calls + 1) && (2 * Z.of_nat (length all_items) <? target_count))%Z;
    (destruct (Z.leb_spec target_count (Z.of_nat (length all_items))); [lia | reflexivity]).
Qed.

(** Two calls without a valid item, with nothing accumulated and a budget
    of at least three calls: the third call asks for half the chunk size,
    and for one item at least. *)
Lemma chunk_loop_third_call_halved calls chunk_size prompt prompt3 w w1 w2 :
  (1 <= chunk_size)%Z -> (2 * chunk_size < target_count)%Z ->
  str_format env prompt_template topic context chunk_size = Ok prompt ->
  str_format env prompt_template topic context (Z.max 1 (chunk_size / 2)) = Ok prompt3 ->
  generate_json_items env prompt chunk_size validator_func w = (Ok [], w1) ->
  generate_json_items env prompt chunk_size validator_func w1 = (Ok [], w2) ->
  exists r w' added,
    chunk_loop env prompt_template topic context target_count validator_func
      (S (S (S calls))) [] 0%Z chunk_size w = (r, w')
    /\ trace w' = trace w ++ added
    /\ firstn 3 (generate_calls added)
       = [chunk_size; chunk_size; Z.max 1 (chunk_size / 2)].
Proof.
  intros Hchunk Htarget Hfmt Hfmt3 Hcall1 Hcall2.
  assert (Hhalf : (Z.max 1 (chunk_size / 2) <= chunk_size)%Z).
  { pose proof (Z.div_le_upper_bound chunk_size 2 chunk_size ltac:(lia) ltac:(lia)). lia. }
  assert (Hmin : Z.min chunk_size (target_count - Z.of_nat (@length json [])) = chunk_size).
  { cbn [length]. lia. }
  assert (Hmin3 : Z.min (Z.max 1 (chunk_size / 2)) (target_count - Z.of_nat (@length json []))
                  = Z.max 1 (chunk_size / 2)).
  { cbn [length]. lia. }
  destruct (generate_json_items_spec env prompt chunk_size validator_func w)
    as (i1 & w1' & added1 & Hrun1 & Htr1 & Hgen1 & _).
  rewrite Hcall1 in Hrun1. injection Hrun1 as <- <-.
  destruct (generate_json_items_spec env prompt chunk_size validator_func w1)
    as (i2 & w2' & added2 & Hrun2 & Htr2 & Hgen2 & _).
  rewrite Hcall2 in Hrun2. injection Hrun2 as <- <-.
  rewrite (@chunk_loop_step_failed _ [] 0%Z chunk_size prompt w w1)
    by (rewrite ?Hmin; (lia || assumption)).
  replace (if ((2 <=? 0 + 1) && (2 * Z.of_nat (@length json []) <? target_count))%Z
           then Z.max 1 (chunk_size / 2) else chunk_size) with chunk_size by reflexivity.
  rewrite (@chunk_loop_step_failed _ [] (0 + 1)%Z chunk_size prompt w1 w2)
    by (rewrite ?Hmin; (lia || assumption)).
  replace (if ((2 <=? 0 + 1 + 1) && (2 * Z.of_nat (@length json []) <? target_count))%Z
           then Z.max 1 (chunk_size / 2) else chunk_size)
    with (Z.max 1 (chunk_size / 2)).
  2: { cbn [length]. change (2 <=? 0 + 1 + 1)%Z with true. cbn [andb].
       destruct (Z.ltb_spec (2 * Z.of_nat 0) target_count); [reflexivity | lia]. }
(* the third call *)
cbn [chunk_loop]. rewrite Hmin3.
destruct (Z.leb_spec (Z.max 1 (chunk_size / 2)) 0); [lia|].
unfold bind at 1. unfold lift_outcome. rewrite Hfmt3.
destruct (generate_json_items_spec env prompt3 (Z.max 1 (chunk_size / 2))
            validator_func w2)
  as (i3 & w3 & added3 & Hrun3 & Htr3 & Hgen3 & _).
unfold bind at 1. rewrite Hrun3.
match goal with
| |- exists r w' added, ?m w3 = (r, w') /\ _ =>
    assert (Hrest : exists r w' added4, m w3 = (r, w') /\ trace w' = trace w3 ++ added4)
end.
{ destruct i3 as [|item items].
  - destruct ((2 <=? 0 + 1 + 1 + 1)%Z
              && Qlt_bool (inject_Z (Z.of_nat (@length json [])))
                   (inject_Z target_count * (1 # 2)))%bool;
      (destruct (target_count <=? Z.of_nat (@length json []))%Z;
       [ exists (Ok []), w3, []; now rewrite app_nil_r
       | match goal with
         | |- context [chunk_loop _ _ _ _ _ _ ?c ?a ?f ?k w3] =>
             destruct (chunk_loop_spec env prompt_template topic context target_count
                         validator_func c a f k w3) as (r & w' & added4 & H1 & H2 & _)
         end; eauto ]).
  - destruct (target_count <=? Z.of_nat (length ([] ++ item :: items)))%Z.
    + eexists _, w3, []. now rewrite app_nil_r.
    + match goal with
      | |- context [chunk_loop _ _ _ _ _ _ ?c ?a ?f ?k w3] =>
          destruct (chunk_loop_spec env prompt_template topic context target_count
                      validator_func c a f k w3) as (r & w' & added4 & H1 & H2 & _)
      end; eauto. }
destruct Hrest as (r & w' & added4 & Hrun4 & Htr4).
exists r, w',
  ((EvGenerateItems prompt chunk_size :: added1)
   ++ (EvGenerateItems prompt chunk_size :: added2)
   ++ (EvGenerateItems prompt3 (Z.max 1 (chunk_size / 2)) :: added3) ++ added4).
split; [exact Hrun4|]. split.
- rewrite Htr4, Htr3, Htr2, Htr1. now rewrite <- !app_assoc.
- rewrite !generate_calls_app. cbn [generate_calls].
  rewrite Hgen1, Hgen2, Hgen3. reflexivity.
Qed.

End Halving.




(** ** [str.strip] *)

Lemma lstrip_all_space ws s : all_space ws -> lstrip (ws ++ s) = lstrip s.
Proof.
  induction 1 as [|c ws Hc _ IH]; simpl; [reflexivity|]. now rewrite Hc.
Qed.

Lemma lstrip_nonspace c s : isspace c = false -> lstrip (c :: s) = c :: s.
Proof. intros H. simpl. now rewrite H. Qed.

(** A text that does not strip to nothing keeps what follows it. *)
Lemma lstrip_app a b : lstrip a <> [] -> lstrip (a ++ b) = lstrip a ++ b.
Proof.
  induction a as [|c a IH]; simpl; [contradiction|].
  destruct (isspace c); [exact IH | reflexivity].
Qed.

Lemma lstrip_app_nonspace a q b :
  isspace q = false -> lstrip (a ++ q :: b) = lstrip a ++ q :: b.
Proof.
  intros Hq. induction a as [|c a IH]; simpl.
  - now rewrite Hq.
  - destruct (isspace c); [exact IH | reflexivity].
Qed.

Lemma rstrip_all_space s ws : all_space ws -> rstrip (s ++ ws) = rstrip s.
Proof.
  intros H. unfold rstrip. rewrite rev_app_distr.
  rewrite lstrip_all_space; [reflexivity|].
  unfold all_space in *. now apply Forall_rev.
Qed.

Lemma rstrip_app_nonspace a q b :
  isspace q = false -> rstrip (a ++ q :: b) = a ++ q :: rstrip b.
Proof.
  intros Hq. unfold rstrip. rewrite rev_app_distr. simpl.
  rewrite <- app_assoc. simpl. rewrite lstrip_app_nonspace by exact Hq.
  rewrite rev_app_distr. simpl. rewrite rev_involutive.
  now rewrite <- app_assoc.
Qed.

Lemma lstrip_all_space_nil ws : all_space ws -> lstrip ws = [].
Proof. intros H. rewrite <- (app_nil_r ws). now rewrite lstrip_all_space. Qed.

(** Whitespace around a text does not change what it strips to. *)
Lemma strip_surrounded ws1 s ws2 :
  all_space ws1 -> all_space ws2 -> strip (ws1 ++ s ++ ws2) = strip s.
Proof.
  intros H1 H2. unfold strip. rewrite lstrip_all_space by exact H1.
  destruct (lstrip s) as [|c r] eqn:E.
  - assert (Hs : lstrip (s ++ ws2) = []).
    { clear H1. induction s as [|x s IH]; simpl in *.
      - now apply lstrip_all_space_nil.
      - destruct (isspace x); [now apply IH | discriminate]. }
    now rewrite Hs.
  - rewrite lstrip_app by (rewrite E; discriminate).
    rewrite E. now apply rstrip_all_space.
Qed.

Lemma lstrip_incl c s : In c (lstrip s) -> In c s.
Proof.
  induction s as [|x s IH]; simpl; [auto|].
  destruct (isspace x); [intros H; right; now apply IH | auto].
Qed.

Lemma rstrip_incl c s : In c (rstrip s) -> In c s.
Proof.
  unfold rstrip. intros H. apply in_rev in H. apply lstrip_incl in H.
  now apply in_rev.
Qed.

Lemma strip_incl c s : In c (strip s) -> In c s.
Proof. unfold strip. intros H. now apply lstrip_incl, rstrip_incl. Qed.

Lemma lstrip_head s : match lstrip s with [] => True | c :: _ => isspace c = false end.
Proof.
  induction s as [|x s IH]; simpl; [exact I|].
  destruct (isspace x) eqn:E; [exact IH | exact E].
Qed.

(** A stripped text does not start with whitespace. *)
Lemma strip_head s : match strip s with [] => True | c :: _ => isspace c = false end.
Proof.
  unfold strip. destruct (lstrip s) as [|c r] eqn:E; [exact I|].
  pose proof (lstrip_head s) as Hc. rewrite E in Hc.
  change (c :: r) with ([] ++ c :: r). rewrite rstrip_app_nonspace by exact Hc.
  exact Hc.
Qed.

Lemma is_ws_isspace c : is_ws c = true -> isspace c = true.
Proof.
  unfold is_ws. rewrite !orb_true_iff, !N.eqb_eq.
  intros [[[-> | ->] | ->] | ->]; reflexivity.
Qed.

Lemma skip_ws_nonspace c s : isspace c = false -> skip_ws (c :: s) = c :: s.
Proof.
  intros H. simpl. destruct (is_ws c) eqn:E; [|reflexivity].
  apply is_ws_isspace in E. congruence.
Qed.

Lemma skip_ws_incl c s : In c (skip_ws s) -> In c s.
Proof.
  induction s as [|x s IH]; simpl; [auto|].
  destruct (is_ws x); [intros H; right; now apply IH | auto].
Qed.

(** ** Code fences *)

Lemma starts_with_app a b s : starts_with (a ++ b) s = true -> starts_with a s = true.
Proof.
  revert s. induction a as [|x a IH]; intros s; simpl; [reflexivity|].
  destruct s as [|c s]; [discriminate|].
  rewrite !andb_true_iff. intros [H1 H2]. split; [exact H1 | now apply IH].
Qed.

Lemma starts_with_head_ne x p c s : c <> x -> starts_with (x :: p) (c :: s) = false.
Proof.
  intros H. simpl. destruct (N.eqb_spec x c); [congruence | reflexivity].
Qed.

Lemma remove_fences_from_cons_other c r :
  c <> 96%N -> remove_fences_from 0 (c :: r) = c :: remove_fences_from 0 r.
Proof.
  intros H. cbn [remove_fences_from].
  change (lit "```json") with (96%N :: lit "``json").
  change (lit "```") with (96%N :: lit "``").
  now rewrite !starts_with_head_ne by exact H.
Qed.

(** A stretch without backquote passes through unchanged. *)
Lemma remove_fences_from_app a b :
  ~ In 96%N a -> remove_fences_from 0 (a ++ b) = a ++ remove_fences_from 0 b.
Proof.
  induction a as [|c a IH]; intros H; simpl app; [reflexivity|].
  rewrite remove_fences_from_cons_other.
  - rewrite IH; [reflexivity|]. intros Hin. apply H. now right.
  - intros ->. apply H. now left.
Qed.

(** A text without fence marker passes through unchanged. *)
Lemma remove_fences_no_fence s : contains fence s = false -> remove_fences s = s.
Proof.
  unfold remove_fences. induction s as [|c r IH]; intros H; [reflexivity|].
  cbn [contains] in H. apply orb_false_iff in H. destruct H as [H1 H2].
  cbn [remove_fences_from].
  destruct (starts_with (lit "```json") (c :: r)) eqn:E.
  - change (lit "```json") with (fence ++ lit "json") in E.
    apply starts_with_app in E. congruence.
  - fold fence. rewrite H1. now rewrite IH.
Qed.

Lemma remove_fences_from_fence_json x :
  remove_fences_from 0 (fence ++ lit "json" ++ x) = remove_fences_from 0 x.
Proof. reflexivity. Qed.

Lemma remove_fences_from_fence x :
  starts_with (lit "json") x = false ->
  remove_fences_from 0 (fence ++ x) = remove_fences_from 0 x.
Proof.
  intros H. change (fence ++ x) with (96%N :: 96%N :: 96%N :: x).
  cbn [remove_fences_from].
  change (starts_with (lit "```json") (96%N :: 96%N :: 96%N :: x))
    with (starts_with (lit "json") x).
  rewrite H. reflexivity.
Qed.

Lemma all_space_without c ws : isspace c = false -> all_space ws -> ~ In c ws.
Proof.
  intros Hc Hws Hin. unfold all_space in Hws. rewrite Forall_forall in Hws.
  specialize (Hws _ Hin). congruence.
Qed.

Lemma starts_with_json_space ws : all_space ws -> starts_with (lit "json") ws = false.
Proof.
  intros H. destruct H as [|c ws Hc _]; [reflexivity|].
  apply starts_with_head_ne. intros ->. discriminate.
Qed.

(** A pattern that does not start a text does not start it either when
    a character foreign to the pattern follows the text. *)
Lemma starts_with_before p a x b :
  starts_with p a = false -> ~ In x a -> ~ In x p ->
  starts_with p (a ++ x :: b) = false.
Proof.
  revert a. induction p as [|y p IH]; intros a H Ha Hp; [discriminate|].
  destruct a as [|c a]; simpl.
  - destruct (N.eqb_spec y x); [|reflexivity]. subst. exfalso. apply Hp. now left.
  - simpl in H. destruct (y =? c)%N; [|reflexivity]. simpl in *.
    apply IH; [exact H | tauto | tauto].
Qed.

(** What is left of a fenced text: the inside, and the whitespace around
    the fences. *)
Lemma remove_fences_fenced ws1 tag inner ws2 :
  all_space ws1 -> all_space ws2 ->
  tag = lit "json" \/ (tag = [] /\ starts_with (lit "json") inner = false) ->
  ~ In 96%N inner ->
  remove_fences (ws1 ++ fence ++ tag ++ inner ++ fence ++ ws2) = ws1 ++ inner ++ ws2.
Proof.
  intros H1 H2 Htag Hinner. unfold remove_fences.
  assert (Hbq : isspace 96%N = false) by reflexivity.
  rewrite remove_fences_from_app by (now apply all_space_without).
  assert (Hin : remove_fences_from 0 (fence ++ tag ++ inner ++ fence ++ ws2)
                = remove_fences_from 0 (inner ++ fence ++ ws2)).
  { destruct Htag as [-> | [-> Hj]].
    - apply remove_fences_from_fence_json.
    - simpl app. apply remove_fences_from_fence.
      apply starts_with_before; [exact Hj | exact Hinner |].
      simpl. intuition discriminate. }
  rewrite Hin. rewrite remove_fences_from_app by exact Hinner.
  rewrite remove_fences_from_fence by (now apply starts_with_json_space).
  rewrite <- (app_nil_r ws2) at 1.
  rewrite remove_fences_from_app by (now apply all_space_without).
  simpl. now rewrite app_nil_r.
Qed.

Lemma remove_fences_from_incl c s : forall k, In c (remove_fences_from k s) -> In c s.
Proof.
  induction s as [|x s IH]; intros k; [auto|].
  cbn [remove_fences_from]. destruct k as [|k].
  - destruct (starts_with (lit "```json") (x :: s)).
    + intros H. right. eapply IH; exact H.
    + destruct (starts_with (lit "```") (x :: s)).
      * intros H. right. eapply IH; exact H.
      * intros [-> | H]; [now left | right; eapply IH; exact H].
  - intros H. right. eapply IH; exact H.
Qed.

(** ** What [json.loads] accepts *)

Lemma match_word_value w v s x r : match_word w v s = Some (x, r) -> x = v.
Proof. unfold match_word. destruct (starts_with w s); congruence. Qed.

Lemma match_number_scalar s v r : match_number s = Some (v, r) -> returned_for v = None.
Proof.
  unfold match_number. destruct (match_integer s) as [[i r0]|]; [|discriminate].
  destruct (match_frac r0) as [f r1]. destruct (match_exp r1) as [e r2].
  destruct f; destruct e; intros H; inversion H; reflexivity.
Qed.

Lemma match_constant_scalar s v r : match_constant s = Some (v, r) -> returned_for v = None.
Proof.
  unfold match_constant, first_some.
  repeat match goal with
  | |- context [match match_word ?w ?x s with _ => _ end] =>
      let E := fresh "E" in
      destruct (match_word w x s) as [[? ?]|] eqn:E;
      [apply match_word_value in E; intros H; inversion H; subst; reflexivity|]
  | |- context [match match_number s with _ => _ end] =>
      let E := fresh "E" in
      destruct (match_number s) as [[? ?]|] eqn:E;
      [apply match_number_scalar in E; intros H; inversion H; subst; exact E|]
  end.
  intros H. apply match_word_value in H. now subst.
Qed.

(** Only a text that opens a bracket or a brace scans to a list or a dict. *)
Lemma scan_once_container fuel s v r :
  scan_once fuel s = Some (v, r) -> returned_for v <> None ->
  exists s', s = 91%N :: s' \/ s = 123%N :: s'.
Proof.
  destruct fuel as [|fuel]; [discriminate|].
  destruct s as [|c s']; [discriminate|]. simpl.
  destruct (N.eqb_spec c 34).
  - destruct (scanstring s') as [[x r0]|]; [|discriminate].
    intros H Hv. inversion H; subst. now contradiction Hv.
  - destruct (N.eqb_spec c 123); [subst; eauto|].
    destruct (N.eqb_spec c 91); [subst; eauto|].
    intros H Hv. apply match_constant_scalar in H. contradiction.
Qed.

Lemma loads_and_return_head s l :
  loads_and_return s = Some l ->
  exists s', skip_ws s = 91%N :: s' \/ skip_ws s = 123%N :: s'.
Proof.
  unfold loads_and_return, loads.
  destruct (scan_once (2 * length s + 2) (skip_ws s)) as [[v r]|] eqn:E; [|discriminate].
  destruct (skip_ws r); [|discriminate]. intros H.
  eapply scan_once_container; [exact E|]. rewrite H. discriminate.
Qed.

(** A text without bracket and brace is no list and no dict. *)
Lemma loads_and_return_no_bracket s :
  ~ In 91%N s -> ~ In 123%N s -> loads_and_return s = None.
Proof.
  intros H1 H2. destruct (loads_and_return s) as [l|] eqn:E; [|reflexivity].
  apply loads_and_return_head in E. destruct E as [s' [E | E]].
  - exfalso. apply H1. apply skip_ws_incl. rewrite E. now left.
  - exfalso. apply H2. apply skip_ws_incl. rewrite E. now left.
Qed.

Lemma loads_nil : loads [] = None.
Proof. reflexivity. Qed.

(** ** The spans of Strategy 2 *)

Lemma drop_until_none x s : ~ In x s -> drop_until x s = [].
Proof.
  induction s as [|c s IH]; intros H; simpl; [reflexivity|].
  destruct (N.eqb_spec c x).
  - exfalso. apply H. now left.
  - apply IH. intros Hin. apply H. now right.
Qed.

Lemma drop_until_app x a b : ~ In x a -> drop_until x (a ++ x :: b) = x :: b.
Proof.
  induction a as [|c a IH]; intros H; simpl.
  - now rewrite N.eqb_refl.
  - destruct (N.eqb_spec c x).
    + exfalso. apply H. now left.
    + apply IH. intros Hin. apply H. now right.
Qed.

Lemma drop_until_suffix x s : exists p, s = p ++ drop_until x s.
Proof.
  induction s as [|c s [p IH]]; simpl.
  - now exists [].
  - destruct (c =? x)%N.
    + now exists [].
    + exists (c :: p). simpl. now rewrite <- IH.
Qed.

(** The text up to the last [x] is a prefix of the text. *)
Lemma up_to_last_prefix x s : exists q, s = rev (drop_until x (rev s)) ++ q.
Proof.
  destruct (drop_until_suffix x (rev s)) as [p Hp].
  exists (rev p). rewrite <- rev_app_distr, <- Hp. now rewrite rev_involutive.
Qed.

Lemma findall_span_none o c s : ~ In o s -> findall_span o c s = [].
Proof. intros H. unfold findall_span. now rewrite drop_until_none. Qed.

(** One opening bracket before, no closing bracket after: the span is the
    bracketed part. *)
Lemma findall_span_exact o c pre mid post :
  ~ In o pre -> ~ In c post ->
  findall_span o c (pre ++ o :: mid ++ c :: post) = [o :: mid ++ [c]].
Proof.
  intros H1 H2. unfold findall_span. rewrite drop_until_app by exact H1.
  rewrite rev_app_distr. simpl. rewrite <- app_assoc. simpl.
  rewrite drop_until_app by (intros H; apply H2; now apply in_rev).
  simpl. rewrite rev_involutive.
  destruct (mid ++ [c]) eqn:E; [|reflexivity].
  destruct mid; discriminate.
Qed.

(** ** [clean_json_response], shape by shape *)

Lemma strip_around pre o mid c post :
  isspace o = false -> isspace c = false ->
  strip (pre ++ o :: mid ++ c :: post) = lstrip pre ++ o :: mid ++ c :: rstrip post.
Proof.
  intros Ho Hc. unfold strip. rewrite lstrip_app_nonspace by exact Ho.
  change (lstrip pre ++ o :: mid ++ c :: post)
    with (lstrip pre ++ (o :: mid) ++ c :: post).
  rewrite app_assoc. rewrite rstrip_app_nonspace by exact Hc.
  now rewrite <- app_assoc.
Qed.

(** Strategy 1 on a text without code fence. *)
Lemma clean_json_response_direct env t items :
  contains fence t = false ->
  loads (strip t) = Some (JArr items) ->
  clean_json_response env t = items.
Proof.
  intros Hf Hl. unfold clean_json_response.
  rewrite remove_fences_no_fence by exact Hf.
  unfold loads_and_return. rewrite Hl.
  destruct (strip t); [discriminate Hl | reflexivity].
Qed.

(** Strategy 1 on a fenced text. *)
Lemma clean_json_response_fenced env ws1 tag inner ws2 items :
  all_space ws1 -> all_space ws2 ->
  tag = lit "json" \/ (tag = [] /\ starts_with (lit "json") inner = false) ->
  ~ In 96%N inner ->
  loads (strip inner) = Some (JArr items) ->
  clean_json_response env (ws1 ++ fence ++ tag ++ inner ++ fence ++ ws2) = items.
Proof.
  intros H1 H2 Htag Hin Hl. unfold clean_json_response.
  rewrite (@remove_fences_fenced ws1 tag inner ws2 H1 H2 Htag Hin).
  rewrite (@strip_surrounded ws1 inner ws2 H1 H2).
  unfold loads_and_return. rewrite Hl. cbn [returned_for].
  assert (Hs : strip (ws1 ++ fence ++ tag ++ inner ++ fence ++ ws2) <> []).
  { change (fence ++ tag ++ inner ++ fence ++ ws2)
      with (96%N :: (lit "``" ++ tag ++ inner ++ fence ++ ws2)).
    unfold strip. rewrite lstrip_all_space by exact H1.
    rewrite lstrip_nonspace by reflexivity.
    change (96%N :: (lit "``" ++ tag ++ inner ++ fence ++ ws2))
      with ([] ++ 96%N :: (lit "``" ++ tag ++ inner ++ fence ++ ws2)).
    rewrite rstrip_app_nonspace by reflexivity. discriminate. }
  destruct (strip (ws1 ++ fence ++ tag ++ inner ++ fence ++ ws2));
    [contradiction | reflexivity].
Qed.

(** Strategy 2 on an object with text before it. *)
Lemma clean_json_response_wrapped env (pre mid post : str) members :
  contains fence (pre ++ (123%N :: mid ++ [125%N]) ++ post) = false ->
  ~ In 91%N (pre ++ (123%N :: mid ++ [125%N]) ++ post) ->
  ~ In 123%N pre -> ~ In 125%N post -> lstrip pre <> [] ->
  loads (123%N :: mid ++ [125%N]) = Some (JObj members) ->
  clean_json_response env (pre ++ (123%N :: mid ++ [125%N]) ++ post) = [JObj members].
Proof.
  intros Hf Hb Hpre Hpost Hne Hl. unfold clean_json_response.
  rewrite remove_fences_no_fence by exact Hf.
  assert (Ht : pre ++ (123%N :: mid ++ [125%N]) ++ post
               = pre ++ 123%N :: mid ++ 125%N :: post).
  { simpl. now rewrite <- app_assoc. }
  assert (Hs : strip (pre ++ (123%N :: mid ++ [125%N]) ++ post)
               = lstrip pre ++ 123%N :: mid ++ 125%N :: rstrip post).
  { rewrite Ht. now apply strip_around. }
  rewrite Hs.
  destruct (lstrip pre) as [|c0 pre'] eqn:Epre; [contradiction|].
  assert (Hc0 : isspace c0 = false).
  { pose proof (lstrip_head pre) as H. now rewrite Epre in H. }
  assert (Hin0 : In c0 pre).
  { apply lstrip_incl. rewrite Epre. now left. }
  cbn [app].
  assert (S1 : loads_and_return (c0 :: pre' ++ 123%N :: mid ++ 125%N :: rstrip post) = None).
  { destruct (loads_and_return _) as [l|] eqn:E; [|reflexivity].
    apply loads_and_return_head in E. rewrite skip_ws_nonspace in E by exact Hc0.
    destruct E as [s' [E | E]]; inversion E; subst; exfalso.
    - apply Hb. apply in_or_app. now left.
    - now apply Hpre. }
  rewrite S1. unfold strategy2.
  rewrite findall_span_none.
  2:{ intros H. apply Hb. apply strip_incl. rewrite Hs. exact H. }
  cbn [try_matches first_some].
  change (c0 :: pre' ++ 123%N :: mid ++ 125%N :: rstrip post)
    with ((c0 :: pre') ++ 123%N :: mid ++ 125%N :: rstrip post).
  rewrite findall_span_exact.
  - cbn [try_matches]. unfold loads_and_return.
    match goal with
    | |- context [loads ?x] =>
        replace (loads x) with (Some (JObj members)) by (symmetry; exact Hl)
    end.
    reflexivity.
  - rewrite <- Epre. intros H. now apply Hpre, lstrip_incl.
  - intros H. now apply Hpost, rstrip_incl.
Qed.

(** A text without bracket and brace goes through the four strategies
    and leaves nothing. *)
Lemma clean_json_response_no_bracket env t :
  ~ In 91%N t -> ~ In 123%N t -> clean_json_response env t = [].
Proof.
  intros H1 H2. unfold clean_json_response.
  destruct (strip t); [reflexivity|].
  set (text := strip (remove_fences t)).
  assert (T1 : ~ In 91%N text).
  { intros H. apply H1. eapply remove_fences_from_incl. eapply strip_incl. exact H. }
  assert (T2 : ~ In 123%N text).
  { intros H. apply H2. eapply remove_fences_from_incl. eapply strip_incl. exact H. }
  rewrite loads_and_return_no_bracket by assumption.
  unfold strategy2. rewrite !findall_span_none by assumption.
  cbn [try_matches first_some].
  assert (J : drop_leading_junk text = []).
  { clearbody text. induction text as [|x r IH]; [reflexivity|]. simpl.
    destruct (N.eqb_spec x 91); [exfalso; apply T1; now left|].
    destruct (N.eqb_spec x 123); [exfalso; apply T2; now left|].
    simpl. apply IH; intros H; [apply T1 | apply T2]; now right. }
  unfold strategy3_text. rewrite J. reflexivity.
Qed.

(** ** Texts that open with a single-quoted key *)

Lemma scan_once_brace_quote fuel (x : str) : scan_once fuel (123%N :: 39%N :: x) = None.
Proof. destruct fuel; reflexivity. Qed.

Lemma scan_once_bracket_brace_quote fuel (b : str) :
  b = [] \/ (exists x, b = 39%N :: x) -> scan_once fuel (91%N :: 123%N :: b) = None.
Proof.
  intros [-> | [x ->]]; destruct fuel as [|[|[|fuel]]]; reflexivity.
Qed.

Lemma loads_and_return_brace_quote (x : str) :
  loads_and_return (123%N :: 39%N :: x) = None.
Proof.
  unfold loads_and_return, loads.
  change (skip_ws (123%N :: 39%N :: x)) with (123%N :: 39%N :: x).
  now rewrite scan_once_brace_quote.
Qed.

Lemma loads_and_return_bracket_brace_quote (b : str) :
  b = [] \/ (exists x, b = 39%N :: x) -> loads_and_return (91%N :: 123%N :: b) = None.
Proof.
  intros H. unfold loads_and_return, loads.
  change (skip_ws (91%N :: 123%N :: b)) with (91%N :: 123%N :: b).
  now rewrite scan_once_bracket_brace_quote.
Qed.

(** The one match of a span pattern is no JSON when no prefix of the text
    after the opening bracket makes one. *)
Lemma try_matches_span o c (after : str) :
  (forall b q, after = b ++ q -> b <> [] -> loads_and_return (o :: b) = None) ->
  try_matches
    match rev (drop_until c (rev after)) with
    | [] => []
    | body => [o :: body]
    end = None.
Proof.
  intros H. destruct (up_to_last_prefix c after) as [q Hq].
  destruct (rev (drop_until c (rev after))) as [|b0 b'] eqn:E; [reflexivity|].
  cbn [try_matches]. rewrite (H (b0 :: b') q Hq); [reflexivity | discriminate].
Qed.

Lemma findall_span_head o c (after : str) :
  findall_span o c (o :: after)
  = match rev (drop_until c (rev after)) with
    | [] => []
    | body => [o :: body]
    end.
Proof. unfold findall_span. simpl. now rewrite N.eqb_refl. Qed.

Lemma findall_span_skip o c x (s : str) :
  x <> o -> findall_span o c (x :: s) = findall_span o c s.
Proof.
  intros H. unfold findall_span. simpl.
  destruct (N.eqb_spec x o); [contradiction | reflexivity].
Qed.

Lemma strategy12_single_quoted (x : str) :
  loads_and_return (91%N :: 123%N :: 39%N :: x) = None /\
  strategy2 (91%N :: 123%N :: 39%N :: x) = None.
Proof.
  split.
  - apply loads_and_return_bracket_brace_quote. right. now exists x.
  - unfold strategy2.
    rewrite (@findall_span_skip 123%N 125%N 91%N) by discriminate.
    rewrite !findall_span_head.
    rewrite try_matches_span.
    + cbn [first_some]. apply try_matches_span.
      intros b q Hq Hb. destruct b as [|b0 b]; [contradiction|].
      inversion Hq; subst. apply loads_and_return_brace_quote.
    + intros b q Hq Hb. destruct b as [|b0 b]; [contradiction|].
      inversion Hq as [[E0 E1]]. apply loads_and_return_bracket_brace_quote.
      destruct b as [|b1 b]; [now left|]. right. inversion E1. now exists b.
Qed.

(** ** Plain strings *)

Lemma plain_char_spec c :
  plain_char c = true ->
  (c <? 32)%N = false /\ (c =? 34)%N = false /\ (c =? 39)%N = false /\
  (c =? 58)%N = false /\ (c =? 92)%N = false /\ (c =? 93)%N = false /\
  (c =? 96)%N = false /\ (c =? 125)%N = false.
Proof.
  unfold plain_char. rewrite andb_true_iff, negb_true_iff, !orb_false_iff.
  rewrite N.ltb_antisym. intros [H1 H2]. rewrite H1. simpl. tauto.
Qed.

Lemma plain_without c s : plain_char c = false -> plain s -> ~ In c s.
Proof.
  intros Hc Hs Hin. unfold plain in Hs. rewrite Forall_forall in Hs.
  specialize (Hs _ Hin). congruence.
Qed.

Lemma plain_cons c s : plain (c :: s) -> plain_char c = true /\ plain s.
Proof. intros H. inversion H; subst. now split. Qed.

(** ** The repairs of Strategy 3 on an array of single-quoted cards *)

Section Repairs.

Variable env : Env.

Lemma drop_trailing_junk_closed (s : str) :
  drop_trailing_junk (s ++ [93%N]) = s ++ [93%N].
Proof.
  unfold drop_trailing_junk. rewrite rev_app_distr. simpl.
  now rewrite rev_involutive.
Qed.

(** Characters without colon among them are no key. *)
Lemma quote_keys_from_plain (s : str) : forall run r,
  ~ In 58%N s ->
  quote_keys_from env run (s ++ 39%N :: r)
  = rev run ++ s ++ 39%N :: quote_keys_from env [] r.
Proof.
  induction s as [|c s IH]; intros run r H.
  - simpl. destruct run; reflexivity.
  - assert (Hc : (c =? 58)%N = false).
    { apply N.eqb_neq. intros ->. apply H. now left. }
    assert (Hs : ~ In 58%N s) by (intros Hin; apply H; now right).
    cbn [app quote_keys_from]. destruct (is_word env c).
    + rewrite IH by exact Hs. simpl. now rewrite <- app_assoc.
    + destruct run as [|x run].
      * rewrite IH by exact Hs. reflexivity.
      * rewrite Hc. rewrite IH by exact Hs. reflexivity.
Qed.

Lemma quote_keys_card qa (rest : str) :
  plain_card qa ->
  quote_keys_from env [] (single_quoted_card qa ++ rest)
  = single_quoted_card qa ++ quote_keys_from env [] rest.
Proof.
  destruct qa as [q a]. intros [Hq Ha]. cbn [fst snd] in *.
  assert (Nq : ~ In 58%N q) by (now apply plain_without).
  assert (Na : ~ In 58%N a) by (now apply plain_without).
  unfold single_quoted_card. cbn [fst snd]. rewrite <- !app_assoc.
  cbn. rewrite quote_keys_from_plain by exact Nq.
  cbn. rewrite quote_keys_from_plain by exact Na.
  cbn. reflexivity.
Qed.

Lemma quote_keys_cards cards :
  Forall plain_card cards ->
  quote_keys_from env [] (concat (map single_quoted_card cards) ++ [93%N])
  = concat (map single_quoted_card cards) ++ [93%N].
Proof.
  induction 1 as [|qa cards Hqa _ IH]; [reflexivity|].
  cbn [map concat]. rewrite <- !app_assoc.
  rewrite quote_keys_card by exact Hqa. now rewrite IH.
Qed.

(** A single-quoted stretch gets double quotes. *)
Lemma requote_from_inside (s : str) : forall acc r,
  ~ In 39%N s ->
  requote_from (Some acc) (s ++ 39%N :: r)
  = 34%N :: rev acc ++ s ++ 34%N :: requote_from None r.
Proof.
  induction s as [|c s IH]; intros acc r H.
  - reflexivity.
  - assert (Hc : (c =? 39)%N = false).
    { apply N.eqb_neq. intros ->. apply H. now left. }
    cbn [app requote_from]. rewrite Hc. rewrite IH.
    + simpl. now rewrite <- app_assoc.
    + intros Hin. apply H. now right.
Qed.

Lemma requote_card qa (rest : str) :
  plain_card qa ->
  requote_from None (single_quoted_card qa ++ rest)
  = requoted_card qa ++ requote_from None rest.
Proof.
  destruct qa as [q a]. intros [Hq Ha]. cbn [fst snd] in *.
  assert (Nq : ~ In 39%N q) by (now apply plain_without).
  assert (Na : ~ In 39%N a) by (now apply plain_without).
  unfold single_quoted_card, requoted_card, quoted, dq. cbn [fst snd].
  rewrite <- !app_assoc.
  cbn. rewrite requote_from_inside by exact Nq.
  cbn. rewrite requote_from_inside by exact Na.
  cbn. reflexivity.
Qed.

Lemma requote_cards cards :
  Forall plain_card cards ->
  requote_from None (concat (map single_quoted_card cards) ++ [93%N])
  = concat (map requoted_card cards) ++ [93%N].
Proof.
  induction 1 as [|qa cards Hqa _ IH]; [reflexivity|].
  cbn [map concat]. rewrite <- !app_assoc.
  rewrite requote_card by exact Hqa. now rewrite IH.
Qed.

(** The commas of a stretch without closing bracket stay. *)
Lemma drop_trailing_commas_from_plain (s : str) : forall pending r,
  ~ In 93%N s -> ~ In 125%N s ->
  drop_trailing_commas_from pending (s ++ 34%N :: r)
  = pending_comma pending ++ s ++ 34%N :: drop_trailing_commas_from None r.
Proof.
  induction s as [|c s IH]; intros pending r H1 H2.
  - destruct pending; reflexivity.
  - assert (Hc : ((c =? 125) || (c =? 93))%N = false).
    { apply orb_false_iff. split; apply N.eqb_neq; intros ->;
        [apply H2 | apply H1]; now left. }
    assert (S1 : ~ In 93%N s) by (intros Hin; apply H1; now right).
    assert (S2 : ~ In 125%N s) by (intros Hin; apply H2; now right).
    cbn [app drop_trailing_commas_from]. destruct pending as [ws|].
    + destruct (isspace c).
      * rewrite IH by assumption. simpl. now rewrite <- app_assoc.
      * rewrite Hc. destruct (N.eqb_spec c 44).
        -- subst. rewrite IH by assumption. reflexivity.
        -- rewrite IH by assumption. reflexivity.
    + destruct (N.eqb_spec c 44).
      * subst. rewrite IH by assumption. reflexivity.
      * rewrite IH by assumption. reflexivity.
Qed.

Lemma drop_trailing_commas_card pending qa (rest : str) :
  pending = None \/ pending = Some [] ->
  plain_card qa ->
  drop_trailing_commas_from pending (requoted_card qa ++ rest)
  = pending_comma pending ++ repaired_card qa
    ++ drop_trailing_commas_from (Some []) rest.
Proof.
  destruct qa as [q a]. intros Hp [Hq Ha]. cbn [fst snd] in *.
  assert (Q1 : ~ In 93%N q) by (now apply plain_without).
  assert (Q2 : ~ In 125%N q) by (now apply plain_without).
  assert (A1 : ~ In 93%N a) by (now apply plain_without).
  assert (A2 : ~ In 125%N a) by (now apply plain_without).
  unfold requoted_card, repaired_card, quoted, dq. cbn [fst snd].
  rewrite <- !app_assoc.
  destruct Hp as [-> | ->].
  - cbn. rewrite drop_trailing_commas_from_plain by assumption.
    cbn. rewrite drop_trailing_commas_from_plain by assumption.
    cbn. reflexivity.
  - cbn. rewrite drop_trailing_commas_from_plain by assumption.
    cbn. rewrite drop_trailing_commas_from_plain by assumption.
    cbn. reflexivity.
Qed.

Lemma drop_trailing_commas_cards cards :
  Forall plain_card cards ->
  drop_trailing_commas_from (Some []) (concat (map requoted_card cards) ++ [93%N])
  = repaired_tail cards.
Proof.
  induction 1 as [|qa cards Hqa _ IH]; [reflexivity|].
  cbn [map concat repaired_tail]. rewrite <- !app_assoc.
  rewrite drop_trailing_commas_card by (auto || exact Hqa).
  now rewrite IH.
Qed.

Lemma drop_trailing_commas_array cards :
  Forall plain_card cards ->
  drop_trailing_commas (91%N :: concat (map requoted_card cards) ++ [93%N])
  = repaired_array cards.
Proof.
  intros H. unfold drop_trailing_commas, repaired_array.
  change (lit "[" ++ ?x) with (91%N :: x).
  cbn [drop_trailing_commas_from]. change (91 =? 44)%N with false. cbv iota.
  f_equal. destruct H as [|qa cards Hqa H]; [reflexivity|].
  cbn [map concat]. rewrite <- !app_assoc.
  rewrite drop_trailing_commas_card by (auto || exact Hqa).
  now rewrite drop_trailing_commas_cards.
Qed.

(** Without line feed there is no broken string to join. *)
Lemma join_broken_strings_from_no_newline (s : str) :
  ~ In 10%N s ->
  (forall ws, join_broken_strings_from (Some (ws, false)) s = 34%N :: rev ws ++ s)
  /\ join_broken_strings_from None s = s.
Proof.
  induction s as [|c s IH]; intros H.
  - split; [intros ws; simpl; now rewrite app_nil_r | reflexivity].
  - assert (Hc : (c =? 10)%N = false).
    { apply N.eqb_neq. intros ->. apply H. now left. }
    destruct IH as [IH1 IH2]; [intros Hin; apply H; now right|].
    split.
    + intros ws. cbn [join_broken_strings_from]. destruct (isspace c).
      * rewrite Hc. simpl. rewrite IH1. simpl. now rewrite <- app_assoc.
      * destruct (N.eqb_spec c 34).
        -- subst. rewrite IH1. reflexivity.
        -- now rewrite IH2.
    + cbn [join_broken_strings_from]. destruct (N.eqb_spec c 34).
      * subst. now rewrite IH1.
      * now rewrite IH2.
Qed.

Lemma join_broken_strings_no_newline (s : str) :
  ~ In 10%N s -> join_broken_strings s = s.
Proof. intros H. now apply join_broken_strings_from_no_newline. Qed.

End Repairs.

(** ** The characters of the arrays *)

Lemma not_in_single_quoted_array x cards :
  ~ In x (lit "[]{}',: questionanswer") ->
  Forall (fun qa => ~ In x (fst qa) /\ ~ In x (snd qa)) cards ->
  ~ In x (single_quoted_array cards).
Proof.
  intros Hx H. unfold single_quoted_array.
  assert (Hc : ~ In x (concat (map single_quoted_card cards))).
  { induction H as [|qa cards [Hq Ha] _ IH]; [simpl; tauto|].
    cbn [map concat]. unfold single_quoted_card at 1.
    rewrite !in_app_iff. simpl in *. tauto. }
  rewrite !in_app_iff. simpl in *. tauto.
Qed.

Lemma not_in_repaired_array x cards :
  ~ In x (lit "[]{},: questionanswer") -> x <> 34%N ->
  Forall (fun qa => ~ In x (fst qa) /\ ~ In x (snd qa)) cards ->
  ~ In x (repaired_array cards).
Proof.
  intros Hx Hd H.
  assert (Hc : forall qa, ~ In x (fst qa) /\ ~ In x (snd qa) -> ~ In x (repaired_card qa)).
  { intros qa [Hq Ha]. unfold repaired_card, quoted, dq.
    rewrite !in_app_iff. simpl in *. intuition congruence. }
  assert (Ht : forall l, Forall (fun qa => ~ In x (fst qa) /\ ~ In x (snd qa)) l ->
                         ~ In x (repaired_tail l)).
  { induction 1 as [|qa l Hqa _ IH]; [simpl in *; tauto|].
    cbn [repaired_tail]. rewrite !in_app_iff. specialize (Hc _ Hqa).
    simpl in *. tauto. }
  unfold repaired_array. destruct H as [|qa cards Hqa H].
  - simpl in *. tauto.
  - rewrite !in_app_iff. specialize (Hc _ Hqa). specialize (Ht _ H).
    simpl in *. tauto.
Qed.

Lemma plain_cards_without x cards :
  plain_char x = false -> Forall plain_card cards ->
  Forall (fun qa => ~ In x (fst qa) /\ ~ In x (snd qa)) cards.
Proof.
  intros Hx. apply Forall_impl. intros qa [Hq Ha].
  split; now apply plain_without.
Qed.

(** ** [json.loads] on the repaired array *)

Lemma join_surrogates_plain (s : str) : join_surrogates (map (pair false) s) = s.
Proof.
  induction s as [|c s IH]; [reflexivity|].
  destruct s as [|c' s]; [reflexivity|].
  change (join_surrogates (map (pair false) (c :: c' :: s)))
    with (c :: join_surrogates (map (pair false) (c' :: s))).
  now rewrite IH.
Qed.

Lemma scan_units_plain (s : str) : forall acc r,
  plain s ->
  scan_units (s ++ 34%N :: r) acc = Some (rev acc ++ map (pair false) s, r).
Proof.
  induction s as [|c s IH]; intros acc r H.
  - simpl. now rewrite app_nil_r.
  - apply plain_cons in H. destruct H as [Hc Hs].
    apply plain_char_spec in Hc.
    destruct Hc as (C1 & C2 & _ & _ & C3 & _).
    cbn [app scan_units]. rewrite C1, C2, C3. rewrite IH by exact Hs.
    simpl. now rewrite <- app_assoc.
Qed.

(** A plain string is read as it is written. *)
Lemma scanstring_plain (s r : str) :
  plain s -> scanstring (s ++ 34%N :: r) = Some (s, r).
Proof.
  intros H. unfold scanstring. rewrite scan_units_plain by exact H.
  simpl. now rewrite join_surrogates_plain.
Qed.

Lemma plain_question : plain (lit "question").
Proof. repeat constructor. Qed.

Lemma plain_answer : plain (lit "answer").
Proof. repeat constructor. Qed.

(** A card takes four levels of the parser: the object, its members, and
    a value. *)
Lemma scan_once_card fuel qa (rest : str) :
  plain_card qa ->
  scan_once (4 + fuel) (repaired_card qa ++ rest) = Some (flashcard_of qa, rest).
Proof.
  destruct qa as [q a]. intros [Hq Ha]. cbn [fst snd] in *.
  unfold repaired_card, flashcard_of, quoted, dq. cbn [fst snd].
  pose proof plain_question as HQ. pose proof plain_answer as HA.
  remember (lit "question") as kq eqn:Ekq.
  remember (lit "answer") as ka eqn:Eka.
  rewrite <- !app_assoc.
  cbn -[scanstring]. rewrite (scanstring_plain _ HQ).
  cbn -[scanstring]. rewrite (scanstring_plain _ Hq).
  cbn -[scanstring]. rewrite (scanstring_plain _ HA).
  cbn -[scanstring]. rewrite (scanstring_plain _ Ha).
  cbn -[scanstring]. subst kq ka. reflexivity.
Qed.

Lemma parse_elements_step fuel (s : str) acc :
  parse_elements (S fuel) s acc
  = match scan_once fuel s with
    | None => None
    | Some (v, r) =>
        match skip_ws r with
        | [] => None
        | c :: r' =>
            if (c =? 93)%N then Some (JArr (rev (v :: acc)), r')
            else if (c =? 44)%N then parse_elements fuel (skip_ws r') (v :: acc)
            else None
        end
    end.
Proof. reflexivity. Qed.

Lemma repaired_card_head qa (rest : str) :
  exists x, repaired_card qa ++ rest = 123%N :: x.
Proof. eexists. reflexivity. Qed.

(** The cards of an array take one more level each. *)
Lemma parse_elements_cards cards : forall qa fuel acc,
  Forall plain_card (qa :: cards) ->
  parse_elements (5 + length cards + fuel) (repaired_card qa ++ repaired_tail cards) acc
  = Some (JArr (rev acc ++ map flashcard_of (qa :: cards)), []).
Proof.
  induction cards as [|qa' cards IH]; intros qa fuel acc H;
    inversion H as [|? ? Hqa Hrest]; subst.
  - change (5 + length (@nil (str * str)) + fuel)%nat with (S (4 + fuel)).
    rewrite parse_elements_step, scan_once_card by exact Hqa.
    reflexivity.
  - change (5 + length (qa' :: cards) + fuel)%nat
      with (S (4 + (1 + length cards + fuel))).
    rewrite parse_elements_step, scan_once_card by exact Hqa.
    cbn [repaired_tail].
    change (skip_ws (lit "," ++ repaired_card qa' ++ repaired_tail cards))
      with (44%N :: repaired_card qa' ++ repaired_tail cards).
    change (44 =? 93)%N with false. change (44 =? 44)%N with true. cbv iota.
    destruct (repaired_card_head qa' (repaired_tail cards)) as [x Hx].
    rewrite Hx. change (skip_ws (123%N :: x)) with (123%N :: x). rewrite <- Hx.
    change (4 + (1 + length cards + fuel))%nat with (5 + length cards + fuel)%nat.
    rewrite IH by exact Hrest. cbn [rev map]. now rewrite <- app_assoc.
Qed.

Lemma repaired_tail_length cards : (length cards <= length (repaired_tail cards))%nat.
Proof.
  induction cards as [|qa cards IH]; [simpl; lia|].
  cbn [repaired_tail]. rewrite !length_app. simpl. lia.
Qed.

Lemma repaired_array_length qa cards :
  (length cards + 2 <= length (repaired_array (qa :: cards)))%nat.
Proof.
  pose proof (repaired_tail_length cards) as Hl.
  unfold repaired_array, repaired_card. rewrite !length_app. simpl. lia.
Qed.

Lemma scan_once_repaired_array qa cards fuel :
  Forall plain_card (qa :: cards) ->
  (6 + length cards <= fuel)%nat ->
  scan_once fuel (repaired_array (qa :: cards))
  = Some (JArr (map flashcard_of (qa :: cards)), []).
Proof.
  intros H Hf.
  replace fuel with (S (5 + length cards + (fuel - 6 - length cards)))%nat by lia.
  destruct (repaired_card_head qa (repaired_tail cards)) as [x Hx].
  pose proof (@parse_elements_cards cards qa (fuel - 6 - length cards)%nat [] H) as P.
  cbn [rev app] in P. rewrite <- P.
  unfold repaired_array.
  change (lit "[" ++ repaired_card qa ++ repaired_tail cards)
    with (91%N :: repaired_card qa ++ repaired_tail cards).
  rewrite Hx. reflexivity.
Qed.

(** The repaired array is the JSON of its cards. *)
Lemma loads_repaired_array cards :
  Forall plain_card cards ->
  loads (repaired_array cards) = Some (JArr (map flashcard_of cards)).
Proof.
  intros H. destruct cards as [|qa cards]; [reflexivity|].
  unfold loads.
  change (skip_ws (repaired_array (qa :: cards))) with (repaired_array (qa :: cards)).
  rewrite scan_once_repaired_array; [reflexivity | exact H |].
  pose proof (repaired_array_length qa cards). lia.
Qed.

(** ** Strategy 3 on the array of single-quoted cards *)

Lemma strip_bracketed o c (m : str) :
  isspace o = false -> isspace c = false -> strip (o :: m ++ [c]) = o :: m ++ [c].
Proof. intros Ho Hc. now apply (@strip_around [] o m c []). Qed.

Lemma remove_fences_no_backquote (s : str) : ~ In 96%N s -> remove_fences s = s.
Proof.
  intros H. unfold remove_fences. rewrite <- (app_nil_r s) at 1.
  rewrite remove_fences_from_app by exact H. simpl. apply app_nil_r.
Qed.

Lemma strategy3_text_single_quoted env cards :
  Forall plain_card cards ->
  strategy3_text env (single_quoted_array cards) = repaired_array cards.
Proof.
  intros H. unfold strategy3_text, single_quoted_array.
  change (lit "[" ++ concat (map single_quoted_card cards) ++ lit "]")
    with (91%N :: concat (map single_quoted_card cards) ++ [93%N]).
  change (drop_leading_junk (91%N :: concat (map single_quoted_card cards) ++ [93%N]))
    with (91%N :: concat (map single_quoted_card cards) ++ [93%N]).
  change (91%N :: concat (map single_quoted_card cards) ++ [93%N])
    with ((91%N :: concat (map single_quoted_card cards)) ++ [93%N]).
  rewrite drop_trailing_junk_closed.
  change (quote_keys env ((91%N :: concat (map single_quoted_card cards)) ++ [93%N]))
    with (91%N :: quote_keys_from env [] (concat (map single_quoted_card cards) ++ [93%N])).
  rewrite quote_keys_cards by exact H.
  change (requote (91%N :: concat (map single_quoted_card cards) ++ [93%N]))
    with (91%N :: requote_from None (concat (map single_quoted_card cards) ++ [93%N])).
  rewrite requote_cards by exact H.
  rewrite drop_trailing_commas_array by exact H.
  apply join_broken_strings_no_newline.
  apply not_in_repaired_array.
  - simpl. intuition discriminate.
  - discriminate.
  - now apply plain_cards_without.
Qed.

(** What Strategy 3 returns when the first two strategies find nothing. *)
Lemma clean_json_response_strategy3 env t items :
  strip t <> [] ->
  loads_and_return (strip (remove_fences t)) = None ->
  strategy2 (strip (remove_fences t)) = None ->
  loads_and_return (strategy3_text env (strip (remove_fences t))) = Some items ->
  clean_json_response env t = items.
Proof.
  intros H0 H1 H2 H3. unfold clean_json_response.
  destruct (strip t); [contradiction|]. now rewrite H1, H2, H3.
Qed.

(** Strategy 3 on an array of single-quoted cards with trailing commas. *)
Lemma clean_json_response_single_quoted env cards :
  Forall plain_card cards ->
  clean_json_response env (single_quoted_array cards) = map flashcard_of cards.
Proof.
  intros H. destruct cards as [|qa cards]; [reflexivity|].
  assert (Hx : exists x, single_quoted_array (qa :: cards) = 91%N :: 123%N :: 39%N :: x).
  { eexists. reflexivity. }
  assert (Hs : strip (single_quoted_array (qa :: cards)) = single_quoted_array (qa :: cards)).
  { change (single_quoted_array (qa :: cards))
      with (91%N :: concat (map single_quoted_card (qa :: cards)) ++ [93%N]).
    now apply strip_bracketed. }
  assert (Hr : remove_fences (single_quoted_array (qa :: cards))
               = single_quoted_array (qa :: cards)).
  { apply remove_fences_no_backquote. apply not_in_single_quoted_array.
    - simpl. intuition discriminate.
    - now apply plain_cards_without. }
  apply clean_json_response_strategy3; rewrite ?Hr, ?Hs.
  - destruct Hx as [x ->]. discriminate.
  - destruct Hx as [x ->]. apply strategy12_single_quoted.
  - destruct Hx as [x ->]. apply strategy12_single_quoted.
  - rewrite strategy3_text_single_quoted by exact H.
    unfold loads_and_return. now rewrite loads_repaired_array.
Qed.

(** ** The shapes that [clean_json_response] accepts *)

Lemma not_in_existsb c (s : str) : existsb (N.eqb c) s = false -> ~ In c s.
Proof.
  intros H Hin. assert (E : existsb (N.eqb c) s = true).
  { apply existsb_exists. exists c. split; [exact Hin | apply N.eqb_refl]. }
  congruence.
Qed.

Lemma all_space_forallb (s : str) : forallb isspace s = true -> all_space s.
Proof. intros H. apply Forall_forall. now apply forallb_forall. Qed.

Lemma plain_forallb (s : str) : forallb plain_char s = true -> plain s.
Proof. intros H. apply Forall_forall. now apply forallb_forall. Qed.




(** The conditions of the first and of the third shape are needed: a fence
    marker inside a string of a valid array is deleted with the others, and
    a colon after a word inside a single-quoted string is taken for the
    end of a key, after which no strategy finds anything. *)
Example fence_marker_in_a_string_is_deleted :
  loads fence_in_string = Some (JArr [JStr (lit "a```b")])
  /\ clean_json_response quiet_env fence_in_string = [JStr (lit "ab")].
Proof. split; vm_compute; reflexivity. Qed.

Example colon_in_a_single_quoted_string :
  clean_json_response quiet_env single_quoted_colon = [].
Proof. vm_compute. reflexivity. Qed.

(** A bracket in a text that is no JSON is enough for Strategy 2 to find
    an array. *)
Example citation_is_taken_for_an_array :
  clean_json_response quiet_env (lit "see [1]") = [JInt 1].
Proof. vm_compute. reflexivity. Qed.

(* ===================================================================== *)
(** * Further properties of the code *)
(* ===================================================================== *)

(** ** The dictionary and [SimpleCache] *)

Section Dictionary.

Variable V : Type.

Lemma PyDict_get_set_same (d : PyDict.dict V) k v :
  PyDict.get (PyDict.set d k v) k = Some v.
Proof.
  induction d as [|[k0 v0] d IH]; simpl.
  - now rewrite str_eqb_refl.
  - destruct (PyStr.eqb k0 k) eqn:E; simpl; rewrite E; [reflexivity | exact IH].
Qed.

Lemma PyDict_get_set_other (d : PyDict.dict V) k v k' :
  k' <> k -> PyDict.get (PyDict.set d k v) k' = PyDict.get d k'.
Proof.
  intros Hk. induction d as [|[k0 v0] d IH]; simpl.
  - destruct (PyStr.eqb k k') eqn:E; [|reflexivity].
    apply str_eqb_eq in E. congruence.
  - destruct (PyStr.eqb k0 k) eqn:E; simpl.
    + apply str_eqb_eq in E. subst k0.
      destruct (PyStr.eqb k k') eqn:E'; [|reflexivity].
      apply str_eqb_eq in E'. congruence.
    + now rewrite IH.
Qed.

Lemma PyDict_get_absent (d : PyDict.dict V) k :
  ~ In k (map fst d) -> PyDict.get d k = None.
Proof.
  induction d as [|[k0 v0] d IH]; intros H; simpl; [reflexivity|].
  destruct (PyStr.eqb k0 k) eqn:E.
  - apply str_eqb_eq in E. subst. exfalso. apply H. now left.
  - apply IH. intros Hin. apply H. now right.
Qed.

Lemma PyDict_get_present (d : PyDict.dict V) k v :
  PyDict.get d k = Some v -> In k (map fst d).
Proof.
  induction d as [|[k0 v0] d IH]; simpl; [discriminate|].
  destruct (PyStr.eqb k0 k) eqn:E.
  - apply str_eqb_eq in E. now left.
  - intros H. right. now apply IH.
Qed.

Lemma PyDict_get_in (d : PyDict.dict V) k :
  In k (map fst d) -> exists v, PyDict.get d k = Some v.
Proof.
  induction d as [|[k0 v0] d IH]; [contradiction|]. simpl.
  destruct (PyStr.eqb k0 k) eqn:E; [eauto|].
  intros [Hk | Hin]; [|now apply IH].
  subst k0. now rewrite str_eqb_refl in E.
Qed.

Lemma PyDict_set_keys (d : PyDict.dict V) k v :
  map fst (PyDict.set d k v)
  = if PyDict.mem d k then map fst d else map fst d ++ [k].
Proof.
  unfold PyDict.mem. induction d as [|[k0 v0] d IH]; simpl; [reflexivity|].
  destruct (PyStr.eqb k0 k) eqn:E; simpl; [reflexivity|].
  rewrite IH. now destruct (PyDict.get d k).
Qed.

Lemma PyDict_set_nodup (d : PyDict.dict V) k v :
  NoDup (map fst d) -> NoDup (map fst (PyDict.set d k v)).
Proof.
  intros H. rewrite PyDict_set_keys. unfold PyDict.mem.
  destruct (PyDict.get d k) eqn:E; [exact H|].
  apply NoDup_app; [exact H | repeat constructor; intros [] |].
  intros x Hx [<- | []].
  destruct (PyDict_get_in d k Hx) as [v' Hv']. congruence.
Qed.

Lemma PyDict_size_set (d : PyDict.dict V) k v :
  PyDict.size (PyDict.set d k v)
  = (PyDict.size d + if PyDict.mem d k then 0 else 1)%Z.
Proof.
  unfold PyDict.size.
  rewrite <- (length_map fst (PyDict.set d k v)), PyDict_set_keys.
  destruct (PyDict.mem d k).
  - rewrite length_map. lia.
  - rewrite length_app, length_map. simpl. lia.
Qed.

Lemma PyDict_size_set_le (d : PyDict.dict V) k v :
  (PyDict.size d <= PyDict.size (PyDict.set d k v) <= PyDict.size d + 1)%Z.
Proof. rewrite PyDict_size_set. destruct (PyDict.mem d k); lia. Qed.

End Dictionary.

(** X1. What [SimpleCache.set] stores, [SimpleCache.get] returns: after
    a [set] that did not raise, the key maps to the value, whatever the
    capacity and whatever was evicted. *)
Theorem SimpleCache_set_then_get
    (max_size : Z) (cache cache' : PyDict.dict vector) (key : str) (value : vector)
    (Hset : SimpleCache.set max_size cache key value = Ok cache') :
  SimpleCache.get cache' key = Some value.
Proof.
  unfold SimpleCache.set in Hset. unfold SimpleCache.get.
  destruct (max_size <=? PyDict.size cache)%Z.
  - destruct cache as [|entry rest]; [discriminate|].
    injection Hset as <-. apply PyDict_get_set_same.
  - injection Hset as <-. apply PyDict_get_set_same.
Qed.

Lemma SimpleCache_set_then_get_witness :
  SimpleCache.set 2 [(lit "a", [1]); (lit "b", [2])] (lit "c") [3]
  = Ok [(lit "b", [2]); (lit "c", [3])]
  /\ SimpleCache.get [(lit "b", [2]); (lit "c", [3])] (lit "c") = Some [3].
Proof.
  split; [reflexivity|].
  apply (@SimpleCache_set_then_get 2 [(lit "a", [1]); (lit "b", [2])]
           [(lit "b", [2]); (lit "c", [3])] (lit "c") [3]).
  reflexivity.
Defined.

(** X2. A cache with room for at least one entry never grows beyond its
    capacity, and [set] does not raise on it. With a capacity of zero or
    less, [set] on the empty cache raises [StopIteration]: there is no
    oldest entry to evict. *)
Theorem SimpleCache_set_keeps_capacity
    (max_size : Z) (cache : PyDict.dict vector) (key : str) (value : vector) :
  ((1 <= max_size)%Z -> (PyDict.size cache <= max_size)%Z ->
   exists cache',
     SimpleCache.set max_size cache key value = Ok cache'
     /\ (PyDict.size cache' <= max_size)%Z)
  /\ ((max_size <= 0)%Z ->
      SimpleCache.set max_size [] key value = Raise (lit "StopIteration")).
Proof.
  split.
  - intros Hmax Hsize. unfold SimpleCache.set.
    destruct (Z.leb_spec max_size (PyDict.size cache)) as [Hfull | Hroom].
    + destruct cache as [|entry rest].
      * unfold PyDict.size in Hfull. simpl in Hfull. lia.
      * eexists. split; [reflexivity|].
        pose proof (PyDict_size_set_le rest key value) as Hs.
        unfold PyDict.size in *. simpl length in Hsize. lia.
    + eexists. split; [reflexivity|].
      pose proof (PyDict_size_set_le cache key value) as Hs. lia.
  - intros Hmax. unfold SimpleCache.set.
    destruct (Z.leb_spec max_size (PyDict.size (@nil (str * vector)))) as [_ | H];
      [reflexivity|].
    unfold PyDict.size in H. simpl in H. lia.
Qed.

Lemma SimpleCache_set_keeps_capacity_witness :
  (exists cache',
     SimpleCache.set 2 [(lit "a", [1]); (lit "b", [2])] (lit "c") [3] = Ok cache'
     /\ (PyDict.size cache' <= 2)%Z)
  /\ SimpleCache.set 0 [] (lit "c") [3] = Raise (lit "StopIteration").
Proof.
  destruct (SimpleCache_set_keeps_capacity 2 [(lit "a", [1]); (lit "b", [2])]
              (lit "c") [3]) as [H _].
  destruct (SimpleCache_set_keeps_capacity 0 [] (lit "c") [3]) as [_ H0].
  split; [apply H; vm_compute; discriminate | apply H0; lia].
Defined.

(** X3. Eviction is first in, first out: when the cache is full, a [set]
    of a key other than the oldest one removes the oldest entry, stores
    the new value, and leaves every other entry as it was. *)
Theorem SimpleCache_set_evicts_oldest
    (max_size : Z) (oldest : str) (v0 : vector) (rest : PyDict.dict vector)
    (key : str) (value : vector)
    (Hkeys : NoDup (map fst ((oldest, v0) :: rest)))
    (Hfull : (max_size <= PyDict.size ((oldest, v0) :: rest))%Z)
    (Hkey : key <> oldest) :
  exists cache',
    SimpleCache.set max_size ((oldest, v0) :: rest) key value = Ok cache'
    /\ SimpleCache.get cache' oldest = None
    /\ SimpleCache.get cache' key = Some value
    /\ (forall k, k <> oldest -> k <> key ->
          SimpleCache.get cache' k = SimpleCache.get ((oldest, v0) :: rest) k)
    /\ NoDup (map fst cache').
Proof.
  unfold SimpleCache.set. apply Z.leb_le in Hfull. rewrite Hfull.
  eexists. split; [reflexivity|]. unfold SimpleCache.get.
  inversion Hkeys as [|? ? Hnotin Hrest]; subst.
  split; [|split; [|split]].
  - rewrite PyDict_get_set_other by congruence. now apply PyDict_get_absent.
  - apply PyDict_get_set_same.
  - intros k Hk1 Hk2. rewrite PyDict_get_set_other by exact Hk2.
    simpl. destruct (PyStr.eqb oldest k) eqn:E; [|reflexivity].
    apply str_eqb_eq in E. congruence.
  - now apply PyDict_set_nodup.
Qed.

Lemma SimpleCache_set_evicts_oldest_witness :
  exists cache',
    SimpleCache.set 2 [(lit "a", [1]); (lit "b", [2])] (lit "c") [3] = Ok cache'
    /\ SimpleCache.get cache' (lit "a") = None
    /\ SimpleCache.get cache' (lit "b") = Some [2].
Proof.
  destruct (@SimpleCache_set_evicts_oldest 2 (lit "a") [1] [(lit "b", [2])]
              (lit "c") [3])
    as (cache' & Hset & Hold & _ & Hother & _).
  - repeat constructor; simpl; intuition discriminate.
  - vm_compute. discriminate.
  - discriminate.
  - exists cache'. split; [exact Hset|]. split; [exact Hold|].
    rewrite Hother by discriminate. reflexivity.
Defined.

(** ** [create_embeddings] and its cache *)

Section EmbeddingCache.

Variable env : Env.

Lemma cache_after_cons cache t v pairs :
  cache_after env cache ((t, v) :: pairs)
  = cache_after env (PyDict.set cache (_hash_content env t) v) pairs.
Proof. reflexivity. Qed.

Lemma cache_after_other pairs : forall cache k,
  ~ In k (map (fun p => _hash_content env (fst p)) pairs) ->
  PyDict.get (cache_after env cache pairs) k = PyDict.get cache k.
Proof.
  induction pairs as [|[t v] pairs IH]; intros cache k H; [reflexivity|].
  rewrite cache_after_cons, IH.
  - apply PyDict_get_set_other. intros ->. apply H. now left.
  - intros Hin. apply H. now right.
Qed.

Lemma cache_after_in pairs : forall cache t v,
  NoDup (map (fun p => _hash_content env (fst p)) pairs) ->
  In (t, v) pairs ->
  PyDict.get (cache_after env cache pairs) (_hash_content env t) = Some v.
Proof.
  induction pairs as [|[t0 v0] pairs IH]; intros cache t v Hnd Hin; [contradiction|].
  inversion Hnd as [|? ? Hnotin Hnd']; subst. rewrite cache_after_cons.
  destruct Hin as [Heq | Hin].
  - inversion Heq; subst.
    rewrite cache_after_other by exact Hnotin. apply PyDict_get_set_same.
  - now apply IH.
Qed.

Lemma cache_after_size pairs : forall cache,
  (PyDict.size (cache_after env cache pairs)
   <= PyDict.size cache + Z.of_nat (length pairs))%Z.
Proof.
  induction pairs as [|[t v] pairs IH]; intros cache; [simpl; lia|].
  rewrite cache_after_cons. simpl length.
  specialize (IH (PyDict.set cache (_hash_content env t) v)).
  pose proof (PyDict_size_set_le cache (_hash_content env t) v). lia.
Qed.

(** With room for every pair, the update loop evicts nothing. *)
Lemma update_loop_no_eviction pairs : forall w,
  (PyDict.size (embedding_cache w) + Z.of_nat (length pairs)
   <= settings.vector.max_cache_size)%Z ->
  update_loop env pairs w
  = (Ok tt, set_embedding_cache (cache_after env (embedding_cache w) pairs) w).
Proof.
  induction pairs as [|[t v] pairs IH]; intros w H.
  - simpl. unfold ret. now destruct w.
  - simpl length in H. cbn [update_loop].
    unfold bind at 1. unfold get_state at 1.
    unfold bind at 1. unfold lift_outcome at 1. unfold SimpleCache.set.
    destruct (Z.leb_spec settings.vector.max_cache_size (PyDict.size (embedding_cache w)))
      as [Hfull | _]; [lia|].
    unfold bind at 1. unfold modify at 1.
    rewrite IH.
    + reflexivity.
    + simpl embedding_cache.
      pose proof (PyDict_size_set_le (embedding_cache w) (_hash_content env t) v). lia.
Qed.

Lemma cache_misses_nil_iff cache texts :
  cache_misses env cache texts = []
  <-> Forall (fun t => SimpleCache.get cache (_hash_content env t) <> None) texts.
Proof.
  induction texts as [|t ts IH].
  - split; [constructor | reflexivity].
  - rewrite cache_misses_cons.
    destruct (SimpleCache.get cache (_hash_content env t)) eqn:E.
    + rewrite IH. split.
      * intros H. constructor; [congruence | exact H].
      * intros H. now inversion H.
    + split; [discriminate|]. intros H. inversion H. congruence.
Qed.

Lemma cache_misses_miss cache texts t :
  In t (cache_misses env cache texts) ->
  SimpleCache.get cache (_hash_content env t) = None.
Proof.
  unfold cache_misses. rewrite filter_In. intros [_ H].
  unfold PyDict.mem, SimpleCache.get in *.
  now destruct (PyDict.get cache (_hash_content env t)).
Qed.

Lemma merge_in_order_cached cache texts :
  cache_misses env cache texts = [] ->
  Forall2 (fun t v => SimpleCache.get cache (_hash_content env t) = Some v)
    texts (merge_in_order env cache texts []).
Proof.
  induction texts as [|t ts IH]; intros H; [constructor|].
  rewrite cache_misses_cons in H. simpl.
  destruct (SimpleCache.get cache (_hash_content env t)) eqn:E; [|discriminate].
  constructor; [exact E | now apply IH].
Qed.

(** A batch that is cached in full does not reach the model. *)
Lemma create_embeddings_hit w texts :
  cache_misses env (embedding_cache w) texts = [] ->
  create_embeddings env texts w
  = (Ok (merge_in_order env (embedding_cache w) texts []), w).
Proof.
  intros H.
  destruct (@create_embeddings_run env w texts []) as [c Hc].
  - intros Hne. contradiction.
  - now rewrite H.
  - rewrite Hc, H. reflexivity.
Qed.

(** The run of [create_embeddings] when the cache has room for what the
    model returns. *)
Lemma create_embeddings_stores w texts news :
  cache_misses env (embedding_cache w) texts <> [] ->
  model_encode env (length (trace w)) (cache_misses env (embedding_cache w) texts)
  = Ok news ->
  (PyDict.size (embedding_cache w)
   + Z.of_nat (length (cache_misses env (embedding_cache w) texts))
   <= settings.vector.max_cache_size)%Z ->
  create_embeddings env texts w
  = (Ok (merge_in_order env (embedding_cache w) texts news),
     set_embedding_cache
       (cache_after env (embedding_cache w)
          (combine (cache_misses env (embedding_cache w) texts) news))
       (log_event (EvEncode (cache_misses env (embedding_cache w) texts)) w)).
Proof.
  intros Hne Henc Hroom. unfold create_embeddings, try_except.
  destruct texts as [|t ts] eqn:Et; [now contradiction Hne|].
  rewrite <- Et in *. clear Et.
  unfold bind at 1. unfold get_state at 1. unfold enumerate.
  rewrite lookup_loop_spec. simpl app.
  destruct (cache_misses env (embedding_cache w) texts) as [|m ms] eqn:Em;
    [now contradiction Hne|].
  unfold bind, now, emit, modify, lift_outcome, ret.
  rewrite Henc. rewrite update_loop_no_eviction.
  - rewrite (sorted_embeddings env (embedding_cache w) texts news).
    reflexivity.
  - simpl embedding_cache.
    pose proof (length_combine (m :: ms) news) as Hl. lia.
Qed.

(** The walk over a cache that holds more gives the same vectors. *)
Lemma merge_in_order_extended cache cache' texts : forall news,
  length news = length (cache_misses env cache texts) ->
  (forall k v, PyDict.get cache k = Some v -> PyDict.get cache' k = Some v) ->
  (forall t v, In (t, v) (combine (cache_misses env cache texts) news) ->
               PyDict.get cache' (_hash_content env t) = Some v) ->
  merge_in_order env cache' texts [] = merge_in_order env cache texts news
  /\ cache_misses env cache' texts = [].
Proof.
  induction texts as [|t ts IH]; intros news Hlen Hkeep Hnew; [split; reflexivity|].
  rewrite cache_misses_cons in Hlen, Hnew. rewrite cache_misses_cons.
  cbn [merge_in_order]. unfold SimpleCache.get in *.
  destruct (PyDict.get cache (_hash_content env t)) as [v|] eqn:E.
  - rewrite (Hkeep _ _ E).
    destruct (IH news Hlen Hkeep Hnew) as [H1 H2]. now rewrite H1, H2.
  - destruct news as [|n ns]; [discriminate|].
    rewrite (Hnew t n) by now left.
    destruct (IH ns) as [H1 H2].
    + now injection Hlen.
    + exact Hkeep.
    + intros t' v' Hin. apply Hnew. now right.
    + now rewrite H1, H2.
Qed.

End EmbeddingCache.

Lemma map_fst_combine (A B : Type) (l : list A) : forall (l' : list B),
  length l' = length l -> map fst (combine l l') = l.
Proof.
  induction l as [|a l IH]; intros l' H; [reflexivity|].
  destruct l' as [|b l']; [discriminate|]. simpl. f_equal. apply IH. now injection H.
Qed.

(** X4. A batch whose texts are all cached is answered from the cache:
    the model is not called, nothing changes, and every text gets the
    vector cached under its hash. *)
Theorem create_embeddings_fully_cached
    (env : Env) (w : World) (texts : list str)
    (Hcached : Forall (fun t => SimpleCache.get (embedding_cache w)
                                  (_hash_content env t) <> None) texts) :
  exists out,
    create_embeddings env texts w = (Ok out, w)
    /\ Forall2 (fun t v => SimpleCache.get (embedding_cache w) (_hash_content env t)
                           = Some v) texts out.
Proof.
  apply cache_misses_nil_iff in Hcached.
  exists (merge_in_order env (embedding_cache w) texts []). split.
  - now apply create_embeddings_hit.
  - now apply merge_in_order_cached.
Qed.

Lemma create_embeddings_fully_cached_witness :
  exists out,
    create_embeddings quiet_env [lit "bb"; lit "a"]
      (set_embedding_cache [(lit "a", [1]); (lit "bb", [7])] empty_world)
    = (Ok out, set_embedding_cache [(lit "a", [1]); (lit "bb", [7])] empty_world)
    /\ out = [[7]; [1]].
Proof.
  destruct (@create_embeddings_fully_cached quiet_env
              (set_embedding_cache [(lit "a", [1]); (lit "bb", [7])] empty_world)
              [lit "bb"; lit "a"]) as (out & Hrun & Hout).
  - repeat constructor; vm_compute; discriminate.
  - exists out. split; [exact Hrun|].
    inversion Hout as [|? ? ? ? H1 Hrest]; subst.
    inversion Hrest as [|? ? ? ? H2 Hnil]; subst.
    inversion Hnil; subst.
    vm_compute in H1. vm_compute in H2.
    injection H1 as <-. injection H2 as <-. reflexivity.
Defined.





(** ** [setup_text_splitter] *)

(** X7. Whatever the length of the document, the overlap the splitter is
    built with is positive and smaller than its chunk size, and a longer
    document never gets smaller chunks or a smaller overlap. The four bands
    are, in words of the document: up to 333, up to 1333, up to 3333, and
    more. *)
Theorem setup_text_splitter_bands (n m : Z) :
  (0 < snd (setup_text_splitter n) < fst (setup_text_splitter n))%Z
  /\ ((n <= m)%Z ->
      (fst (setup_text_splitter n) <= fst (setup_text_splitter m))%Z
      /\ (snd (setup_text_splitter n) <= snd (setup_text_splitter m))%Z)
  /\ ((n <= 333)%Z -> setup_text_splitter n = (800, 100)%Z)
  /\ ((334 <= n <= 1333)%Z -> setup_text_splitter n = (1500, 150)%Z)
  /\ ((1334 <= n <= 3333)%Z -> setup_text_splitter n = (2500, 200)%Z)
  /\ ((3334 <= n)%Z -> setup_text_splitter n = (3500, 300)%Z).
Proof.
  unfold setup_text_splitter.
  unfold settings.chunk.chars_per_token_estimate, settings.chunk.small_doc_threshold,
    settings.chunk.medium_doc_threshold, settings.chunk.large_doc_threshold,
    settings.chunk.small_doc_chunk_size, settings.chunk.medium_doc_chunk_size,
    settings.chunk.large_doc_chunk_size, settings.chunk.xlarge_doc_chunk_size,
    settings.chunk.small_doc_chunk_overlap, settings.chunk.medium_doc_chunk_overlap,
    settings.chunk.large_doc_chunk_overlap, settings.chunk.xlarge_doc_chunk_overlap.
  destruct (Z.leb_spec (n * 6) 2000); destruct (Z.leb_spec (n * 6) 8000);
    destruct (Z.leb_spec (n * 6) 20000);
    destruct (Z.leb_spec (m * 6) 2000); destruct (Z.leb_spec (m * 6) 8000);
    destruct (Z.leb_spec (m * 6) 20000);
    cbn [fst snd]; repeat split; intros; try lia; try reflexivity.
Qed.

Lemma setup_text_splitter_bands_witness :
  setup_text_splitter 333 = (800, 100)%Z
  /\ setup_text_splitter 334 = (1500, 150)%Z
  /\ setup_text_splitter 3333 = (2500, 200)%Z
  /\ setup_text_splitter 3334 = (3500, 300)%Z
  /\ (fst (setup_text_splitter 333) <= fst (setup_text_splitter 3334))%Z.
Proof.
  destruct (setup_text_splitter_bands 333 3334) as (_ & H1 & H2 & _ & _ & _).
  destruct (setup_text_splitter_bands 334 0) as (_ & _ & _ & H3 & _ & _).
  destruct (setup_text_splitter_bands 3333 0) as (_ & _ & _ & _ & H4 & _).
  destruct (setup_text_splitter_bands 3334 0) as (_ & _ & _ & _ & _ & H5).
  split; [apply H2; lia|]. split; [apply H3; lia|]. split; [apply H4; lia|].
  split; [apply H5; lia|]. apply H1. lia.
Defined.

(** ** [chunk_and_embed_document]: failure and success *)

Section ChunkAndEmbedOutcome.

Variable env : Env.

Lemma map_content_new_chunk n doc (chunks : list str) : forall (embs : list vector) k,
  length embs = length chunks ->
  map content (map (new_chunk env n doc) (combine (seq k (length (combine chunks embs)))
                                            (combine chunks embs)))
  = chunks.
Proof.
  induction chunks as [|c chunks IH]; intros embs k H; [reflexivity|].
  destruct embs as [|e embs]; [discriminate|]. simpl. f_equal.
  apply IH. now injection H.
Qed.

Lemma map_chunk_index_new_chunk n doc (items : list (str * vector)) : forall k,
  map chunk_index (map (new_chunk env n doc) (combine (seq k (length items)) items))
  = map Z.of_nat (seq k (length items)).
Proof.
  induction items as [|[c e] items IH]; intros k; [reflexivity|].
  simpl. f_equal. apply IH.
Qed.

Lemma document_id_new_chunk n doc (items : list (nat * (str * vector))) :
  Forall (fun c => document_id c = doc) (map (new_chunk env n doc) items).
Proof.
  apply Forall_forall. intros c Hc. apply in_map_iff in Hc.
  destruct Hc as ([i [t e]] & <- & _). reflexivity.
Qed.

End ChunkAndEmbedOutcome.

(** X8. A failed [chunk_and_embed_document] leaves no row behind: when
    it raises, whatever the step that failed, the committed rows are those
    from before the call, no write of the session is pending, and the last
    thing done is the rollback. *)
Theorem chunk_and_embed_document_failure_rolls_back
    (env : Env) (doc text : str) (w w' : World) (e : exn)
    (Hrun : chunk_and_embed_document env doc text w = (Raise e, w')) :
  document_chunks w' = document_chunks w
  /\ pending_chunks w' = []
  /\ exists before, trace w' = before ++ [EvDbRollback].
Proof.
  revert Hrun. unfold chunk_and_embed_document, try_except.
  match goal with
  | |- context [match ?b w with _ => _ end] => destruct (b w) as [[a|e1] w1] eqn:Hb
  end; [discriminate|].
  unfold bind, rollback, emit, modify, raise. intros H. injection H as _ <-.
  cbn [document_chunks pending_chunks trace set_tables log_event].
  split; [|split; [reflexivity | now exists (trace w1)]].
  revert Hb. unfold bind at 1. rewrite query_chunks_first_run.
  destruct (db_fault env (length (trace w))) as [e0|].
  { intros H. injection H as _ <-. reflexivity. }
  destruct (chunks_of doc w) as [|x l] eqn:Ef; cbn [hd_error].
  - destruct (setup_text_splitter (Z.of_nat (length (split_ws text))))
      as [chunk_size chunk_overlap].
    unfold bind at 1. unfold emit, modify.
    destruct (split_text env chunk_size chunk_overlap text) as [|ch chs] eqn:Esplit;
      [discriminate|].
    unfold bind at 1.
    destruct (create_embeddings env (ch :: chs) _) as [[embs|e2] wa] eqn:Eemb.
    2: { apply create_embeddings_tables in Eemb. destruct Eemb as [Hd _].
         intros H. injection H as _ <-. exact Hd. }
    apply create_embeddings_tables in Eemb. destruct Eemb as [Hd _].
    destruct (negb (length embs =? length (ch :: chs))%nat).
    { unfold raise. intros H. injection H as _ <-. exact Hd. }
    unfold bind at 1. unfold now at 1. unfold bind at 1.
    rewrite bulk_insert_mappings_run.
    destruct (db_fault env (length (trace wa))) as [e3|].
    { intros H. injection H as _ <-. exact Hd. }
    unfold bind at 1. rewrite commit_run.
    destruct (db_fault env _) as [e4|]; [|discriminate].
    intros H. injection H as _ <-. exact Hd.
  - rewrite query_chunks_all_run.
    destruct (db_fault env _) as [e5|]; [|discriminate].
    intros H. injection H as _ <-. reflexivity.
Qed.

Lemma chunk_and_embed_document_failure_rolls_back_witness :
  exists w',
    chunk_and_embed_document failing_model_env (lit "doc2") (lit "hello world")
      (world_with_chunks [sample_chunk 0 97%N 5 1])
    = (Raise (lit "CUDA out of memory"), w')
    /\ document_chunks w' = [sample_chunk 0 97%N 5 1]
    /\ pending_chunks w' = [].
Proof.
  exists (snd (chunk_and_embed_document failing_model_env (lit "doc2") (lit "hello world")
                 (world_with_chunks [sample_chunk 0 97%N 5 1]))).
  assert (H : chunk_and_embed_document failing_model_env (lit "doc2") (lit "hello world")
                (world_with_chunks [sample_chunk 0 97%N 5 1])
              = (Raise (lit "CUDA out of memory"),
                 snd (chunk_and_embed_document failing_model_env (lit "doc2")
                        (lit "hello world")
                        (world_with_chunks [sample_chunk 0 97%N 5 1]))))
    by (vm_compute; reflexivity).
  destruct (chunk_and_embed_document_failure_rolls_back _ _ _ _ H) as (H1 & H2 & _).
  split; [exact H | split; [exact H1 | exact H2]].
Defined.

(** X9. What a first call for a document returns: one chunk per piece of
    the splitter, in the order of the pieces, numbered from zero, all with
    the document id; the splitter is the one chosen for the number of words
    of the text. When there is a piece at all, the chunks are committed and
    are what the database then holds for the document. *)
Theorem chunk_and_embed_document_new_document
    (env : Env) (doc text : str) (w w' : World) (chunks : list DocumentChunk)
    (Hnew : chunks_of doc w = [])
    (Hrun : chunk_and_embed_document env doc text w = (Ok chunks, w')) :
  map content chunks
  = split_text env
      (fst (setup_text_splitter (Z.of_nat (length (split_ws text)))))
      (snd (setup_text_splitter (Z.of_nat (length (split_ws text))))) text
  /\ map chunk_index chunks = map Z.of_nat (seq 0 (length chunks))
  /\ Forall (fun c => document_id c = doc) chunks
  /\ (chunks <> [] ->
      pending_chunks w' = [] /\ Forall2 same_chunk chunks (chunks_of doc w')).
Proof.
  split; [|split; [|split]].
  4: { intros Hne. split; [|now apply (chunk_and_embed_result env doc text w)].
       revert Hne. apply try_except_reraise in Hrun. revert Hrun.
       unfold bind at 1. rewrite query_chunks_first_run.
       destruct (db_fault env (length (trace w))) as [e|]; [discriminate|].
       rewrite Hnew. cbn [hd_error].
       destruct (setup_text_splitter (Z.of_nat (length (split_ws text))))
         as [chunk_size chunk_overlap].
       unfold bind at 1. unfold emit, modify.
       destruct (split_text env chunk_size chunk_overlap text) as [|ch chs].
       { intros H. injection H as <- _. intros Hne. now contradiction Hne. }
       unfold bind at 1.
       destruct (create_embeddings env (ch :: chs) _) as [[embs|e] wa]; [|discriminate].
       destruct (negb (length embs =? length (ch :: chs))%nat); [discriminate|].
       unfold bind at 1. unfold now at 1. unfold bind at 1.
       rewrite bulk_insert_mappings_run.
       destruct (db_fault env (length (trace wa))) as [e|]; [discriminate|].
       unfold bind at 1. rewrite commit_run.
       destruct (db_fault env _) as [e|]; [discriminate|].
       unfold ret. intros H. injection H as _ <-. reflexivity. }
  all: apply try_except_reraise in Hrun; revert Hrun;
    unfold bind at 1; rewrite query_chunks_first_run;
    (destruct (db_fault env (length (trace w))) as [e|]; [discriminate|]);
    rewrite Hnew; cbn [hd_error];
    destruct (setup_text_splitter (Z.of_nat (length (split_ws text))))
      as [chunk_size chunk_overlap];
    unfold bind at 1; unfold emit, modify; cbn [fst snd];
    (destruct (split_text env chunk_size chunk_overlap text) as [|ch chs];
     [intros H; injection H as <- _; try reflexivity; constructor|]);
    unfold bind at 1;
    (destruct (create_embeddings env (ch :: chs) _) as [[embs|e] wa]; [|discriminate]);
    (destruct (length embs =? length (ch :: chs))%nat eqn:El; [|discriminate]);
    apply Nat.eqb_eq in El; cbn [negb];
    unfold bind at 1; unfold now at 1; unfold bind at 1;
    rewrite bulk_insert_mappings_run;
    (destruct (db_fault env (length (trace wa))) as [e|]; [discriminate|]);
    unfold bind at 1; rewrite commit_run;
    (destruct (db_fault env _) as [e|]; [discriminate|]);
    unfold ret; intros H; injection H as <- _; unfold enumerate.
  - exact (@map_content_new_chunk env (length (trace wa)) doc (ch :: chs) embs 0%nat El).
  - change (match embs with
            | [] => []
            | y :: tl' => (ch, y) :: combine chs tl'
            end) with (combine (ch :: chs) embs).
    rewrite map_chunk_index_new_chunk. f_equal. f_equal.
    generalize (combine (ch :: chs) embs). intros items.
    rewrite length_map. rewrite (length_combine (seq 0 (length items)) items).
    now rewrite length_seq, Nat.min_id.
  - apply document_id_new_chunk.
Qed.

Lemma chunk_and_embed_document_new_document_witness :
  exists chunks w',
    chunk_and_embed_document quiet_env (lit "doc") (lit "hello world") empty_world
    = (Ok chunks, w')
    /\ map content chunks = [lit "hello"; lit "world"]
    /\ map chunk_index chunks = [0; 1]%Z.
Proof.
  exists (match fst (chunk_and_embed_document quiet_env (lit "doc") (lit "hello world")
                       empty_world) with
          | Ok c => c
          | Raise _ => []
          end),
         (snd (chunk_and_embed_document quiet_env (lit "doc") (lit "hello world")
                 empty_world)).
  assert (H : chunk_and_embed_document quiet_env (lit "doc") (lit "hello world") empty_world
              = (Ok (match fst (chunk_and_embed_document quiet_env (lit "doc")
                                  (lit "hello world") empty_world) with
                     | Ok c => c
                     | Raise _ => []
                     end),
                 snd (chunk_and_embed_document quiet_env (lit "doc") (lit "hello world")
                        empty_world)))
    by (vm_compute; reflexivity).
  destruct (@chunk_and_embed_document_new_document quiet_env (lit "doc")
              (lit "hello world") empty_world _ _ eq_refl H) as (H1 & H2 & _).
  split; [exact H|]. split; [exact H1 | exact H2].
Defined.

(** ** [similarity_search]: where the results come from *)

Lemma collect_results_origin rows : forall acc res,
  collect_results rows acc = Ok res ->
  exists kept,
    res = acc ++ kept
    /\ Forall (fun r => exists row score,
                 In (row, Some score) rows /\ result_of_row r row score) kept.
Proof.
  induction rows as [|[row [score|]] rows IH]; intros acc res H; simpl in H.
  - injection H as <-. exists []. split; [now rewrite app_nil_r | constructor].
  - destruct (Qle_bool settings.rag.similarity_threshold score).
    + destruct (IH _ _ H) as (kept & -> & Hk).
      eexists (_ :: kept). split; [now rewrite <- app_assoc|].
      constructor.
      * exists row, score. split; [now left|]. repeat split.
      * eapply Forall_impl; [|exact Hk]. intros r (row' & s' & Hin & Hr).
        exists row', s'. split; [now right | exact Hr].
    + destruct (IH _ _ H) as (kept & -> & Hk). exists kept. split; [reflexivity|].
      eapply Forall_impl; [|exact Hk]. intros r (row' & s' & Hin & Hr).
      exists row', s'. split; [now right | exact Hr].
  - discriminate.
Qed.

Lemma in_document_ids_In ids c :
  ids <> [] -> in_document_ids (Some ids) c = true -> In (document_id c) ids.
Proof.
  intros Hne H. destruct ids as [|i ids]; [contradiction|].
  unfold in_document_ids in H. apply existsb_exists in H.
  destruct H as (x & Hx & He). apply str_eqb_eq in He. now rewrite He.
Qed.

(** X10. Every entry [similarity_search] returns is built from a chunk
    the database holds: it carries the id, document id, index and content
    of that chunk, the chunk has an embedding, and the score is one minus
    its distance to one and the same query embedding. When a non-empty list
    of document ids is given, the chunk belongs to one of them. A query of
    whitespace only returns nothing and touches neither the model nor the
    database. *)
Theorem similarity_search_results_are_stored_chunks
    (env : Env) (query : str) (document_ids : option (list str)) (top_k : Z)
    (w : World) :
  (forall res w',
     similarity_search env query document_ids top_k w = (Ok res, w') ->
     exists query_embedding,
       Forall (fun r => exists c v,
                 In c (visible_chunks w)
                 /\ embedding c = Some v
                 /\ result_of_row r c (1 - cosine_distance env v query_embedding)
                 /\ (forall ids, document_ids = Some ids -> ids <> [] ->
                       In (sr_document_id r) ids)) res)
  /\ (strip query = [] ->
      similarity_search env query document_ids top_k w = (Ok [], w)).
Proof.
  split.
  2: { intros H. unfold similarity_search, try_except, similarity_search_body.
       now rewrite H. }
  intros res w'.
  unfold similarity_search, try_except, similarity_search_body.
  destruct (strip query) as [|c0 q'] eqn:Eq.
  { intros H. injection H as <- _. exists []. constructor. }
  unfold bind at 1.
  destruct (create_embeddings env [query] w) as [[embs|e] w1] eqn:Eemb.
  2: { intros H. injection H as <- _. exists []. constructor. }
  apply create_embeddings_tables in Eemb. destruct Eemb as [Hd Hp].
  destruct embs as [|qe embs'].
  { intros H. injection H as <- _. exists []. constructor. }
  unfold execute_similarity_query, db_statement, bind, now, emit, modify,
    get_state, lift_outcome, ret, raise.
  destruct (db_fault env (length (trace w1))) as [e|].
  { intros H. injection H as <- _. exists []. constructor. }
  destruct (top_k <? 0)%Z.
  { intros H. injection H as <- _. exists []. constructor. }
  match goal with
  | |- context [collect_results ?r []] => set (rows := r)
  end.
  destruct (collect_results rows []) as [kept|e] eqn:Ec.
  2: { intros H. injection H as <- _. exists []. constructor. }
  intros H. injection H as <- _. exists qe.
  destruct (collect_results_origin _ _ Ec) as (kept' & -> & Hk). simpl.
  eapply Forall_impl; [|exact Hk].
  intros r (row & score & Hin & Hr).
  subst rows. apply firstn_In in Hin.
  apply (Permutation_in _ (order_by_score_desc_perm _)) in Hin.
  apply in_map_iff in Hin. destruct Hin as (c & Hc & Hf).
  injection Hc as -> Hs. apply filter_In in Hf. destruct Hf as [Hvis Hids].
  unfold similarity_score_of in Hs.
  destruct (embedding row) as [v|] eqn:Ev; [|discriminate]. injection Hs as <-.
  exists row, v. split; [|split; [exact Ev | split; [exact Hr|]]].
  - unfold visible_chunks in *. cbn [document_chunks pending_chunks log_event] in Hvis.
    now rewrite Hd, Hp in Hvis.
  - intros ids -> Hne. destruct Hr as (_ & -> & _). now apply in_document_ids_In.
Qed.

Lemma similarity_search_results_are_stored_chunks_witness :
  similarity_search quiet_env (lit "   ") None 8 two_chunk_world
  = (Ok [], two_chunk_world)
  /\ exists res w',
       similarity_search quiet_env (lit "topic") (Some [lit "doc"]) 8 two_chunk_world
       = (Ok res, w')
       /\ Forall (fun r => In (sr_document_id r) [lit "doc"]) res.
Proof.
  destruct (similarity_search_results_are_stored_chunks quiet_env (lit "   ") None 8
              two_chunk_world) as [_ Hblank].
  destruct (similarity_search_results_are_stored_chunks quiet_env (lit "topic")
              (Some [lit "doc"]) 8 two_chunk_world) as [Hres _].
  split; [apply Hblank; reflexivity|].
  exists (match fst (similarity_search quiet_env (lit "topic") (Some [lit "doc"]) 8
                       two_chunk_world) with
          | Ok r => r
          | Raise _ => []
          end),
         (snd (similarity_search quiet_env (lit "topic") (Some [lit "doc"]) 8
                 two_chunk_world)).
  assert (H : similarity_search quiet_env (lit "topic") (Some [lit "doc"]) 8
                two_chunk_world
              = (Ok (match fst (similarity_search quiet_env (lit "topic")
                                  (Some [lit "doc"]) 8 two_chunk_world) with
                     | Ok r => r
                     | Raise _ => []
                     end),
                 snd (similarity_search quiet_env (lit "topic") (Some [lit "doc"]) 8
                        two_chunk_world)))
    by (vm_compute; reflexivity).
  split; [exact H|].
  destruct (Hres _ _ H) as [qe Hall].
  eapply Forall_impl; [|exact Hall].
  intros r (c & v & _ & _ & _ & Hids). apply (Hids [lit "doc"]); [reflexivity | discriminate].
Defined.

(** ** [generate_content] and its cache *)

Section GenerationCache.

Variable env : Env.
Variable prompt : str.

(** One attempt and the cache: an entry is added only for the prompt, only
    with the answer returned, and only when the answer is longer than 50
    characters and the cache holds fewer than 1000 entries. *)
Lemma attempt_body_cache content_type w res w' :
  attempt_body env prompt content_type w = (res, w') ->
  (forall k v, PyDict.get (generation_cache w) k = Some v ->
               PyDict.get (generation_cache w') k = Some v)
  /\ (forall k v, PyDict.get (generation_cache w') k = Some v ->
                  PyDict.get (generation_cache w) k = Some v
                  \/ (k = _hash_content env prompt /\ res = Ok (Some v) /\ (50 < len v)%Z))
  /\ ((PyDict.size (generation_cache w) <= 1000)%Z ->
      (PyDict.size (generation_cache w') <= 1000)%Z)
  /\ (forall e, res = Raise e -> generation_cache w' = generation_cache w).
Proof.
  unfold attempt_body, bind, get_state.
  destruct (PyDict.get (generation_cache w) (_hash_content env prompt)) as [cached|] eqn:Eh.
  { unfold ret. intros H. injection H as <- <-. repeat split; auto. }
  unfold now, emit, modify, lift_outcome.
  destruct (llm_chat env (length (trace w)) (chat_messages prompt content_type))
    as [[r|]|e].
  - destruct (negb (PyStr.eqb r []) && (50 <? len r)%Z)%bool eqn:Elong.
    + cbn [generation_cache log_event].
      destruct (Z.ltb_spec (PyDict.size (generation_cache w)) 1000) as [Hroom | Hfull].
      * unfold ret. intros H. injection H as <- <-.
        cbn [generation_cache set_generation_cache log_event].
        apply andb_true_iff in Elong. destruct Elong as [_ Elen].
        apply Z.ltb_lt in Elen.
        split; [|split; [|split]].
        -- intros k v Hk. rewrite PyDict_get_set_other; [exact Hk|].
           intros ->. congruence.
        -- intros k v Hk.
           destruct (list_eq_dec N.eq_dec k (_hash_content env prompt)) as [-> | Hne].
           ++ rewrite PyDict_get_set_same in Hk. injection Hk as <-. right. auto.
           ++ rewrite PyDict_get_set_other in Hk by exact Hne. now left.
        -- intros _.
           pose proof (PyDict_size_set_le (generation_cache w) (_hash_content env prompt) r).
           lia.
        -- discriminate.
      * unfold ret. intros H. injection H as <- <-. repeat split; auto.
    + unfold ret. intros H. injection H as <- <-. repeat split; auto.
  - unfold ret. intros H. injection H as <- <-. repeat split; auto.
  - intros H. injection H as <- <-. repeat split; auto.
Qed.

Lemma attempts_loop_cache content_type attempts : forall w res w',
  attempts_loop env attempts prompt content_type w = (res, w') ->
  (forall k v, PyDict.get (generation_cache w) k = Some v ->
               PyDict.get (generation_cache w') k = Some v)
  /\ (forall k v, PyDict.get (generation_cache w') k = Some v ->
                  PyDict.get (generation_cache w) k = Some v
                  \/ (k = _hash_content env prompt /\ res = Ok (Some v) /\ (50 < len v)%Z))
  /\ ((PyDict.size (generation_cache w) <= 1000)%Z ->
      (PyDict.size (generation_cache w') <= 1000)%Z).
Proof.
  induction attempts as [|attempt rest IH]; intros w res w'.
  - simpl. unfold ret. intros H. injection H as <- <-. repeat split; auto.
  - cbn [attempts_loop]. unfold try_except.
    destruct (attempt_body env prompt content_type w) as [[r|e] w1] eqn:Eb.
    + intros H. injection H as <- <-.
      destruct (attempt_body_cache _ _ Eb) as (H1 & H2 & H3 & _). auto.
    + destruct (attempt_body_cache _ _ Eb) as (_ & _ & _ & Hsame).
      specialize (Hsame e eq_refl).
      assert (Hstop : (@ret World (option str) (Some [])) w1 = (res, w') ->
                (forall k v, PyDict.get (generation_cache w) k = Some v ->
                             PyDict.get (generation_cache w') k = Some v)
                /\ (forall k v, PyDict.get (generation_cache w') k = Some v ->
                      PyDict.get (generation_cache w) k = Some v
                      \/ (k = _hash_content env prompt /\ res = Ok (Some v)
                          /\ (50 < len v)%Z))
                /\ ((PyDict.size (generation_cache w) <= 1000)%Z ->
                    (PyDict.size (generation_cache w') <= 1000)%Z)).
      { unfold ret. intros H. injection H as <- <-. rewrite Hsame.
        repeat split; auto. }
      assert (Hretry : forall delay,
                bind (emit (EvSleep delay))
                  (fun _ => attempts_loop env rest prompt content_type) w1 = (res, w') ->
                (forall k v, PyDict.get (generation_cache w) k = Some v ->
                             PyDict.get (generation_cache w') k = Some v)
                /\ (forall k v, PyDict.get (generation_cache w') k = Some v ->
                      PyDict.get (generation_cache w) k = Some v
                      \/ (k = _hash_content env prompt /\ res = Ok (Some v)
                          /\ (50 < len v)%Z))
                /\ ((PyDict.size (generation_cache w) <= 1000)%Z ->
                    (PyDict.size (generation_cache w') <= 1000)%Z)).
      { intros delay. unfold bind, emit, modify. intros H.
        apply IH in H. cbn [generation_cache log_event] in H.
        now rewrite Hsame in H. }
      destruct (is_rate_limit e).
      * destruct (attempt <? max_retries)%nat; [|exact Hstop].
        unfold bind at 1. unfold now at 1. apply Hretry.
      * destruct (attempt <? max_retries)%nat; [|exact Hstop]. apply Hretry.
Qed.

(** A cached prompt is answered by the first attempt. *)
Lemma generate_content_hit content_type w cached :
  PyDict.get (generation_cache w) (_hash_content env prompt) = Some cached ->
  generate_content env prompt content_type w = (Ok (Some cached), w).
Proof.
  intros H. unfold generate_content. cbn [max_retries Nat.add seq attempts_loop].
  unfold try_except. pose proof (attempt_body_run env prompt content_type w) as Hb.
  rewrite H in Hb. now rewrite Hb.
Qed.

End GenerationCache.



(** X12. What a call of [generate_content] can do to the response cache,
    however it ends: no entry is removed or replaced; the only entry it can
    add is the response it returns, under the hash of the prompt, and only
    when that response is longer than 50 characters; and a cache of at most
    1000 entries stays one. *)
Theorem generate_content_cache_grows_only
    (env : Env) (prompt content_type : str) (w w' : World)
    (res : outcome (option str))
    (Hrun : generate_content env prompt content_type w = (res, w')) :
  (forall k v, PyDict.get (generation_cache w) k = Some v ->
               PyDict.get (generation_cache w') k = Some v)
  /\ (forall k v, PyDict.get (generation_cache w') k = Some v ->
                  PyDict.get (generation_cache w) k = Some v
                  \/ (k = _hash_content env prompt /\ res = Ok (Some v) /\ (50 < len v)%Z))
  /\ ((PyDict.size (generation_cache w) <= 1000)%Z ->
      (PyDict.size (generation_cache w') <= 1000)%Z).
Proof. exact (attempts_loop_cache env prompt content_type _ _ Hrun). Qed.

Lemma generate_content_cache_grows_only_witness :
  PyDict.get
    (generation_cache
       (snd (generate_content (constant_llm_env three_flashcards_json) (lit "prompt")
               (lit "json") (set_generation_cache [(lit "old", lit "answer")] empty_world))))
    (lit "old") = Some (lit "answer").
Proof.
  destruct (@generate_content_cache_grows_only (constant_llm_env three_flashcards_json)
              (lit "prompt") (lit "json")
              (set_generation_cache [(lit "old", lit "answer")] empty_world)
              _ _ (surjective_pairing _)) as (Hkeep & _ & _).
  apply Hkeep. reflexivity.
Defined.

(** ** The validators and what passes them *)

Lemma _validate_quiz_item_usable item :
  _validate_quiz_item item = Ok true <-> usable_quiz_item item.
Proof.
  unfold _validate_quiz_item, usable_quiz_item, item_get, bind_outcome, truthy_opt.
  split.
  - destruct item as [| | | | |l|members]; try discriminate.
    destruct (PyDict.get members (lit "question")) as [q|] eqn:Eq; [|discriminate].
    destruct (truthy q) eqn:Tq; [|discriminate]. cbn [negb].
    destruct (PyDict.get members (lit "correct_answer")) as [a|] eqn:Ea; [|discriminate].
    destruct (truthy a) eqn:Ta; [|discriminate]. cbn [negb].
    destruct (PyDict.get members (lit "options")) as [o|] eqn:Eo; [|discriminate].
    destruct (truthy o) eqn:To; [|discriminate]. cbn [negb].
    destruct (py_len o) as [n|e] eqn:El; [|discriminate].
    intros H. injection H as H. apply Z.leb_le in H.
    exists members, q, a, o, n. repeat split; assumption.
  - intros (members & q & a & o & n & -> & Eq & Tq & Ea & Ta & Eo & To & El & Hn).
    rewrite Eq, Tq, Ea, Ta, Eo, To, El. cbn [negb].
    apply Z.leb_le in Hn. now rewrite Hn.
Qed.

Lemma _validate_flashcard_item_usable item :
  _validate_flashcard_item item = Ok true <-> usable_flashcard_item item.
Proof.
  unfold _validate_flashcard_item, usable_flashcard_item, item_get, bind_outcome,
    truthy_opt.
  split.
  - destruct item as [| | | | |l|members]; try discriminate.
    destruct (PyDict.get members (lit "question")) as [q|] eqn:Eq; [|discriminate].
    destruct (truthy q) eqn:Tq; [|discriminate]. cbn [negb].
    destruct (PyDict.get members (lit "answer")) as [a|] eqn:Ea; [|discriminate].
    intros H. injection H as H.
    exists members, q, a. repeat split; assumption.
  - intros (members & q & a & -> & Eq & Tq & Ea & Ta).
    now rewrite Eq, Tq, Ea, Ta.
Qed.

(** Neither validator can look into anything but a dict. *)
Lemma validators_raise_on_non_dict item :
  (forall members, item <> JObj members) ->
  (exists e, _validate_quiz_item item = Raise e)
  /\ (exists e, _validate_flashcard_item item = Raise e).
Proof.
  intros H. destruct item; try (split; eexists; reflexivity).
  now contradiction (H members).
Qed.

Lemma filter_valid_ok f items : forall kept,
  filter_valid f items = Ok kept ->
  Forall (fun item => f item = Ok true) kept /\ incl kept items.
Proof.
  induction items as [|item items IH]; intros kept H; simpl in H.
  - injection H as <-. split; [constructor | apply incl_refl].
  - unfold bind_outcome in H.
    destruct (f item) as [keep|e] eqn:Ef; [|discriminate].
    destruct (filter_valid f items) as [rest|e]; [|discriminate].
    destruct (IH rest eq_refl) as [Hall Hincl].
    injection H as <-. destruct keep.
    + split; [now constructor|].
      intros x [-> | Hx]; [now left | right; now apply Hincl].
    + split; [exact Hall|]. intros x Hx. right. now apply Hincl.
Qed.

Lemma filter_valid_raise f items item e :
  In item items -> f item = Raise e -> exists e', filter_valid f items = Raise e'.
Proof.
  induction items as [|x items IH]; intros Hin He; [contradiction|].
  simpl. unfold bind_outcome.
  destruct (f x) as [keep|e0] eqn:Ex; [|eauto].
  destruct Hin as [-> | Hin]; [congruence|].
  destruct (IH Hin He) as [e' ->]. eauto.
Qed.

Lemma Forall_slice_to (A : Type) (P : A -> Prop) (l : list A) k :
  Forall P l -> Forall P (slice_to l k).
Proof.
  intros H. rewrite Forall_forall in *. intros x Hx. apply H.
  unfold slice_to in Hx. destruct (0 <=? k)%Z; eapply firstn_In; exact Hx.
Qed.

Section ItemsValid.

Variable env : Env.
Variable f : json -> outcome bool.

(** What [generate_json_items] returns has passed the validator. *)
Lemma generate_json_items_valid prompt target_count w items w' :
  generate_json_items env prompt target_count (Some f) w = (Ok items, w') ->
  Forall (fun item => f item = Ok true) items.
Proof.
  unfold generate_json_items. unfold bind at 1. unfold emit, modify.
  unfold try_except. unfold bind at 1.
  destruct (generate_content env prompt (lit "json") _) as [[r|e] w1].
  2: { unfold ret. intros H. injection H as <- _. constructor. }
  destruct r as [[|c response]|];
    try (unfold ret; intros H; injection H as <- _; constructor).
  destruct (clean_json_response env (c :: response)) as [|item rest];
    [unfold ret; intros H; injection H as <- _; constructor|].
  unfold append_response_log, bind, now, emit, modify, raise, ret, lift_outcome.
  destruct (fs_fault env (length (trace w1))) as [e|];
    [intros H; injection H as <- _; constructor|].
  destruct (filter_valid f (item :: rest)) as [kept|e] eqn:Ef;
    [|intros H; injection H as <- _; constructor].
  intros H. injection H as <- _. apply Forall_slice_to.
  now apply (filter_valid_ok f (item :: rest)).
Qed.

Variables (prompt_template topic context : str) (target_count : Z).

Lemma chunk_loop_valid calls : forall all_items failed_calls chunk_size w items w',
  Forall (fun item => f item = Ok true) all_items ->
  chunk_loop env prompt_template topic context target_count (Some f)
    calls all_items failed_calls chunk_size w = (Ok items, w') ->
  Forall (fun item => f item = Ok true) items.
Proof.
  induction calls as [|calls IH]; intros all_items failed_calls chunk_size w items w' Hall.
  - simpl. unfold ret. intros H. now injection H as <- _.
  - cbn [chunk_loop].
    destruct (Z.min chunk_size (target_count - Z.of_nat (length all_items)) <=? 0)%Z.
    { unfold ret. intros H. now injection H as <- _. }
    unfold bind at 1. unfold lift_outcome.
    destruct (str_format env prompt_template topic context _) as [prompt|e];
      [|discriminate].
    unfold bind at 1.
    destruct (generate_json_items env prompt _ (Some f) w) as [[got|e] w1] eqn:Eg;
      [|discriminate].
    apply generate_json_items_valid in Eg.
    assert (Hnext : forall a fc c,
               Forall (fun item => f item = Ok true) a ->
               (if (target_count <=? Z.of_nat (length a))%Z
                then ret a
                else chunk_loop env prompt_template topic context target_count (Some f)
                       calls a fc c) w1 = (Ok items, w') ->
               Forall (fun item => f item = Ok true) items).
    { intros a fc c Ha. destruct (target_count <=? Z.of_nat (length a))%Z.
      - unfold ret. intros H. now injection H as <- _.
      - now apply IH. }
    destruct got as [|item got].
    + destruct ((2 <=? failed_calls + 1)%Z
                && Qlt_bool (inject_Z (Z.of_nat (length all_items)))
                     (inject_Z target_count * (1 # 2)))%bool; now apply Hnext.
    + apply Hnext. apply Forall_app. now split.
Qed.

Lemma _generate_content_chunked_valid chunk_size content_type w items w' :
  _generate_content_chunked env prompt_template topic context target_count (Some f)
    chunk_size content_type w = (Ok items, w') ->
  Forall (fun item => f item = Ok true) items.
Proof.
  unfold _generate_content_chunked. destruct (chunk_size =? 0)%Z; [discriminate|].
  unfold bind.
  destruct (chunk_loop env prompt_template topic context target_count (Some f) _ [] 0%Z
              chunk_size w) as [[all_items|e] w1] eqn:El; [|discriminate].
  apply chunk_loop_valid in El; [|constructor].
  unfold ret. intros H. injection H as <- _. now apply Forall_slice_to.
Qed.

End ItemsValid.

(** X13. Every item [generate_questions_chunked] returns is a dict with a
    question, a correct answer and options that are true in the sense of
    Python, with at least two options; every item
    [generate_flashcards_chunked] returns is a dict with a question and an
    answer that are true. So the lookups of these keys by the question
    service cannot fail. *)
Theorem chunked_generation_items_are_usable
    (env : Env) (prompt_template topic context : str) (target_count : Z) (w : World) :
  (forall items w',
     generate_questions_chunked env prompt_template topic context target_count w
     = (Ok items, w') ->
     Forall usable_quiz_item items)
  /\ (forall items w',
        generate_flashcards_chunked env prompt_template topic context target_count w
        = (Ok items, w') ->
        Forall usable_flashcard_item items).
Proof.
  split; intros items w' H.
  - unfold generate_questions_chunked in H.
    apply _generate_content_chunked_valid in H.
    apply Forall_forall. intros item Hi. apply _validate_quiz_item_usable.
    rewrite Forall_forall in H. now apply H.
  - unfold generate_flashcards_chunked in H.
    apply _generate_content_chunked_valid in H.
    apply Forall_forall. intros item Hi. apply _validate_flashcard_item_usable.
    rewrite Forall_forall in H. now apply H.
Qed.

Lemma chunked_generation_items_are_usable_witness :
  exists items w',
    generate_flashcards_chunked (constant_llm_env three_flashcards_json)
      (lit "template") (lit "topic") (lit "context") 2 empty_world = (Ok items, w')
    /\ length items = 2%nat
    /\ Forall usable_flashcard_item items.
Proof.
  destruct (chunked_generation_items_are_usable (constant_llm_env three_flashcards_json)
              (lit "template") (lit "topic") (lit "context") 2 empty_world) as [_ H].
  exists (match fst (generate_flashcards_chunked (constant_llm_env three_flashcards_json)
                       (lit "template") (lit "topic") (lit "context") 2 empty_world) with
          | Ok l => l
          | Raise _ => []
          end),
         (snd (generate_flashcards_chunked (constant_llm_env three_flashcards_json)
                 (lit "template") (lit "topic") (lit "context") 2 empty_world)).
  assert (Hrun : generate_flashcards_chunked (constant_llm_env three_flashcards_json)
                   (lit "template") (lit "topic") (lit "context") 2 empty_world
                 = (Ok (match fst (generate_flashcards_chunked
                                     (constant_llm_env three_flashcards_json)
                                     (lit "template") (lit "topic") (lit "context") 2
                                     empty_world) with
                        | Ok l => l
                        | Raise _ => []
                        end),
                    snd (generate_flashcards_chunked
                           (constant_llm_env three_flashcards_json)
                           (lit "template") (lit "topic") (lit "context") 2 empty_world)))
    by (vm_compute; reflexivity).
  split; [exact Hrun|]. split; [vm_compute; reflexivity|]. exact (H _ _ Hrun).
Defined.

(** X14. An answer of the LLM can be lost as a whole. When the cleaned
    answer holds one item that is not a dict, the validator raises on it and
    [generate_json_items] returns nothing, whatever the other items are.
    When appending to the response log fails, it returns nothing either,
    with or without validator. *)
Theorem generate_json_items_discards_batch
    (env : Env) (prompt : str) (target_count : Z) (w w1 : World) (r : str)
    (Hgen : generate_content env prompt (lit "json")
              (log_event (EvGenerateItems prompt target_count) w) = (Ok (Some r), w1))
    (Hr : r <> []) :
  ((exists item, In item (clean_json_response env r)
                 /\ forall members, item <> JObj members) ->
   fst (generate_json_items env prompt target_count (Some _validate_quiz_item) w) = Ok []
   /\ fst (generate_json_items env prompt target_count (Some _validate_flashcard_item) w)
      = Ok [])
  /\ (clean_json_response env r <> [] ->
      fs_fault env (length (trace w1)) <> None ->
      forall validator_func,
        generate_json_items env prompt target_count validator_func w
        = (Ok [], log_event (EvFileAppend r) w1)).
Proof.
  assert (Hstep : forall validator_func,
             generate_json_items env prompt target_count validator_func w
             = match clean_json_response env r with
               | [] => (Ok [], w1)
               | items =>
                   match fs_fault env (length (trace w1)) with
                   | Some _ => (Ok [], log_event (EvFileAppend r) w1)
                   | None =>
                       match validator_func with
                       | Some f =>
                           match filter_valid f items with
                           | Ok kept => (Ok (slice_to kept target_count),
                                         log_event (EvFileAppend r) w1)
                           | Raise _ => (Ok [], log_event (EvFileAppend r) w1)
                           end
                       | None => (Ok (slice_to items target_count),
                                  log_event (EvFileAppend r) w1)
                       end
                   end
               end).
  { intros validator_func. unfold generate_json_items. unfold bind at 1.
    unfold emit, modify. unfold try_except. unfold bind at 1. rewrite Hgen.
    destruct r as [|c response]; [now contradiction Hr|].
    destruct (clean_json_response env (c :: response)) as [|item items]; [reflexivity|].
    unfold append_response_log, bind, now, emit, modify, raise, ret, lift_outcome.
    destruct (fs_fault env (length (trace w1))); [reflexivity|].
    destruct validator_func as [f|]; [|reflexivity].
    destruct (filter_valid f (item :: items)); reflexivity. }
  split.
  - intros (item & Hin & Hnd).
    destruct (@validators_raise_on_non_dict item Hnd) as [[eq Hq] [ef Hf]].
    destruct (clean_json_response env r) as [|j l]; [contradiction|].
    cbv zeta in Hstep.
    destruct (@filter_valid_raise _ _ _ _ Hin Hq) as [e1 H1].
    destruct (@filter_valid_raise _ _ _ _ Hin Hf) as [e2 H2].
    rewrite !Hstep, H1, H2.
    destruct (fs_fault env (length (trace w1))); split; reflexivity.
  - intros Hne Hfs validator_func. rewrite Hstep.
    destruct (clean_json_response env r); [now contradiction Hne|].
    cbv zeta.
    destruct (fs_fault env (length (trace w1))); [reflexivity | now contradiction Hfs].
Qed.

Lemma generate_json_items_discards_batch_witness :
  clean_json_response (constant_llm_env wrapped_quiz_item) wrapped_quiz_item
  = [JStr (lit "A"); JStr (lit "B")]
  /\ fst (generate_json_items (constant_llm_env wrapped_quiz_item) (lit "prompt") 5
            (Some _validate_quiz_item) empty_world) = Ok [].
Proof.
  split; [vm_compute; reflexivity|].
  assert (Hgen : generate_content (constant_llm_env wrapped_quiz_item) (lit "prompt")
                   (lit "json") (log_event (EvGenerateItems (lit "prompt") 5) empty_world)
                 = (Ok (Some wrapped_quiz_item),
                    snd (generate_content (constant_llm_env wrapped_quiz_item)
                           (lit "prompt") (lit "json")
                           (log_event (EvGenerateItems (lit "prompt") 5) empty_world))))
    by (vm_compute; reflexivity).
  destruct (@generate_json_items_discards_batch (constant_llm_env wrapped_quiz_item)
              (lit "prompt") 5 empty_world _ wrapped_quiz_item Hgen) as [H _].
  - discriminate.
  - apply H. exists (JStr (lit "A")). split; [vm_compute; now left | discriminate].
Defined.

(** ** What the chunked loop asks for *)

Section ChunkRequests.

Variable env : Env.
Variables (prompt_template topic context : str) (target_count : Z).
Variable validator_func : option (json -> outcome bool).
Variable chunk_size0 : Z.

Lemma chunk_loop_requests calls : forall all_items failed_calls chunk_size w r w',
  (1 <= chunk_size <= chunk_size0)%Z ->
  chunk_loop env prompt_template topic context target_count validator_func
    calls all_items failed_calls chunk_size w = (r, w') ->
  exists added,
    trace w' = trace w ++ added
    /\ Forall (fun n => (1 <= n <= chunk_size0)%Z /\ (n <= target_count)%Z)
         (generate_calls added).
Proof.
  induction calls as [|calls IH]; intros all_items failed_calls chunk_size w r w' Hcs.
  - simpl. unfold ret. intros H. injection H as _ <-. exists [].
    split; [now rewrite app_nil_r | constructor].
  - cbn [chunk_loop].
    destruct (Z.leb_spec (Z.min chunk_size (target_count - Z.of_nat (length all_items))) 0)
      as [Hstop | Hgo].
    { unfold ret. intros H. injection H as _ <-. exists [].
      split; [now rewrite app_nil_r | constructor]. }
    set (current_chunk := Z.min chunk_size (target_count - Z.of_nat (length all_items)))
      in *.
    unfold bind at 1. unfold lift_outcome.
    destruct (str_format env prompt_template topic context current_chunk) as [prompt|e].
    2: { intros H. injection H as _ <-. exists [].
         split; [now rewrite app_nil_r | constructor]. }
    unfold bind at 1.
    destruct (generate_json_items_spec env prompt current_chunk validator_func w)
      as (items & w1 & added1 & Hrun & Htr1 & Hgen1 & _).
    rewrite Hrun.
    assert (Hnext : forall a fc c,
               (1 <= c <= chunk_size0)%Z ->
               (if (target_count <=? Z.of_nat (length a))%Z
                then ret a
                else chunk_loop env prompt_template topic context target_count
                       validator_func calls a fc c) w1 = (r, w') ->
               exists added,
                 trace w' = trace w ++ added
                 /\ Forall (fun n => (1 <= n <= chunk_size0)%Z /\ (n <= target_count)%Z)
                      (generate_calls added)).
    { intros a fc c Hc Hrest.
      assert (Hhere : (1 <= current_chunk <= chunk_size0)%Z
                      /\ (current_chunk <= target_count)%Z) by lia.
      destruct (target_count <=? Z.of_nat (length a))%Z.
      - unfold ret in Hrest. injection Hrest as _ <-.
        exists (EvGenerateItems prompt current_chunk :: added1).
        split; [exact Htr1|]. simpl. rewrite Hgen1. now constructor.
      - destruct (IH _ _ _ _ _ _ Hc Hrest) as (added2 & Htr2 & Hall2).
        exists (EvGenerateItems prompt current_chunk :: added1 ++ added2).
        split.
        + rewrite Htr2, Htr1. now rewrite <- app_assoc.
        + simpl. rewrite generate_calls_app, Hgen1. now constructor. }
    assert (Hhalf : (1 <= Z.max 1 (chunk_size / 2) <= chunk_size0)%Z).
    { assert (chunk_size / 2 <= chunk_size)%Z
        by (apply Z.div_le_upper_bound; lia). lia. }
    destruct items as [|item items].
    + destruct ((2 <=? failed_calls + 1)%Z
                && Qlt_bool (inject_Z (Z.of_nat (length all_items)))
                     (inject_Z target_count * (1 # 2)))%bool; now apply Hnext.
    + now apply Hnext.
Qed.

End ChunkRequests.

(** X15. Each call the chunked loop makes asks for at least one item, for
    no more than the chunk size it was started with, and for no more than
    the target; a target of zero or less makes no call at all and gives the
    empty list. *)
Theorem chunked_generation_requests
    (env : Env) (prompt_template topic context : str) (target_count : Z)
    (validator_func : option (json -> outcome bool)) (chunk_size : Z)
    (content_type : str) (w w' : World) (r : outcome (list json))
    (Hchunk : (1 <= chunk_size)%Z)
    (Hrun : _generate_content_chunked env prompt_template topic context target_count
              validator_func chunk_size content_type w = (r, w')) :
  exists added,
    trace w' = trace w ++ added
    /\ Forall (fun n => (1 <= n <= chunk_size)%Z /\ (n <= target_count)%Z)
         (generate_calls added)
    /\ ((target_count <= 0)%Z -> added = [] /\ r = Ok []).
Proof.
  revert Hrun. unfold _generate_content_chunked.
  destruct (Z.eqb_spec chunk_size 0) as [E | _]; [lia|].
  unfold bind.
  destruct (chunk_loop env prompt_template topic context target_count validator_func
              (Z.to_nat ((target_count + chunk_size - 1) / chunk_size)) [] 0%Z
              chunk_size w) as [[all_items|e] w1] eqn:El.
  - unfold ret. intros H. injection H as <- <-.
    destruct (@chunk_loop_requests env prompt_template topic context target_count
                validator_func chunk_size _ _ _ chunk_size _ _ _
                (conj Hchunk (Z.le_refl chunk_size)) El)
      as (added & Htr & Hall).
    destruct (Z.leb_spec target_count 0) as [Hneg | Hpos].
    + assert (Hn : Z.to_nat ((target_count + chunk_size - 1) / chunk_size) = 0%nat).
      { assert ((target_count + chunk_size - 1) / chunk_size < 1)%Z
          by (apply Z.div_lt_upper_bound; lia). lia. }
      rewrite Hn in El. simpl in El. unfold ret in El. injection El as <- <-.
      exists []. split; [now rewrite app_nil_r|]. split; [constructor|].
      intros _. split; [reflexivity|]. unfold slice_to.
      destruct (0 <=? target_count)%Z; now rewrite firstn_nil.
    + exists added. split; [exact Htr|]. split; [exact Hall|].
      intros Hneg. exfalso. lia.
  - intros H. injection H as <- <-.
    destruct (@chunk_loop_requests env prompt_template topic context target_count
                validator_func chunk_size _ _ _ chunk_size _ _ _
                (conj Hchunk (Z.le_refl chunk_size)) El)
      as (added & Htr & Hall).
    exists added. split; [exact Htr|]. split; [exact Hall|].
    intros Hneg.
    assert (Hn : Z.to_nat ((target_count + chunk_size - 1) / chunk_size) = 0%nat).
    { assert ((target_count + chunk_size - 1) / chunk_size < 1)%Z
        by (apply Z.div_lt_upper_bound; lia). lia. }
    rewrite Hn in El. simpl in El. discriminate.
Qed.

Lemma chunked_generation_requests_witness :
  exists added,
    trace (snd (_generate_content_chunked (constant_llm_env refusal_text)
                  (lit "template") (lit "topic") (lit "context") 20 None 15
                  (lit "questions") empty_world))
    = trace empty_world ++ added
    /\ Forall (fun n => (1 <= n <= 15)%Z /\ (n <= 20)%Z) (generate_calls added).
Proof.
  destruct (@chunked_generation_requests (constant_llm_env refusal_text)
              (lit "template") (lit "topic") (lit "context") 20 None 15
              (lit "questions") empty_world _ _ ltac:(lia) (surjective_pairing _))
    as (added & H1 & H2 & _).
  exists added. split; [exact H1 | exact H2].
Defined.

(** ** Cache maintenance *)

Lemma cache_misses_empty_cache env texts : cache_misses env [] texts = texts.
Proof.
  induction texts as [|t ts IH]; [reflexivity|].
  rewrite cache_misses_cons. simpl. now rewrite IH.
Qed.



(** ** [chunk_and_embed_document]: the count check *)

Section CountCheck.

Variable env : Env.

(** The run of [create_embeddings] when the model answers, however many
    vectors it returns. *)
Lemma create_embeddings_answer w texts news :
  cache_misses env (embedding_cache w) texts <> [] ->
  model_encode env (length (trace w)) (cache_misses env (embedding_cache w) texts)
  = Ok news ->
  exists cache',
    create_embeddings env texts w
    = (Ok (merge_in_order env (embedding_cache w) texts news),
       set_embedding_cache cache'
         (log_event (EvEncode (cache_misses env (embedding_cache w) texts)) w)).
Proof.
  intros Hne Henc. unfold create_embeddings, try_except.
  destruct texts as [|t ts] eqn:Et; [now contradiction Hne|].
  rewrite <- Et in *. clear Et.
  unfold bind at 1. unfold get_state at 1. unfold enumerate.
  rewrite lookup_loop_spec. simpl app.
  destruct (cache_misses env (embedding_cache w) texts) as [|m ms] eqn:Em;
    [now contradiction Hne|].
  destruct (update_loop_ok env (combine (m :: ms) news)
              (log_event (EvEncode (m :: ms)) w)) as [c Hc].
  exists c. unfold bind, now, emit, modify, lift_outcome, ret.
  rewrite Henc, Hc.
  now rewrite (sorted_embeddings env (embedding_cache w) texts news).
Qed.

(** Too few vectors from the model give too few embeddings. *)
Lemma merge_in_order_short cache texts : forall news,
  (length news < length (cache_misses env cache texts))%nat ->
  (length (merge_in_order env cache texts news) < length texts)%nat.
Proof.
  assert (Hle : forall ts ns,
             (length (merge_in_order env cache ts ns) <= length ts)%nat).
  { induction ts as [|t ts IH]; intros ns; simpl; [lia|].
    destruct (SimpleCache.get cache (_hash_content env t)).
    - simpl. specialize (IH ns). lia.
    - destruct ns as [|n ns]; simpl; [specialize (IH []) | specialize (IH ns)]; lia. }
  induction texts as [|t ts IH]; intros news H.
  - simpl in H. lia.
  - rewrite cache_misses_cons in H. simpl.
    destruct (SimpleCache.get cache (_hash_content env t)).
    + simpl. specialize (IH news H). lia.
    + destruct news as [|n ns]; simpl in *.
      * specialize (Hle ts []). lia.
      * assert (length ns < length (cache_misses env cache ts))%nat by lia.
        specialize (IH ns H0). lia.
Qed.

End CountCheck.



(** ** [clean_json_response]: a dict, and nothing *)



(** ** What counts as rate limiting *)

Lemma starts_with_self (p b : str) : starts_with p (p ++ b) = true.
Proof. induction p as [|c p IH]; simpl; [reflexivity|]. now rewrite N.eqb_refl. Qed.

Lemma contains_app (p a b : str) : contains p (a ++ p ++ b) = true.
Proof.
  induction a as [|c a IH].
  - simpl app. destruct (p ++ b) as [|x s] eqn:E.
    + simpl. rewrite <- E. now rewrite starts_with_self.
    + cbn [contains]. rewrite <- E. now rewrite starts_with_self.
  - simpl app. cbn [contains]. rewrite IH. apply orb_true_r.
Qed.



(** ** [generate_content]: a retry that succeeds *)

Section Recovery.

Variable env : Env.
Variables prompt content_type : str.

(** Each failed attempt that has a successor leaves a call and a sleep in
    the trace, so the attempt after [j] failures asks the LLM at the index
    of the first attempt plus [2 * j]. *)
Lemma attempts_loop_recovers j : forall k n w response,
  (k + n = max_retries + 1)%nat -> (j < n)%nat ->
  PyDict.get (generation_cache w) (_hash_content env prompt) = None ->
  (forall i, (i < j)%nat ->
     exists e, llm_chat env (length (trace w) + 2 * i) (chat_messages prompt content_type)
               = Raise e) ->
  llm_chat env (length (trace w) + 2 * j) (chat_messages prompt content_type)
  = Ok response ->
  exists w' added,
    attempts_loop env (seq k n) prompt content_type w = (Ok response, w')
    /\ trace w' = trace w ++ added
    /\ llm_calls added = S j
    /\ length (sleeps added) = j.
Proof.
  induction j as [|j IH]; intros k n w response Hk Hn Hmiss Hfail Hok.
  - destruct n as [|n]; [lia|]. cbn [seq attempts_loop]. unfold try_except.
    pose proof (attempt_body_run env prompt content_type w) as Hb.
    rewrite Hmiss in Hb. rewrite Nat.mul_0_r, Nat.add_0_r in Hok. rewrite Hok in Hb.
    destruct Hb as (w' & Hrun & Htr). rewrite Hrun.
    exists w', [EvLlmCall (chat_messages prompt content_type)].
    repeat split; [exact Htr].
  - destruct n as [|n]; [lia|]. cbn [seq attempts_loop]. unfold try_except.
    pose proof (attempt_body_run env prompt content_type w) as Hb.
    rewrite Hmiss in Hb.
    destruct (Hfail 0%nat ltac:(lia)) as [e He].
    rewrite Nat.mul_0_r, Nat.add_0_r in He. rewrite He in Hb. rewrite Hb. clear Hb.
    set (w1 := log_event (EvLlmCall (chat_messages prompt content_type)) w).
    unfold max_retries in Hk.
    assert (Hlt : (k <? max_retries)%nat = true).
    { apply Nat.ltb_lt. unfold max_retries. lia. }
    assert (Hretry : forall delay,
               exists w' added,
                 bind (emit (EvSleep delay))
                   (fun _ => attempts_loop env (seq (S k) n) prompt content_type) w1
                 = (Ok response, w')
                 /\ trace w' = trace w ++ added
                 /\ llm_calls added = S (S j)
                 /\ length (sleeps added) = S j).
    { intros delay. unfold bind, emit, modify.
      assert (Hlen : length (trace (log_event (EvSleep delay) w1))
                     = (length (trace w) + 2)%nat).
      { subst w1. simpl. rewrite !length_app. simpl. lia. }
      destruct (IH (S k) n (log_event (EvSleep delay) w1) response)
        as (w' & added & Hrun & Htr & Hcalls & Hsl).
      - unfold max_retries. lia.
      - lia.
      - exact Hmiss.
      - intros i Hi. rewrite Hlen. destruct (Hfail (S i) ltac:(lia)) as [e' He'].
        exists e'. rewrite <- He'. f_equal. lia.
      - rewrite Hlen. rewrite <- Hok. f_equal. lia.
      - exists w', (EvLlmCall (chat_messages prompt content_type) :: EvSleep delay :: added).
        split; [exact Hrun|]. split.
        + rewrite Htr. subst w1. simpl. now rewrite <- !app_assoc.
        + simpl. split; lia. }
    rewrite Hlt. destruct (is_rate_limit e).
    + unfold bind at 1. unfold now at 1. apply Hretry.
    + apply Hretry.
Qed.

End Recovery.


